(** * go-gnu-screen: a shallow embedding of [screen.go]

    The Go package drives GNU screen by running the [screen] executable and
    reading back its textual output.  This development embeds the package's
    discovery ([Get], [GetAll]), lifecycle ([New]) and dispatch operations
    ([Quit], [Kill], [Clear], [Stuff], [Chdir], [Exec], [Hardcopy], [Log]) as
    executable functions over an explicit program state, with the external
    collaborators (the [screen] executable, the file system, the context)
    answered by an environment the theorems quantify over.

    - Go strings are byte sequences: they are [string] here, and the library
      functions working on them are written over [list ascii]; where the
      library reads characters, they are decoded from UTF-8 as it does.
    - An operation is a function from the environment and the state to an
      outcome: it returns, or it panics (index out of range, nil pointer).
      The state holds the history of effects, in order, and the registry of
      mutexes.
    - The embedding follows one goroutine at a time: taking and releasing a
      mutex are recorded in the history, and [LoadOrStore] is one step.
    - The poll loop of [New] has no bound in the source; the embedding takes
      the number of polls it may make and answers [Unfinished] beyond.
    - [Signal] walks the table of processes through [ps]; the depth of its
      recursion is bounded in the model as the polls of [New] are.
    - [HardcopyString] works through a temporary file, whose calls are
      recorded beside the history.
    - [StuffReturnGetOutput], whose result is a race between a goroutine and
      the context, and [init], which sets two package variables no function
      reads, are left out. *)

From Stdlib Require Import String Ascii List ZArith Lia Bool.
From Stdlib Require Import DecimalString DecimalPos.
From stdpp Require Import base gmap strings.
Import ListNotations.

Local Open Scope string_scope.
Local Open Scope list_scope.

(** ** Bytes *)

Definition bytes := list ascii.

Definition B (s : string) : bytes := list_ascii_of_string s.
Definition S_ (b : bytes) : string := string_of_list_ascii b.

Definition code (c : ascii) : nat := nat_of_ascii c.

(** ['0' <= c <= '9'] *)
Definition is_digit (c : ascii) : bool := (48 <=? code c)%nat && (code c <=? 57)%nat.

(** ASCII letters and digits, [isalnum] of [regexp/syntax]. *)
Definition is_alnum (c : ascii) : bool :=
  is_digit c
  || ((65 <=? code c)%nat && (code c <=? 90)%nat)
  || ((97 <=? code c)%nat && (code c <=? 122)%nat).

(** [c < utf8.RuneSelf] *)
Definition is_ascii7 (c : ascii) : bool := (code c <? 128)%nat.

(** The Perl class [\s] of Go's regexp: tab, newline, form feed, carriage
    return and space (no vertical tab). *)
Definition is_re_space (c : ascii) : bool :=
  match code c with
  | 9 | 10 | 12 | 13 | 32 => true
  | _ => false
  end.

(** [asciiSpace] of package [strings]: the above and vertical tab. *)
Definition is_ascii_space (c : ascii) : bool :=
  match code c with
  | 9 | 10 | 11 | 12 | 13 | 32 => true
  | _ => false
  end.

(** ** Package [unicode/utf8] *)

Module Utf8.

(** [utf8.RuneError] *)
Definition RuneError : Z := 65533.

(** The byte [s[i]] as a number. *)
Definition byte_at (s : bytes) (i : nat) : Z := Z.of_nat (code (nth i s zero)).

(** [utf8.DecodeRuneInString(s)]: the character at the head of [s] and its
    width in bytes.  The first byte gives the size of the encoding and the
    range its second byte must lie in (the tables [first] and
    [acceptRanges]); an encoding that is invalid or cut short is [RuneError]
    with width 1, and the empty string is [RuneError] with width 0. *)
Definition DecodeRuneInString (s : bytes) : Z * nat :=
  let n := length s in
  if (n <? 1)%nat then (RuneError, 0%nat)
  else
    let s0 := byte_at s 0 in
    if (s0 <? 128)%Z then (s0, 1%nat)
    else if (s0 <? 194)%Z || (244 <? s0)%Z then (RuneError, 1%nat)
    else
      let sz := if (s0 <? 224)%Z then 2%nat else if (s0 <? 240)%Z then 3%nat else 4%nat in
      let lo := if (s0 =? 224)%Z then 160%Z else if (s0 =? 240)%Z then 144%Z else 128%Z in
      let hi := if (s0 =? 237)%Z then 159%Z else if (s0 =? 244)%Z then 143%Z else 191%Z in
      if (n <? sz)%nat then (RuneError, 1%nat)
      else
        let s1 := byte_at s 1 in
        if (s1 <? lo)%Z || (hi <? s1)%Z then (RuneError, 1%nat)
        else if (sz <=? 2)%nat
        then (Z.lor (Z.shiftl (Z.land s0 31) 6) (Z.land s1 63), 2%nat)
        else
          let s2 := byte_at s 2 in
          if (s2 <? 128)%Z || (191 <? s2)%Z then (RuneError, 1%nat)
          else if (sz <=? 3)%nat
          then (Z.lor (Z.lor (Z.shiftl (Z.land s0 15) 12) (Z.shiftl (Z.land s1 63) 6))
                      (Z.land s2 63), 3%nat)
          else
            let s3 := byte_at s 3 in
            if (s3 <? 128)%Z || (191 <? s3)%Z then (RuneError, 1%nat)
            else (Z.lor (Z.lor (Z.lor (Z.shiftl (Z.land s0 7) 18)
                                      (Z.shiftl (Z.land s1 63) 12))
                               (Z.shiftl (Z.land s2 63) 6))
                        (Z.land s3 63), 4%nat).

(** The head of [s] is not the encoding of a character: what
    [DecodeRuneInString] reports as [RuneError] with width 1. *)
Definition invalid_head (s : bytes) : bool :=
  let (r, w) := DecodeRuneInString s in (r =? RuneError)%Z && (w =? 1)%nat.

(** [utf8.RuneStart(b)]: not a continuation byte. *)
Definition RuneStart (c : ascii) : bool :=
  negb ((128 <=? code c)%nat && (code c <? 192)%nat).

(** The backward scan of [DecodeLastRuneInString]: from [start] down to
    [lim], the first index holding a start byte, or the index below [lim]. *)
Fixpoint scan_back (s : bytes) (lim : Z) (steps : nat) (start : Z) : Z :=
  match steps with
  | O => start
  | S k =>
      if (start <? lim)%Z then start
      else if RuneStart (nth (Z.to_nat start) s zero) then start
      else scan_back s lim k (start - 1)
  end.

(** [utf8.DecodeLastRuneInString(s)] *)
Definition DecodeLastRuneInString (s : bytes) : Z * nat :=
  let e := Z.of_nat (length s) in
  if (e =? 0)%Z then (RuneError, 0%nat)
  else
    let r := byte_at s (length s - 1) in
    if (r <? 128)%Z then (r, 1%nat)
    else
      let lim := Z.max 0 (e - 4) in
      let start := Z.max 0 (scan_back s lim 4 (e - 2)) in
      let (r, size) := DecodeRuneInString (skipn (Z.to_nat start) s) in
      if negb (start + Z.of_nat size =? e)%Z then (RuneError, 1%nat) else (r, size).

End Utf8.

(** ** Packages [strings], [strconv] and [unicode] *)

Module GoStrings.

Fixpoint has_prefix (p s : bytes) : bool :=
  match p, s with
  | [], _ => true
  | _ :: _, [] => false
  | a :: p', b :: s' => Ascii.eqb a b && has_prefix p' s'
  end.

(** [strings.Contains(s, substr)] *)
Fixpoint contains (s sub : bytes) : bool :=
  has_prefix sub s ||
  match s with
  | [] => false
  | _ :: s' => contains s' sub
  end.

Definition Contains (s substr : string) : bool := contains (B s) (B substr).

(** [strings.Split(s, sep)] for a separator of one byte: the pieces between
    the separators, always at least one piece. *)
Fixpoint split (sep : ascii) (s : bytes) : list bytes :=
  match s with
  | [] => [[]]
  | c :: s' =>
      if Ascii.eqb c sep then [] :: split sep s'
      else match split sep s' with
           | p :: ps => (c :: p) :: ps
           | [] => [[c]]
           end
  end.

Definition Split (s : string) (sep : ascii) : list string :=
  map S_ (split sep (B s)).

(** [strings.Fields(s)].  Go takes a fast path when every byte of [s] is
    ASCII, splitting around runs of [asciiSpace]; otherwise it decodes
    UTF-8 and splits on [unicode.IsSpace].  Only the fast path is
    modelled: [None] stands for an input with a byte above 127. *)
Fixpoint fields (cur : bytes) (s : bytes) : list bytes :=
  match s with
  | [] => match cur with [] => [] | _ => [rev cur] end
  | c :: s' =>
      if is_ascii_space c
      then match cur with
           | [] => fields [] s'
           | _ => rev cur :: fields [] s'
           end
      else fields (c :: cur) s'
  end.

Definition Fields (s : string) : option (list string) :=
  if forallb is_ascii7 (B s) then Some (map S_ (fields [] (B s))) else None.

(** [strings.Join(elems, sep)] *)
Fixpoint Join (elems : list string) (sep : string) : string :=
  match elems with
  | [] => ""
  | [e] => e
  | e :: es => e +:+ sep +:+ Join es sep
  end.

Definition digit_val (c : ascii) : Z := Z.of_nat (code c) - 48.

Fixpoint decimal (acc : Z) (s : bytes) : option Z :=
  match s with
  | [] => Some acc
  | c :: s' => if is_digit c then decimal (acc * 10 + digit_val c) s' else None
  end.

Definition max_int : Z := 2 ^ 63 - 1.
Definition min_int : Z := - 2 ^ 63.

(** [strconv.Atoi(s)] on a 64-bit platform: an optional sign, then one or
    more decimal digits, and the value must fit an [int]; [None] is the
    non-nil error. *)
Definition Atoi (s : string) : option Z :=
  let digits_of (neg : bool) (ds : bytes) :=
    match ds with
    | [] => None
    | _ => match decimal 0 ds with
           | Some n => let v := if neg then (- n)%Z else n in
                       if (min_int <=? v)%Z && (v <=? max_int)%Z then Some v else None
           | None => None
           end
    end in
  match B s with
  | [] => None
  | c :: ds =>
      if Ascii.eqb c "-" then digits_of true ds
      else if Ascii.eqb c "+" then digits_of false ds
      else digits_of false (c :: ds)
  end.

(** [strconv.Itoa(i)] *)
Definition Itoa (i : Z) : string := NilZero.string_of_int (Z.to_int i).

(** [unicode.IsSpace(r)]: the Latin-1 spaces, and the rest of the table
    [White_Space]. *)
Definition IsSpace (r : Z) : bool :=
  if (r <=? 255)%Z
  then existsb (Z.eqb r) [9; 10; 11; 12; 13; 32; 133; 160]%Z
  else (r =? 5760)%Z || ((8192 <=? r)%Z && (r <=? 8202)%Z)
       || (r =? 8232)%Z || (r =? 8233)%Z || (r =? 8239)%Z || (r =? 8287)%Z
       || (r =? 12288)%Z.

(** [strings.TrimLeftFunc(s, unicode.IsSpace)]: the characters are decoded
    from the front, and the first that is not a space starts the result. *)
Fixpoint trim_left (fuel : nat) (s : bytes) : bytes :=
  match fuel with
  | O => s
  | S f =>
      match s with
      | [] => []
      | _ :: _ =>
          let (r, w) := Utf8.DecodeRuneInString s in
          if IsSpace r then trim_left f (skipn w s) else s
      end
  end.

Definition TrimLeftSpace (s : bytes) : bytes := trim_left (length s) s.

(** [lastIndexFunc(s, unicode.IsSpace, false)]: the characters of [s[0:i]]
    are decoded from the back; the index of the last that is not a space,
    [None] for -1. *)
Fixpoint last_non_space (fuel : nat) (s : bytes) (i : nat) : option nat :=
  match fuel with
  | O => None
  | S f =>
      if (i =? 0)%nat then None
      else
        let (r, size) := Utf8.DecodeLastRuneInString (firstn i s) in
        let i' := (i - size)%nat in
        if IsSpace r then last_non_space f s i' else Some i'
  end.

(** [strings.TrimRightFunc(s, unicode.IsSpace)] *)
Definition TrimRightSpace (s : bytes) : bytes :=
  match last_non_space (length s) s (length s) with
  | Some i =>
      if (128 <=? Utf8.byte_at s i)%Z
      then firstn (i + snd (Utf8.DecodeRuneInString (skipn i s))) s
      else firstn (S i) s
  | None => []
  end.

(** The second loop of [TrimSpace], over [s[start:]] read from its end. *)
Fixpoint trim_stop (r : bytes) : bytes :=
  match r with
  | [] => []
  | c :: r' =>
      if negb (is_ascii7 c) then TrimRightSpace (rev r)
      else if is_ascii_space c then trim_stop r'
      else rev r
  end.

(** The first loop of [TrimSpace]: ASCII spaces are skipped; a byte that is
    not ASCII hands what is left to the functions above. *)
Fixpoint trim_start (s : bytes) : bytes :=
  match s with
  | [] => []
  | c :: s' =>
      if negb (is_ascii7 c) then TrimRightSpace (TrimLeftSpace s)
      else if is_ascii_space c then trim_start s'
      else trim_stop (rev s)
  end.

(** [strings.TrimSpace(s)] *)
Definition TrimSpace (s : string) : string := S_ (trim_start (B s)).

End GoStrings.

(** ** Package [regexp]

    The fragment of Go's regular expressions (RE2 syntax, Perl flags) that
    the two patterns of [screen.go] are written in: literal characters, [.],
    the escapes [\d], [\s] and escaped punctuation, bracketed lists of
    bytes, capturing groups, [$], and the greedy repetitions [*], [+], [?]
    and [{min,max}] of a single byte; with the leftmost-first matching of a
    backtracking matcher.  [Get] splices the session name into its pattern
    unescaped, so the pattern is parsed from its text; what the parser does
    not read is reported as [NotModelled], and the result is then the
    environment's to give. *)

Module Regexp.

(** Sets of bytes: [\d], [\s], a literal byte, a bracketed list. *)
Inductive cclass : Type :=
| CDigit
| CSpace
| CByte (c : ascii)
| CSet (l : bytes).

Definition in_class (k : cclass) (a : ascii) : bool :=
  match k with
  | CDigit => is_digit a
  | CSpace => is_re_space a
  | CByte c => Ascii.eqb c a
  | CSet l => existsb (Ascii.eqb a) l
  end.

Inductive regex : Type :=
| REmpty
| RClass (k : cclass)               (* one byte of the class *)
| RCat (r1 r2 : regex)
| RStar (r : regex)                 (* greedy *)
| RPlus (r : regex)                 (* greedy *)
| RQuest (r : regex)                (* greedy *)
| RCap (i : nat) (r : regex)        (* capturing group number [i] *)
| REnd                              (* [$] without the multi-line flag *)
| RAny                              (* [.]: any character but a newline *)
| RRune (r : Z).                    (* a literal character outside ASCII *)

Definition RChr (c : ascii) : regex := RClass (CByte c).

Definition cat_all (l : list regex) : regex := fold_right RCat REmpty l.

(** [r{min,max}] written out, as [regexp/syntax] simplifies it. *)
Fixpoint opt_times (r : regex) (n : nat) : regex :=
  match n with
  | O => REmpty
  | S n' => RQuest (RCat r (opt_times r n'))
  end.

Fixpoint times (r : regex) (n : nat) (tail : regex) : regex :=
  match n with
  | O => tail
  | S n' => RCat r (times r n' tail)
  end.

Definition repeat_re (r : regex) (min max : nat) : regex :=
  times r min (opt_times r (max - min)).

(** *** Parsing *)

Inductive status := Good | SyntaxError | OutsideFragment.

Inductive mode :=
| MNormal
| MAfterOpen                               (* right after [(] *)
| MEscape                                  (* after a backslash *)
| MClass (acc : bytes)                     (* inside [[...]] *)
| MBraceMin (ds : bytes)                   (* inside [{], reading min *)
| MBraceMax (min : nat) (ds : bytes).      (* after the comma *)

(** The parser's stack: [cur] holds the pieces of the concatenation being
    read, most recent first; [frames] holds, for each group still open, its
    capture number and the pieces read before its parenthesis. *)
Record pstate := {
  stat : status;
  md : mode;
  frames : list (nat * list regex);
  cur : list regex;
  ncap : nat;
  after_repeat : bool
}.

Definition start : pstate :=
  {| stat := Good; md := MNormal; frames := []; cur := []; ncap := 0;
     after_repeat := false |}.

Definition fail_with (e : status) (p : pstate) : pstate :=
  {| stat := e; md := md p; frames := frames p; cur := cur p; ncap := ncap p;
     after_repeat := after_repeat p |}.

Definition set_mode (m : mode) (p : pstate) : pstate :=
  {| stat := stat p; md := m; frames := frames p; cur := cur p; ncap := ncap p;
     after_repeat := after_repeat p |}.

Definition push (r : regex) (p : pstate) : pstate :=
  {| stat := stat p; md := MNormal; frames := frames p; cur := r :: cur p;
     ncap := ncap p; after_repeat := false |}.

(** A repetition operator applies to the piece before it.  With nothing
    before it in the current group Go reports "missing argument to
    repetition operator"; right after another repetition operator it
    reports "invalid nested repetition operator".  Repetition of a single
    byte is in the fragment. *)
Definition repeat_last (f : regex -> regex) (p : pstate) : pstate :=
  if after_repeat p then fail_with SyntaxError p
  else match cur p with
       | [] => fail_with SyntaxError p
       | RClass c :: rest =>
           {| stat := stat p; md := MNormal; frames := frames p;
              cur := f (RClass c) :: rest; ncap := ncap p; after_repeat := true |}
       | _ => fail_with OutsideFragment p
       end.

(** Go refuses expressions nested deeper than [maxHeight]; the fragment
    stops well before. *)
Definition max_depth : nat := 100.

Definition open_group (p : pstate) : pstate :=
  if (max_depth <=? length (frames p))%nat then fail_with OutsideFragment p
  else {| stat := stat p; md := MAfterOpen; frames := (S (ncap p), cur p) :: frames p;
          cur := []; ncap := S (ncap p); after_repeat := false |}.

Definition close_group (p : pstate) : pstate :=
  match frames p with
  | [] => fail_with SyntaxError p         (* unexpected ) *)
  | (i, outer) :: fs =>
      {| stat := stat p; md := MNormal; frames := fs;
         cur := RCap i (cat_all (rev (cur p))) :: outer; ncap := ncap p;
         after_repeat := false |}
  end.

Fixpoint nat_of_digits (acc : nat) (ds : bytes) : nat :=
  match ds with
  | [] => acc
  | d :: ds' => nat_of_digits (acc * 10 + (code d - 48)) ds'
  end.

(** A count inside braces: digits, no leading zero. *)
Definition count_of (ds : bytes) : option nat :=
  match ds with
  | [] => None
  | [d] => Some (code d - 48)
  | d :: _ => if Ascii.eqb d "0" then None else Some (nat_of_digits 0 ds)
  end.

Definition apply_repeat (min max : nat) (p : pstate) : pstate :=
  if (min <=? max)%nat && (max <=? 1000)%nat
  then repeat_last (fun r => repeat_re r min max) (set_mode MNormal p)
  else fail_with OutsideFragment p.

Definition step_normal (p : pstate) (c : ascii) : pstate :=
  if negb (is_ascii7 c) then fail_with OutsideFragment p
  else if Ascii.eqb c "(" then open_group p
  else if Ascii.eqb c ")" then close_group p
  else if Ascii.eqb c "\" then set_mode MEscape p
  else if Ascii.eqb c "[" then set_mode (MClass []) p
  else if Ascii.eqb c "{" then
    if after_repeat p then fail_with OutsideFragment p else set_mode (MBraceMin []) p
  else if Ascii.eqb c "*" then repeat_last RStar p
  else if Ascii.eqb c "+" then repeat_last RPlus p
  else if Ascii.eqb c "?" then
    if after_repeat p then fail_with OutsideFragment p    (* non-greedy *)
    else repeat_last RQuest p
  else if Ascii.eqb c "$" then push REnd p
  else if Ascii.eqb c "." then push RAny p
  else if Ascii.eqb c "|" || Ascii.eqb c "^" then fail_with OutsideFragment p
  else push (RChr c) p.

Definition step_escape (p : pstate) (c : ascii) : pstate :=
  if Ascii.eqb c "d" then push (RClass CDigit) p
  else if Ascii.eqb c "s" then push (RClass CSpace) p
  else if is_ascii7 c && negb (is_alnum c) then push (RChr c) p
  else fail_with OutsideFragment p.

Definition step_class (acc : bytes) (p : pstate) (c : ascii) : pstate :=
  if Ascii.eqb c "]" then
    match acc with
    | [] => fail_with OutsideFragment p
    | _ => push (RClass (CSet acc)) p
    end
  else if negb (is_ascii7 c) || Ascii.eqb c "\" || Ascii.eqb c "^"
          || Ascii.eqb c "-" || Ascii.eqb c "["
  then fail_with OutsideFragment p
  else set_mode (MClass (acc ++ [c])) p.

Definition step_brace_min (ds : bytes) (p : pstate) (c : ascii) : pstate :=
  if is_digit c then set_mode (MBraceMin (ds ++ [c])) p
  else if Ascii.eqb c "," then
    match count_of ds with
    | Some n => set_mode (MBraceMax n []) p
    | None => fail_with OutsideFragment p
    end
  else if Ascii.eqb c "}" then
    match count_of ds with
    | Some n => apply_repeat n n p
    | None => fail_with OutsideFragment p
    end
  else fail_with OutsideFragment p.

Definition step_brace_max (min : nat) (ds : bytes) (p : pstate) (c : ascii) : pstate :=
  if is_digit c then set_mode (MBraceMax min (ds ++ [c])) p
  else if Ascii.eqb c "}" then
    match count_of ds with
    | Some n => apply_repeat min n p
    | None => fail_with OutsideFragment p
    end
  else fail_with OutsideFragment p.

Definition step (p : pstate) (c : ascii) : pstate :=
  match stat p with
  | Good =>
      match md p with
      | MNormal => step_normal p c
      | MAfterOpen =>
          (* [(?] starts flags, a non-capturing or a named group *)
          if Ascii.eqb c "?" then fail_with OutsideFragment p
          else step_normal (set_mode MNormal p) c
      | MEscape => step_escape p c
      | MClass acc => step_class acc p c
      | MBraceMin ds => step_brace_min ds p c
      | MBraceMax n ds => step_brace_max n ds p c
      end
  | _ => p
  end.

Inductive compiled :=
| Prog (r : regex) (groups : nat)
| CompileError                     (* [Compile] returns [nil] and an error *)
| NotModelled.                     (* syntax outside the fragment *)

Definition finish (p : pstate) : compiled :=
  match stat p with
  | OutsideFragment => NotModelled
  | SyntaxError => CompileError
  | Good =>
      match md p with
      | MNormal =>
          match frames p with
          | [] => Prog (cat_all (rev (cur p))) (ncap p)
          | _ :: _ => CompileError          (* missing closing ) *)
          end
      | MAfterOpen => CompileError          (* missing closing ) *)
      | MEscape => CompileError             (* trailing backslash *)
      | MClass _ => CompileError            (* missing closing ] *)
      | MBraceMin _ | MBraceMax _ _ => NotModelled
      end
  end.

(** A character outside ASCII is a literal where a literal may stand. *)
Definition step_rune (p : pstate) (r : Z) : pstate :=
  match stat p with
  | Good =>
      match md p with
      | MNormal | MAfterOpen => push (RRune r) p
      | _ => fail_with OutsideFragment p
      end
  | _ => p
  end.

(** Bytes that are not the encoding of a character end the parse with the
    error "invalid UTF-8". *)
Definition invalid_utf8 (p : pstate) : pstate :=
  match stat p with
  | Good => fail_with SyntaxError p
  | _ => p
  end.

(** The parser reads the expression a character at a time: an ASCII byte
    goes to [step], the encoding of another character to [step_rune].
    [fuel] is the length of the expression. *)
Fixpoint parse (fuel : nat) (s : bytes) (p : pstate) : pstate :=
  match fuel, s with
  | S f, c :: s' =>
      if is_ascii7 c then parse f s' (step p c)
      else if Utf8.invalid_head s then invalid_utf8 p
      else parse f (skipn (snd (Utf8.DecodeRuneInString s)) s)
                 (step_rune p (fst (Utf8.DecodeRuneInString s)))
  | _, _ => p
  end.

(** [regexp.Compile(expr)] *)
Definition Compile (expr : string) : compiled :=
  finish (parse (length (B expr)) (B expr) start).

(** *** Matching *)

Definition caps := list (nat * bytes).

Fixpoint cap_get (c : caps) (i : nat) : bytes :=
  match c with
  | [] => []
  | (j, w) :: c' => if (i =? j)%nat then w else cap_get c' i
  end.

Definition mres : Type := bytes * caps.
Definition cont := bytes -> caps -> option mres.

(** What was consumed between the input [s] and its suffix [s']. *)
Definition consumed (s s' : bytes) : bytes := firstn (length s - length s') s.

Fixpoint star_loop (body : cont -> cont) (k : cont) (fuel : nat) (s : bytes) (c : caps)
  : option mres :=
  match fuel with
  | O => k s c
  | S f =>
      match body (fun s' c' =>
                    if (length s' <? length s)%nat then star_loop body k f s' c'
                    else None) s c with
      | Some x => Some x
      | None => k s c
      end
  end.

Fixpoint run (r : regex) (k : cont) (s : bytes) (c : caps) {struct r} : option mres :=
  match r with
  | REmpty => k s c
  | RClass p =>
      match s with
      | a :: s' => if in_class p a then k s' c else None
      | [] => None
      end
  | RCat r1 r2 => run r1 (run r2 k) s c
  | RStar r1 => star_loop (run r1) k (length s) s c
  | RPlus r1 => run r1 (fun s' c' => star_loop (run r1) k (length s') s' c') s c
  | RQuest r1 =>
      match run r1 k s c with
      | Some x => Some x
      | None => k s c
      end
  | RCap i r1 => run r1 (fun s' c' => k s' ((i, consumed s s') :: c')) s c
  | REnd => match s with [] => k s c | _ :: _ => None end
  | RAny =>
      match s with
      | [] => None
      | _ :: _ =>
          let (x, w) := Utf8.DecodeRuneInString s in
          if (x =? 10)%Z then None else k (skipn w s) c
      end
  | RRune r0 =>
      match s with
      | [] => None
      | _ :: _ =>
          let (x, w) := Utf8.DecodeRuneInString s in
          if (x =? r0)%Z then k (skipn w s) c else None
      end
  end.

Definition accept : cont := fun s c => Some (s, c).

(** The leftmost match starting at or after the head of [s], which sits at
    offset [pos] of the text: begin, end and captures.  The expressions of
    [screen.go] start with an ASCII byte, and no ASCII byte lies inside the
    encoding of a character, so a match is tried at every byte. *)
Fixpoint search (r : regex) (s : bytes) (pos : nat) : option (nat * nat * caps) :=
  match run r accept s [] with
  | Some (s', c) => Some (pos, pos + (length s - length s'), c)
  | None =>
      match s with
      | [] => None
      | _ :: t => search r t (S pos)
      end
  end.

(** [re.MatchString(s)] *)
Definition MatchString (r : regex) (s : string) : bool :=
  match search r (B s) 0 with Some _ => true | None => false end.

(** One element of [FindAllStringSubmatch]: the whole match, then the text
    of each group (empty when the group did not take part). *)
Definition submatch (groups : nat) (text : bytes) (b e : nat) (c : caps) : list string :=
  S_ (firstn (e - b) (skipn b text)) :: map (fun i => S_ (cap_get c i)) (seq 1 groups).

(** The loop of [allMatches]: successive non-overlapping matches; an empty
    match right after the previous match is skipped. *)
Fixpoint all_matches (fuel : nat) (r : regex) (groups : nat) (text : bytes)
         (pos : nat) (prev_end : option nat) : list (list string) :=
  match fuel with
  | O => []
  | S f =>
      if (pos <=? length text)%nat then
        match search r (skipn pos text) pos with
        | None => []
        | Some (b, e, c) =>
            let skip := (e =? pos)%nat && bool_decide (prev_end = Some b) in
            let pos' := if (e =? pos)%nat then S pos else e in
            let rest := all_matches f r groups text pos' (Some e) in
            if skip then rest else submatch groups text b e c :: rest
        end
      else []
  end.

(** [re.FindAllStringSubmatch(s, -1)] *)
Definition FindAllStringSubmatch (r : regex) (groups : nat) (s : string)
  : list (list string) :=
  all_matches (length (B s) + 2) r groups (B s) 0 None.

End Regexp.


(** ** Errors

    A Go [error] value; [option error] is the interface, [None] being [nil]. *)

Inductive error : Type :=
| ErrNotExist                                    (* os.ErrNotExist *)
| ErrorString (msg : string)                     (* errors.New(msg) *)
| SyscallError (syscall : string) (err : error)  (* &os.SyscallError{Syscall, Err} *)
| PathError (op path : string) (err : error)     (* &fs.PathError{Op, Path, Err} *)
| Errno (n : Z) (text : string)                  (* syscall.Errno with its text *)
| Canceled                                       (* context.Canceled *)
| DeadlineExceeded.                              (* context.DeadlineExceeded *)

#[global] Instance error_eq_dec : EqDecision error.
Proof. solve_decision. Defined.

Definition ENOENT : Z := 2.

(** [os.underlyingError]: one layer of the wrappers of package [os]. *)
Definition underlyingError (e : error) : error :=
  match e with
  | PathError _ _ inner => inner
  | SyscallError _ inner => inner
  | _ => e
  end.

(** [os.IsNotExist(err)] *)
Definition IsNotExist (err : option error) : bool :=
  match err with
  | None => false
  | Some e =>
      match underlyingError e with
      | ErrNotExist => true
      | Errno n _ => (n =? ENOENT)%Z
      | _ => false
      end
  end.

(** The [Error()] method. *)
Fixpoint Error (e : error) : string :=
  match e with
  | ErrNotExist => "file does not exist"
  | ErrorString msg => msg
  | SyscallError sc inner => sc +:+ ": " +:+ Error inner
  | PathError op path inner => op +:+ " " +:+ path +:+ ": " +:+ Error inner
  | Errno _ text => text
  | Canceled => "context canceled"
  | DeadlineExceeded => "context deadline exceeded"
  end.

(** The values [screen.go] builds from the sentinels of package [os]. *)
Definition errInvalidName : error :=
  SyscallError "invalid argument" (ErrorString "screen name cannot be empty").
Definition errAlreadyExists : error :=
  SyscallError "file already exists" (ErrorString "screen already exists").
Definition errNotFound : error :=
  SyscallError "file does not exist" (ErrorString "screen not found").
Definition errInvalidFdpat : error :=
  SyscallError "invalid argument" (ErrorString "invalid fdpat").

(** ** The outside world *)

Inductive stream := Stdout | Stderr.

#[global] Instance stream_eq_dec : EqDecision stream.
Proof. solve_decision. Defined.

(** What a child process did: its writes, in order, and the error of
    [Cmd.Run] ([None] for exit status 0, otherwise the text of the error,
    such as "exit status 1"). *)
Record completion := {
  writes : list (stream * string);
  failure : option string
}.

Definition concat_str (l : list string) : string := fold_right String.append "" l.

(** What [CombinedOutput] collects: both streams, interleaved as written. *)
Definition combined (c : completion) : string := concat_str (map snd (writes c)).

(** What [Output] collects: standard output alone. *)
Definition stdout_of (c : completion) : string :=
  concat_str (map snd (filter (fun w => bool_decide (fst w = Stdout)) (writes c))).

Definition mutex := nat.

Inductive event : Type :=
| EvRun (path : string) (args : list string)   (* a command run to completion *)
| EvSleep (ms : Z)                             (* time.Sleep *)
| EvStat (path : string)                       (* os.Stat *)
| EvTruncate (path : string) (size : Z)        (* os.Truncate *)
| EvLock (m : mutex)
| EvUnlock (m : mutex).

#[global] Instance event_eq_dec : EqDecision event.
Proof. solve_decision. Defined.

(** The collaborators answer as a function of everything that happened so
    far.  Two library results are left to the environment where the
    definitions above stop: what [FindAllStringSubmatch] returns for an
    expression outside the modelled syntax ([None] when it does not compile),
    and what [strings.Fields] returns for a text that is not ASCII. *)
Record env := {
  run_cmd : list event -> string -> list string -> completion;
  stat_file : list event -> string -> option error;
  regexp_other : string -> string -> option (list (list string));
  fields_other : string -> list string
}.

(** A [context.Context]: never done, or done with [ctx_error] from the
    moment [done_at] events have happened (a context that is done stays
    done). *)
Record Context := {
  done_at : option nat;
  ctx_error : error
}.

Definition Background : Context := {| done_at := None; ctx_error := Canceled |}.

(** ** Program state

    The history of effects, the package variable [mutexes] (a [sync.Map] from
    session name to [*sync.Mutex]) and the next address [new(sync.Mutex)]
    hands out. *)
Record state := {
  history : list event;
  mutexes : gmap string mutex;
  fresh : mutex
}.

Definition initial : state := {| history := []; mutexes := ∅; fresh := 0 |}.

Inductive outcome (A : Type) : Type :=
| Returns (a : A) (st : state)
| Panics (st : state)               (* a run-time panic unwinds the call *)
| Unfinished.                       (* the loop bound of the model ran out *)

Arguments Returns {A} a st.
Arguments Panics {A} st.
Arguments Unfinished {A}.

Definition M (A : Type) : Type := env -> state -> outcome A.

Definition ret {A} (a : A) : M A := fun _ st => Returns a st.

Definition bind {A B} (m : M A) (f : A -> M B) : M B :=
  fun E st =>
    match m E st with
    | Returns a st' => f a E st'
    | Panics st' => Panics st'
    | Unfinished => Unfinished
    end.

Notation "'let*' p ':=' m 'in' k" := (bind m (fun p => k))
  (at level 10, p pattern, m at level 100, k at level 200, only parsing).

Definition panic {A} : M A := fun _ st => Panics st.

Definition emit (e : event) (st : state) : state :=
  {| history := history st ++ [e]; mutexes := mutexes st; fresh := fresh st |}.

Definition log_event (e : event) : M unit := fun _ st => Returns tt (emit e st).

(** [exec.Command(path, args...).CombinedOutput()] *)
Definition CombinedOutput (path : string) (args : list string) : M (string * option string) :=
  fun E st =>
    let c := run_cmd E (history st) path args in
    Returns (combined c, failure c) (emit (EvRun path args) st).

(** [exec.Command(path, args...).Output()] *)
Definition Output (path : string) (args : list string) : M (string * option string) :=
  fun E st =>
    let c := run_cmd E (history st) path args in
    Returns (stdout_of c, failure c) (emit (EvRun path args) st).

(** [time.Sleep] *)
Definition Sleep (ms : Z) : M unit := log_event (EvSleep ms).

(** [os.Stat(path)], keeping the error *)
Definition Stat (path : string) : M (option error) :=
  fun E st => Returns (stat_file E (history st) path) (emit (EvStat path) st).

(** [os.Truncate(path, size)], result dropped as the callers do *)
Definition Truncate (path : string) (size : Z) : M unit := log_event (EvTruncate path size).

(** [ctx.Err()] *)
Definition ctx_Err (ctx : Context) : M (option error) :=
  fun _ st =>
    Returns (match done_at ctx with
             | Some n => if (n <=? length (history st))%nat then Some (ctx_error ctx) else None
             | None => None
             end) st.

(** [new(sync.Mutex)] *)
Definition new_Mutex : M mutex :=
  fun _ st =>
    Returns (fresh st)
            {| history := history st; mutexes := mutexes st; fresh := S (fresh st) |}.

(** [mutexes.LoadOrStore(key, value)]: the value already stored under [key]
    if there is one, otherwise [value], which is stored; one atomic step. *)
Definition LoadOrStore (key : string) (value : mutex) : M mutex :=
  fun _ st =>
    match mutexes st !! key with
    | Some m => Returns m st
    | None =>
        Returns value
                {| history := history st; mutexes := <[key := value]> (mutexes st);
                   fresh := fresh st |}
    end.

(** ** [screen.go] *)

Record Screen := {
  Name : string;
  Mutex : option mutex;        (* *sync.Mutex, [None] for nil *)
  Process : option Z           (* *os.Process, by its pid *)
}.

Definition zero_Screen : Screen := {| Name := ""; Mutex := None; Process := None |}.

Definition screenExec : string := "/usr/bin/screen".

Definition no_sockets : string := "No Sockets found in".

(** [os.FindProcess(pid)] on Unix always yields a process value. *)
Definition FindProcess (pid : Z) : option Z := Some pid.

(** [fmt.Sprintf("\\s(\\d+)\\.(%s)\\s", name)] *)
Definition get_pattern (name : string) : string := "\s(\d+)\.(" +:+ name +:+ ")\s".

(** The loop of [Get] over the matches: the first match whose second group
    is [name] gives the name and, when its first group parses, the process.
    A match is a slice, indexed without a look at its length: [None] is the
    panic of an index out of range. *)
Fixpoint first_named (name : string) (matches : list (list string)) (s : Screen)
  : option Screen :=
  match matches with
  | [] => Some s
  | m :: rest =>
      match m !! 2%nat with
      | None => None
      | Some m2 =>
          if negb (String.eqb m2 name) then first_named name rest s
          else
            match m !! 1%nat with
            | None => None
            | Some m1 =>
                Some {| Name := name;
                        Mutex := Mutex s;
                        Process := match GoStrings.Atoi m1 with
                                   | Some i => FindProcess i
                                   | None => Process s
                                   end |}
            end
      end
  end.

(** [r, _ := regexp.Compile(expr)] followed by
    [r.FindAllStringSubmatch(text, -1)]: the error of [Compile] is dropped,
    and the method call on the nil [*Regexp] it leaves panics. *)
Definition FindAll (expr text : string) : M (list (list string)) :=
  fun E st =>
    match Regexp.Compile expr with
    | Regexp.Prog r groups => Returns (Regexp.FindAllStringSubmatch r groups text) st
    | Regexp.CompileError => Panics st
    | Regexp.NotModelled =>
        match regexp_other E expr text with
        | Some matches => Returns matches st
        | None => Panics st
        end
    end.

Definition Get (name : string) : M (Screen * option error) :=
  if String.eqb name "" then ret (zero_Screen, Some errInvalidName)
  else
    let* (out, _) := CombinedOutput "screen" ["-ls"; name] in
    if GoStrings.Contains out no_sockets then ret (zero_Screen, Some ErrNotExist)
    else
      let* matches := FindAll (get_pattern name) out in
      match first_named name matches zero_Screen with
      | None => panic                                 (* index out of range *)
      | Some s =>
          if String.eqb (Name s) "" then ret (s, Some ErrNotExist)
          else
            let* newM := new_Mutex in
            let* m := LoadOrStore name newM in
            ret ({| Name := Name s; Mutex := Some m; Process := Process s |}, None)
      end.

(** The lines [GetAll] looks at: all but the first and the last. *)
Definition middle {A} (l : list A) : list A := removelast (tl l).

(** [strings.Fields(s)] *)
Definition Fields (s : string) : M (list string) :=
  fun E st =>
    Returns (match GoStrings.Fields s with
             | Some fs => fs
             | None => fields_other E s
             end) st.

Definition screen_of_line (line : string) : M Screen :=
  let* fs := Fields line in
  match fs with
  | [] => panic                                       (* index out of range *)
  | subject :: _ =>
      let nameAndPID := GoStrings.Split subject "." in
      let proc := match GoStrings.Atoi (nth 0 nameAndPID "") with
                  | Some i => FindProcess i
                  | None => None
                  end in
      match nameAndPID with
      | _ :: name :: _ =>
          let* newM := new_Mutex in
          let* m := LoadOrStore name newM in
          ret {| Name := name; Mutex := Some m; Process := proc |}
      | _ => panic                                    (* index out of range *)
      end
  end.

Fixpoint screens_of_lines (lines : list string) (res : list Screen) : M (list Screen) :=
  match lines with
  | [] => ret res
  | line :: rest =>
      let* s := screen_of_line line in
      screens_of_lines rest (res ++ [s])
  end.

Definition GetAll : M (list Screen) :=
  let* (out, _) := CombinedOutput "screen" ["-ls"] in
  if GoStrings.Contains out no_sockets then ret []
  else screens_of_lines (middle (GoStrings.Split out (ascii_of_nat 10))) [].

(** The poll loop of [New]; [polls] bounds the iterations of the model. *)
Fixpoint New_wait (polls : nat) (ctx : Context) (name : string) (s : Screen)
  : M (Screen * option error) :=
  match polls with
  | O => fun _ _ => Unfinished
  | S n =>
      let* e := ctx_Err ctx in
      match e with
      | Some _ =>
          let* e' := ctx_Err ctx in
          ret (s, e')
      | None =>
          let* _ := Sleep 100 in
          let* (s', err) := Get name in
          if negb (IsNotExist err) then ret (s', err)
          else New_wait n ctx name s'
      end
  end.

Definition New (polls : nat) (ctx : Context) (name shell : string)
  : M (Screen * option error) :=
  let* (_, err) := Get name in
  if negb (IsNotExist err) then ret (zero_Screen, Some errAlreadyExists)
  else
    let* (out, err) := CombinedOutput screenExec ["-dmS"; name; shell] in
    match err with
    | Some _ => ret (zero_Screen, Some (ErrorString out))
    | None => New_wait polls ctx name zero_Screen
    end.

(** [isOnline] *)
Definition isOnline (s : Screen) : M bool :=
  let* (_, err) := Get (Name s) in
  ret (bool_decide (err = None)).

(** [s.Mutex.Lock(); defer s.Mutex.Unlock()] around a body: the unlock also
    runs when the body panics. *)
Definition locked {A} (s : Screen) (body : M A) : M A :=
  match Mutex s with
  | None => panic                                     (* nil pointer *)
  | Some m =>
      fun E st =>
        match body E (emit (EvLock m) st) with
        | Returns a st' => Returns a (emit (EvUnlock m) st')
        | Panics st' => Panics (emit (EvUnlock m) st')
        | Unfinished => Unfinished
        end
  end.

(** The error of a finished control command: its output when it failed. *)
Definition output_error (r : string * option string) : option error :=
  match snd r with
  | Some _ => Some (ErrorString (fst r))
  | None => None
  end.

Definition builtinTemplate (s : Screen) (command : string) : M (option error) :=
  locked s (
    let* online := isOnline s in
    if negb online then ret (Some errNotFound)
    else
      let* r := CombinedOutput screenExec ["-S"; Name s; "-X"; command] in
      ret (output_error r)).

Definition builtinTemplateArgs (s : Screen) (command : string) (args : list string)
  : M (option error) :=
  locked s (
    let* online := isOnline s in
    if negb online then ret (Some errNotFound)
    else
      let* (out, err) := Output screenExec ["-S"; Name s; "-X"; command; GoStrings.Join args " "] in
      match err with
      | Some msg => ret (Some (ErrorString (out +:+ msg)))
      | None => ret None
      end).

Definition Quit (s : Screen) : M (option error) := builtinTemplate s "quit".
Definition Kill (s : Screen) : M (option error) := builtinTemplate s "kill".
Definition Clear (s : Screen) : M (option error) := builtinTemplate s "clear".

Definition Stuff (s : Screen) (commands : list string) : M (option error) :=
  builtinTemplateArgs s "stuff" commands.

Definition Chdir (s : Screen) (path : string) : M (option error) :=
  locked s (
    let* e := Stat path in
    match e with
    | Some err => ret (Some err)
    | None =>
        let* r := CombinedOutput screenExec ["-S"; Name s; "-X"; "chdir"; path] in
        ret (output_error r)
    end).

(** The expression of [Exec], ["/[.!:]{0,3}\\|?$"] in the source, and
    what it compiles to. *)
Definition fdpat_pattern : string := "/[.!:]{0,3}\|?$".

Definition fdpat_regex : Regexp.regex :=
  let marks := Regexp.RClass (Regexp.CSet (B ".!:")) in
  Regexp.RCat (Regexp.RChr "/")
    (Regexp.RCat (Regexp.repeat_re marks 0 3)
       (Regexp.RCat (Regexp.RQuest (Regexp.RChr "|"))
          (Regexp.RCat Regexp.REnd Regexp.REmpty))).

(** [regexp.MatchString(fdpat_pattern, fdpat)]; the expression compiles, so
    the error is nil. *)
Definition fdpat_matches (fdpat : string) : bool := Regexp.MatchString fdpat_regex fdpat.

Definition Exec (s : Screen) (fdpat command : string) (args : list string) : M (option error) :=
  locked s (
    let* online := isOnline s in
    if negb online then ret (Some errNotFound)
    else
      let run :=
        let* r := CombinedOutput screenExec (["-S"; Name s; "-X"; "exec"; fdpat; command] ++ args) in
        ret (output_error r) in
      if String.eqb fdpat "" then run
      else if fdpat_matches fdpat then run
      else ret (Some errInvalidFdpat)).

Definition Hardcopy (s : Screen) (path : string) (append : bool) : M (option error) :=
  locked s (
    let* online := isOnline s in
    if negb online then ret (Some errNotFound)
    else
      let appendString := if append then "on" else "off" in
      let* r := CombinedOutput screenExec ["-S"; Name s; "-X"; "hardcopy_append"; appendString] in
      match output_error r with
      | Some e => ret (Some e)
      | None =>
          let* r := CombinedOutput screenExec ["-S"; Name s; "-X"; "hardcopy"; path] in
          ret (output_error r)
      end).

(** [int(flushInterval)] for a [uint] on a 64-bit platform. *)
Definition int_of_uint (u : Z) : Z :=
  let u := (u mod 2 ^ 64)%Z in
  if (u <? 2 ^ 63)%Z then u else (u - 2 ^ 64)%Z.

Definition Log (s : Screen) (path : string) (append : bool) (flushInterval : Z)
  : M (option error) :=
  locked s (
    let* online := isOnline s in
    if negb online then ret (Some errNotFound)
    else
      let rest :=
        let* r := CombinedOutput screenExec ["-S"; Name s; "-X"; "logfile"; path] in
        match output_error r with
        | Some e => ret (Some e)
        | None =>
            let* r := CombinedOutput screenExec
                        ["-S"; Name s; "-X"; "logfile"; "flush";
                         GoStrings.Itoa (int_of_uint flushInterval)] in
            match output_error r with
            | Some e => ret (Some e)
            | None =>
                let toggle := if String.eqb path "" then "off" else "on" in
                let* r := CombinedOutput screenExec ["-S"; Name s; "-X"; "log"; toggle] in
                ret (output_error r)
            end
        end in
      let* err := Stat path in
      if bool_decide (err <> None) && append then (let* _ := Truncate path 0 in rest)
      else if bool_decide (err <> None) && negb (IsNotExist err) then ret err
      else rest).

(** The dispatch operations by name, for statements about all of them. *)
Inductive operation : Type :=
| OpQuit
| OpKill
| OpClear
| OpStuff (commands : list string)
| OpChdir (path : string)
| OpExec (fdpat command : string) (args : list string)
| OpHardcopy (path : string) (append : bool)
| OpLog (path : string) (append : bool) (flushInterval : Z).

Definition dispatch (s : Screen) (op : operation) : M (option error) :=
  match op with
  | OpQuit => Quit s
  | OpKill => Kill s
  | OpClear => Clear s
  | OpStuff commands => Stuff s commands
  | OpChdir path => Chdir s path
  | OpExec fdpat command args => Exec s fdpat command args
  | OpHardcopy path append => Hardcopy s path append
  | OpLog path append flushInterval => Log s path append flushInterval
  end.

(** *** Custom functions *)

(** The second loop of the closure [recurse]: each line of the output of
    [ps] is visited in turn; [subProcs] is the captured variable, threaded
    through. *)
Fixpoint visit_each (visit : string -> list string -> M (list string))
         (els : list string) (subProcs : list string) : M (list string) :=
  match els with
  | [] => ret subProcs
  | el :: rest =>
      let* subProcs := visit el subProcs in
      visit_each visit rest subProcs
  end.

(** The closure [recurse] of [Signal]: the lines of what [ps] prints for
    [pid] that are not blank are added to [subProcs], then every line is
    visited.  The recursion has no bound in the source; [depth] bounds it in
    the model. *)
Fixpoint recurse (depth : nat) (pid : string) (subProcs : list string) : M (list string) :=
  match depth with
  | O => fun _ _ => Unfinished
  | S d =>
      let* (out, err) := CombinedOutput "ps" ["--no-headers"; "--ppid"; pid; "-o"; "pid:1"] in
      if bool_decide (err <> None)
         || (String.length out =? 0)%nat || (String.length out =? 1)%nat
      then ret subProcs
      else
        let children := GoStrings.Split out (ascii_of_nat 10) in
        let subProcs :=
          subProcs
            ++ List.filter (fun el => negb (String.eqb (GoStrings.TrimSpace el) "")) children in
        visit_each (recurse d) children subProcs
  end.

(** The last loop of [Signal]: a [kill] per process, until one fails having
    written something. *)
Fixpoint kill_each (subProcs : list string) (sig : string) : M (option error) :=
  match subProcs with
  | [] => ret None
  | proc :: rest =>
      let* (out, err) := CombinedOutput "kill" [GoStrings.TrimSpace proc; "-" +:+ sig] in
      if bool_decide (err <> None) && (0 <? String.length out)%nat
      then ret (Some (ErrorString out))
      else kill_each rest sig
  end.

(** [Signal]; [signal] is the number of the [syscall.Signal]. *)
Definition Signal (depth : nat) (s : Screen) (signal : Z) : M (option error) :=
  locked s (
    let* online := isOnline s in
    if negb online then ret (Some ErrNotExist)
    else
      match Process s with
      | None => panic                                 (* nil pointer *)
      | Some pid =>
          let* subProcs := recurse depth (GoStrings.Itoa pid) [] in
          kill_each subProcs (GoStrings.Itoa signal)
      end).

(** *** Temporary files

    [HardcopyString] works through a temporary file.  The calls of package
    [os] it makes are recorded beside the history, each with the number of
    events the history held when it was made; what [os.CreateTemp] and
    [os.ReadFile] return is the environment's to say, as a function of
    everything that happened so far. *)

Inductive file_event : Type :=
| EvCreateTemp (dir pattern : string)          (* os.CreateTemp *)
| EvReadFile (name : string)                   (* os.ReadFile *)
| EvClose (name : string)                      (* f.Close *)
| EvRemove (name : string).                    (* os.Remove *)

#[global] Instance file_event_eq_dec : EqDecision file_event.
Proof. solve_decision. Defined.

Definition file_log := list (nat * file_event).

Record files := {
  create_temp : list event -> file_log -> string -> string -> string + error;
  read_file : list event -> file_log -> string -> string + error
}.

Record fstate := {
  base : state;
  file_calls : file_log
}.

Inductive foutcome (A : Type) : Type :=
| FReturns (a : A) (fs : fstate)
| FPanics (fs : fstate)
| FUnfinished.

Arguments FReturns {A} a fs.
Arguments FPanics {A} fs.
Arguments FUnfinished {A}.

Definition F (A : Type) : Type := env -> files -> fstate -> foutcome A.

Definition fret {A} (a : A) : F A := fun _ _ fs => FReturns a fs.

Definition fbind {A B} (m : F A) (f : A -> F B) : F B :=
  fun E X fs =>
    match m E X fs with
    | FReturns a fs' => f a E X fs'
    | FPanics fs' => FPanics fs'
    | FUnfinished => FUnfinished
    end.

Notation "'let+' p ':=' m 'in' k" := (fbind m (fun p => k))
  (at level 10, p pattern, m at level 100, k at level 200, only parsing).

(** An operation of the package run beside the files. *)
Definition lift {A} (m : M A) : F A :=
  fun E _ fs =>
    match m E (base fs) with
    | Returns a st => FReturns a {| base := st; file_calls := file_calls fs |}
    | Panics st => FPanics {| base := st; file_calls := file_calls fs |}
    | Unfinished => FUnfinished
    end.

Definition file_call (e : file_event) (fs : fstate) : fstate :=
  {| base := base fs;
     file_calls := file_calls fs ++ [(length (history (base fs)), e)] |}.

(** [os.CreateTemp(dir, pattern)]: the name of the file created, or the
    error. *)
Definition CreateTemp (dir pattern : string) : F (string + error) :=
  fun _ X fs =>
    FReturns (create_temp X (history (base fs)) (file_calls fs) dir pattern)
             (file_call (EvCreateTemp dir pattern) fs).

(** [os.ReadFile(name)] *)
Definition ReadFile (name : string) : F (string + error) :=
  fun _ X fs =>
    FReturns (read_file X (history (base fs)) (file_calls fs) name)
             (file_call (EvReadFile name) fs).

(** [f.Close()] and [os.Remove(name)], results dropped as the caller
    does. *)
Definition Close (name : string) : F unit :=
  fun _ _ fs => FReturns tt (file_call (EvClose name) fs).

Definition Remove (name : string) : F unit :=
  fun _ _ fs => FReturns tt (file_call (EvRemove name) fs).

(** [defer cleanup] ahead of [body]: the call runs when the body returns,
    and also when it panics, before the panic goes on. *)
Definition defer {A} (cleanup : F unit) (body : F A) : F A :=
  fun E X fs =>
    match body E X fs with
    | FReturns a fs' =>
        match cleanup E X fs' with
        | FReturns _ fs'' => FReturns a fs''
        | FPanics fs'' => FPanics fs''
        | FUnfinished => FUnfinished
        end
    | FPanics fs' =>
        match cleanup E X fs' with
        | FReturns _ fs'' => FPanics fs''
        | FPanics fs'' => FPanics fs''
        | FUnfinished => FUnfinished
        end
    | FUnfinished => FUnfinished
    end.

Definition HardcopyString (s : Screen) : F (string * option error) :=
  let+ f := CreateTemp "" "*" in
  match f with
  | inr err => fret ("", Some err)
  | inl name =>
      defer (Remove name) (defer (Close name) (
        let+ _ := lift (Hardcopy s name false) in
        let+ r := ReadFile name in
        match r with
        | inr err => fret ("", Some err)
        | inl b => fret (b, None)
        end))
  end.

(** ** Collaborators

    What [screen -ls] prints, and environments built from it. *)

Definition nl : string := String (ascii_of_nat 10) "".
Definition tab : string := String (ascii_of_nat 9) "".

(** The text GNU screen prints for [-ls]: a heading, one line per session
    holding the token [<pid>.<name>] and its state between tabs, and a count
    of the sockets in its directory; or the "No Sockets found" sentence. *)
Record row := { row_pid : nat; row_name : string; row_attached : bool }.

Definition row_token (r : row) : string :=
  GoStrings.Itoa (Z.of_nat (row_pid r)) +:+ "." +:+ row_name r.

Definition row_line (r : row) : string :=
  tab +:+ row_token r +:+ tab
      +:+ (if row_attached r then "(Attached)" else "(Detached)") +:+ nl.

Definition heading (count : nat) : string :=
  match count with
  | 1 => "There is a screen on:"
  | _ => "There are screens on:"
  end.

Definition footing (count : nat) : string :=
  GoStrings.Itoa (Z.of_nat count)
    +:+ match count with
        | 1 => " Socket in /run/screen/S-root."
        | _ => " Sockets in /run/screen/S-root."
        end.

Definition screen_ls (rows : list row) : string :=
  match rows with
  | [] => "No Sockets found in /run/screen/S-root." +:+ nl
  | _ :: _ =>
      heading (length rows) +:+ nl
        +:+ concat_str (map row_line rows)
        +:+ footing (length rows) +:+ nl
  end.

Definition detached (pid : nat) (name : string) : row :=
  {| row_pid := pid; row_name := name; row_attached := false |}.

(** An environment in which every listing prints [listing], every control
    command ends as [control], and [os.Stat] answers [stat]. *)
Definition scripted (listing : string) (control : completion) (stat : option error) : env :=
  {| run_cmd := fun _ path _ =>
       if String.eqb path "screen"
       then {| writes := [(Stdout, listing)]; failure := None |}
       else control;
     stat_file := fun _ _ => stat;
     regexp_other := fun _ _ => None;
     fields_other := fun _ => [] |}.

Definition succeeds : completion := {| writes := []; failure := None |}.

Definition cancelled : Context := {| done_at := Some 0; ctx_error := Canceled |}.

Definition sfoo : Screen := {| Name := "foo"; Mutex := Some 0; Process := Some 123%Z |}.

(** A listing in which the session "foo" is live. *)
Definition foo_live : string := screen_ls [detached 123 "foo"].

(** A control command that writes to both streams and exits with status 1. *)
Definition fails_loudly : completion :=
  {| writes := [(Stdout, "partial "); (Stderr, "No screen session found.")];
     failure := Some "exit status 1" |}.

Definition permission_denied (path : string) : error :=
  PathError "stat" path (Errno 13 "permission denied").

Definition no_such_file (path : string) : error :=
  PathError "stat" path (Errno ENOENT "no such file or directory").

(** An environment whose scoped listings show the session "foo" under pid
    123, and whose unscoped listing shows it under pid 456 and ends without a
    final newline, so that [GetAll] reads the session line alone. *)
Definition foo_twice : env :=
  {| run_cmd := fun _ _ args =>
       {| writes :=
            [(Stdout,
              match args with
              | [_] => "There is a screen on:" +:+ nl +:+ tab +:+ "456.foo" +:+ tab
                         +:+ "(Detached)" +:+ nl +:+ "1 Socket in /run/screen/S-root."
              | _ => screen_ls [detached 123 "foo"]
              end)];
          failure := None |};
     stat_file := fun _ _ => None;
     regexp_other := fun _ _ => None;
     fields_other := fun _ => [] |}.

(** The session "a+b" is live, and every listing shows it. *)
Definition plus_listed : env := scripted (screen_ls [detached 123 "a+b"]) succeeds None.

(** The state in which the liveness check of [sfoo], made from [initial],
    leaves a dispatch operation. *)
Definition foo_checked : state :=
  {| history := [EvLock 0; EvRun "screen" ["-ls"; "foo"]];
     mutexes := {["foo" := 0]}; fresh := 1 |}.

(** The session "t1" shows up once five events have happened. *)
Definition appears_later : env :=
  {| run_cmd := fun h path args =>
       if String.eqb path "screen"
       then {| writes := [(Stdout, if (length h <? 5)%nat then screen_ls []
                                   else screen_ls [detached 77 "t1"])];
               failure := None |}
       else succeeds;
     stat_file := fun _ _ => None;
     regexp_other := fun _ _ => None;
     fields_other := fun _ => [] |}.

(** *** The table of processes *)

#[warnings="-register-all"] Inductive proc : Type := Proc (pid : nat) (kids : list proc).

Definition proc_pid (p : proc) : nat := match p with Proc pid _ => pid end.

Definition proc_kids (p : proc) : list proc := match p with Proc _ kids => kids end.

(** The processes of a tree, each parent before its descendants. *)
Fixpoint procs (p : proc) : list proc :=
  match p with
  | Proc _ kids => p :: flat_map procs kids
  end.

Fixpoint height (p : proc) : nat :=
  match p with
  | Proc _ kids => S (list_max (map height kids))
  end.

Definition pid_text (p : proc) : string := GoStrings.Itoa (Z.of_nat (proc_pid p)).

(** What [ps --no-headers --ppid P -o pid:1] does when the children of [P]
    are [kids]: it prints their pids, one per line; when there is none it
    prints nothing and exits with status 1. *)
Definition ps_lists (kids : list proc) : completion :=
  match kids with
  | [] => {| writes := []; failure := Some "exit status 1" |}
  | _ :: _ =>
      {| writes := [(Stdout, concat_str (map (fun p => pid_text p +:+ nl) kids))];
         failure := None |}
  end.

Definition ps_prints (t : proc) (ppid : string) : completion :=
  match List.find (fun p => String.eqb (pid_text p) ppid) (procs t) with
  | Some p => ps_lists (proc_kids p)
  | None => ps_lists []
  end.

(** An environment in which every listing prints [listing], [ps] answers
    from the tree [t], and every [kill] ends as [kill]. *)
Definition process_table (listing : string) (t : proc) (kill : completion) : env :=
  {| run_cmd := fun _ path args =>
       if String.eqb path "screen"
       then {| writes := [(Stdout, listing)]; failure := None |}
       else if String.eqb path "ps" then ps_prints t (nth 2 args "")
       else kill;
     stat_file := fun _ _ => None;
     regexp_other := fun _ _ => None;
     fields_other := fun _ => [] |}.

(** The session "foo" with two children, one of which has two of its own. *)
Definition foo_tree : proc :=
  Proc 123 [Proc 200 [Proc 300 []; Proc 301 []]; Proc 201 []].

(** A [kill] that fails with a message. *)
Definition no_such_process : completion :=
  {| writes := [(Stderr, "kill: (200): No such process")];
     failure := Some "exit status 1" |}.

(** *** Files *)

Definition initial_files : fstate := {| base := initial; file_calls := [] |}.

(** A file system in which the temporary file is [name] and reading a file
    gives [content]. *)
Definition temp_file (name : string) (content : string + error) : files :=
  {| create_temp := fun _ _ _ _ => inl name;
     read_file := fun _ _ _ => content |}.

(** * Vocabulary of the statements *)

(** ** Histories *)

Definition is_run (e : event) : bool :=
  match e with EvRun _ _ => true | _ => false end.

(** The external commands of a history. *)
Definition runs (h : list event) : list event := filter is_run h.

(** ** Sequences of calls *)

(** Any number of [LoadOrStore] calls, with whatever keys and values and in
    whatever order the goroutines of the program make them: the key and the
    mutex each call gets back. *)
Fixpoint stores (calls : list (string * mutex)) (E : env) (st : state)
  : list (string * mutex) :=
  match calls with
  | [] => []
  | (key, value) :: rest =>
      match LoadOrStore key value E st with
      | Returns m st' => (key, m) :: stores rest E st'
      | _ => []
      end
  end.

(** Each session holds the mutex registered under its name. *)
Definition registered (reg : gmap string mutex) (s : Screen) : Prop :=
  is_Some (Mutex s) /\ reg !! Name s = Mutex s.

(** A discovery call and the sessions it hands to its caller. *)
Inductive discovery : Type :=
| ByName (name : string)      (* Get(name) *)
| All.                        (* GetAll() *)

Definition found (c : discovery) : M (list Screen) :=
  match c with
  | ByName name =>
      let* (s, err) := Get name in
      ret (match err with None => [s] | Some _ => [] end)
  | All => GetAll
  end.

(** The sessions a sequence of discovery calls produces, in order, and the
    state it leaves.  A call that panics hands over no session; the calls
    after it are those of a program that recovers, or of its other
    goroutines until the panic ends it. *)
Fixpoint discoveries (calls : list discovery) (E : env) (st : state) : list Screen * state :=
  match calls with
  | [] => ([], st)
  | c :: cs =>
      match found c E st with
      | Returns l st' =>
          let (l', st'') := discoveries cs E st' in (l ++ l', st'')
      | Panics st' => discoveries cs E st'
      | Unfinished => ([], st)
      end
  end.

(** ** [New] before its loop *)

(** [New] up to its poll loop, with [after] in place of the loop. *)
Definition New_until_wait (name shell : string) (after : M (Screen * option error))
  : M (Screen * option error) :=
  let* (_, err) := Get name in
  if negb (IsNotExist err) then ret (zero_Screen, Some errAlreadyExists)
  else
    let* (out, err) := CombinedOutput screenExec ["-dmS"; name; shell] in
    match err with
    | Some _ => ret (zero_Screen, Some (ErrorString out))
    | None => after
    end.

(** ** Names and the syntax of expressions *)

(** The bytes the parser reads as themselves: ASCII, and none of the
    characters with a meaning in the syntax. *)
Definition meta_bytes : bytes := B "\.+*?()|[{^$".

Definition literal_byte (c : ascii) : bool :=
  is_ascii7 c && negb (existsb (Ascii.eqb c) meta_bytes).

Definition literal_name (name : string) : bool := forallb literal_byte (B name).

(** What the parser makes of a name that has dots as its only syntax: a
    literal for each character, ASCII or not, and [RAny] for each dot.
    [None] for a name with another character of the syntax, or with bytes
    that are not UTF-8. *)
Fixpoint name_atoms (fuel : nat) (n : bytes) : option (list Regexp.regex) :=
  match fuel, n with
  | _, [] => Some []
  | O, _ :: _ => None
  | S f, c :: n' =>
      if is_ascii7 c then
        if Ascii.eqb c "." then option_map (cons Regexp.RAny) (name_atoms f n')
        else if literal_byte c then option_map (cons (Regexp.RChr c)) (name_atoms f n')
        else None
      else if Utf8.invalid_head n then None
      else option_map (cons (Regexp.RRune (fst (Utf8.DecodeRuneInString n))))
                      (name_atoms f (skipn (snd (Utf8.DecodeRuneInString n)) n))
  end.

(** A name of characters that are no syntax but for dots: UTF-8 text
    without any of [\ + * ? ( ) | [ { ^ $]. *)
Definition plain_name (name : string) : bool :=
  match name_atoms (length (B name)) (B name) with
  | Some _ => true
  | None => false
  end.

(** The parser's state after the pieces [atoms] have been read. *)
Definition pushed (atoms : list Regexp.regex) (p : Regexp.pstate) : Regexp.pstate :=
  fold_left (fun q a => Regexp.push a q) atoms p.

(** The pieces of an expression that match one character. *)
Definition single (r : Regexp.regex) : bool :=
  match r with
  | Regexp.RClass _ | Regexp.RAny | Regexp.RRune _ => true
  | _ => false
  end.

(** The expression [Get] compiles, with [atoms] in the place of the name. *)
Definition name_regex_of (atoms : list Regexp.regex) : Regexp.regex :=
  Regexp.RCat (Regexp.RClass Regexp.CSpace)
    (Regexp.RCat
       (Regexp.RCap 1 (Regexp.RCat (Regexp.RPlus (Regexp.RClass Regexp.CDigit)) Regexp.REmpty))
       (Regexp.RCat (Regexp.RChr ".")
          (Regexp.RCat (Regexp.RCap 2 (Regexp.cat_all atoms))
             (Regexp.RCat (Regexp.RClass Regexp.CSpace) Regexp.REmpty)))).

(** No byte of the class [\s]. *)
Definition spaceless (w : bytes) : bool := forallb (fun c => negb (is_re_space c)) w.

(** The expression [Get] compiles for the literal name [n]. *)
Definition name_regex (n : bytes) : Regexp.regex :=
  Regexp.RCat (Regexp.RClass Regexp.CSpace)
    (Regexp.RCat
       (Regexp.RCap 1 (Regexp.RCat (Regexp.RPlus (Regexp.RClass Regexp.CDigit)) Regexp.REmpty))
       (Regexp.RCat (Regexp.RChr ".")
          (Regexp.RCat (Regexp.RCap 2 (Regexp.cat_all (map Regexp.RChr n)))
             (Regexp.RCat (Regexp.RClass Regexp.CSpace) Regexp.REmpty)))).

(** The longest prefix of digits, and what follows it. *)
Fixpoint leading_digits (s : bytes) : bytes :=
  match s with
  | c :: s' => if is_digit c then c :: leading_digits s' else []
  | [] => []
  end.

Fixpoint after_digits (s : bytes) : bytes :=
  match s with
  | c :: s' => if is_digit c then after_digits s' else s
  | [] => []
  end.

(** The text [s] starts with the session [n] as a listing shows it: a
    white-space byte, digits, a dot, [n], a white-space byte.  The result
    is the digits and what is left of the text. *)
Definition match_here (n s : bytes) : option (bytes * bytes) :=
  match s with
  | w :: s1 =>
      if is_re_space w then
        match leading_digits s1, after_digits s1 with
        | _ :: _, dot :: s3 =>
            if Ascii.eqb "." dot && GoStrings.has_prefix n s3 then
              match skipn (length n) s3 with
              | w2 :: s4 => if is_re_space w2 then Some (leading_digits s1, s4) else None
              | [] => None
              end
            else None
        | _, _ => None
        end
      else None
  | [] => None
  end.

(** The text shows the session [n] somewhere. *)
Definition shows (n text : bytes) : bool :=
  existsb (fun k => match match_here n (skipn k text) with
                    | Some _ => true
                    | None => false
                    end)
          (seq 0 (S (length text))).

(** ** The fields of a text *)

(** The maximal runs of bytes that are not white space for [\s]. *)
Fixpoint tokens_from (cur : bytes) (s : bytes) : list bytes :=
  match s with
  | [] => match cur with [] => [] | _ :: _ => [rev cur] end
  | c :: s' =>
      if is_re_space c
      then match cur with
           | [] => tokens_from [] s'
           | _ :: _ => rev cur :: tokens_from [] s'
           end
      else tokens_from (c :: cur) s'
  end.

Definition tokens (s : bytes) : list bytes := tokens_from [] s.

Definition flush (cur : bytes) : list bytes :=
  match cur with [] => [] | _ :: _ => [rev cur] end.

(** A field that reads [<digits>.<n>]. *)
Definition session_token (n t : bytes) : bool :=
  match leading_digits t, after_digits t with
  | _ :: _, dot :: n' => Ascii.eqb "." dot && bool_decide (n' = n)
  | _, _ => false
  end.

Definition row_state (r : row) : string :=
  if row_attached r then "(Attached)" else "(Detached)".

Definition tab_byte : ascii := ascii_of_nat 9.
Definition nl_byte : ascii := ascii_of_nat 10.

(** ** The grammar of [fdpat]

    The words of the specification: at most three of [.], [!], [:],
    optionally followed by [|]. *)

Definition is_mark (c : ascii) : bool := existsb (Ascii.eqb c) (B ".!:").

Fixpoint strip_marks (k : nat) (s : bytes) : bytes :=
  match k, s with
  | S k', c :: s' => if is_mark c then strip_marks k' s' else s
  | _, _ => s
  end.

Definition fdpat_grammar (s : bytes) : bool :=
  match strip_marks 3 s with
  | [] => true
  | [c] => Ascii.eqb "|" c
  | _ :: _ :: _ => false
  end.

(** ** The events of a mutex *)

Definition is_lock (e : event) : bool :=
  match e with EvLock _ | EvUnlock _ => true | _ => false end.

Definition lock_free (l : list event) : bool := forallb (fun e => negb (is_lock e)) l.

(** A body that ends, by returning or by a panic, having added to the
    history no event of a mutex and having kept the registry. *)
Definition ends_unlocked {A} (body : M A) : Prop :=
  forall E st, exists l st',
    ((exists a, body E st = Returns a st') \/ body E st = Panics st')
    /\ history st' = history st ++ l
    /\ lock_free l = true
    /\ mutexes st ⊆ mutexes st'.

(** ** The polls of [New] *)

(** A sleep and a listing each. *)
Definition polls_of (name : string) (k : nat) : list event :=
  List.concat (List.repeat [EvSleep 100; EvRun "screen" ["-ls"; name]] k).

(** ** What [Exec] accepts *)

(** The [fdpat] values that pass the test of [Exec]: the empty string, and
    the strings that end in a slash followed by a word of the grammar. *)
Definition accepted_fdpat (fdpat : string) : Prop :=
  fdpat = ""
  \/ exists pre body, B fdpat = pre ++ "/"%char :: body /\ fdpat_grammar body = true.

(** ** The commands of [Log] *)

(** The control commands of [Log], which follow its look at the file. *)
Definition log_commands (s : Screen) (path : string) (flushInterval : Z) : M (option error) :=
  let* r := CombinedOutput screenExec ["-S"; Name s; "-X"; "logfile"; path] in
  match output_error r with
  | Some e => ret (Some e)
  | None =>
      let* r := CombinedOutput screenExec
                  ["-S"; Name s; "-X"; "logfile"; "flush";
                   GoStrings.Itoa (int_of_uint flushInterval)] in
      match output_error r with
      | Some e => ret (Some e)
      | None =>
          let toggle := if String.eqb path "" then "off" else "on" in
          let* r := CombinedOutput screenExec ["-S"; Name s; "-X"; "log"; toggle] in
          ret (output_error r)
      end
  end.

(** ** The lines of a listing *)

(** No byte of [w] is [sep]. *)
Definition free_of (sep : ascii) (w : bytes) : bool :=
  forallb (fun c => negb (Ascii.eqb c sep)) w.

(** The bytes of [s] before its first dot. *)
Fixpoint before_dot (s : bytes) : bytes :=
  match s with
  | [] => []
  | c :: s' => if Ascii.eqb c "." then [] else c :: before_dot s'
  end.

(** The name [GetAll] reads off the line of a session. *)
Definition listed_name (r : row) : string := S_ (before_dot (B (row_name r))).

(** A word for [strings.Fields]: ASCII, and free of its white space. *)
Definition ascii_word (w : bytes) : bool :=
  forallb (fun c => is_ascii7 c && negb (is_ascii_space c)) w.

(** The first field of a line, as [GetAll] gets it. *)
Definition first_field (E : env) (line : string) : option string :=
  head (match GoStrings.Fields line with
        | Some fs => fs
        | None => fields_other E line
        end).

(** A line [GetAll] cannot read: it has no field, or its first field has no
    dot. *)
Definition unreadable (E : env) (line : string) : bool :=
  match first_field E line with
  | None => true
  | Some subject => free_of "." (B subject)
  end.

(** The line of a row, without its newline. *)
Definition row_text (r : row) : bytes :=
  tab_byte :: B (row_token r) ++ tab_byte :: B (row_state r).

(** ** The walk of [Signal] *)

(** The state after some more events. *)
Definition emits (l : list event) (st : state) : state :=
  {| history := history st ++ l; mutexes := mutexes st; fresh := fresh st |}.

(** The order in which [Signal] collects the descendants of a process: its
    children, then what each child contributes. *)
Fixpoint descendants (p : proc) : list proc :=
  match p with
  | Proc _ kids => kids ++ flat_map descendants kids
  end.

Definition ps_run (pid : string) : event :=
  EvRun "ps" ["--no-headers"; "--ppid"; pid; "-o"; "pid:1"].

(** The [ps] commands of the walk from [p]: one for [p], then, when it has
    children, the walks from each of them and one more for the empty line
    that ends the output. *)
Fixpoint ps_walk (p : proc) : list event :=
  match p with
  | Proc _ kids =>
      ps_run (pid_text p)
        :: match kids with
           | [] => []
           | _ :: _ => flat_map ps_walk kids ++ [ps_run ""]
           end
  end.

Definition kill_run (sig : string) (p : proc) : event :=
  EvRun "kill" [pid_text p; "-" +:+ sig].

(** [ps] answers from the tree [t], whenever it is asked, and fails for the
    empty pid. *)
Definition ps_from (E : env) (t : proc) : Prop :=
  (forall h p, In p (procs t) ->
     run_cmd E h "ps" ["--no-headers"; "--ppid"; pid_text p; "-o"; "pid:1"]
     = ps_lists (proc_kids p))
  /\ (forall h,
        failure (run_cmd E h "ps" ["--no-headers"; "--ppid"; ""; "-o"; "pid:1"]) <> None).

(** No [kill] fails having written something. *)
Definition quiet_kills (E : env) : Prop :=
  forall h args,
    failure (run_cmd E h "kill" args) = None \/ combined (run_cmd E h "kill" args) = "".

(** * Properties *)

(** ** Discovery of the empty name *)

(** C9: [Get("")] returns the validation error built from [os.ErrInvalid]
    with the text "screen name cannot be empty"; that error is not a
    not-exist error, and the state, hence the history of external commands, is
    untouched. *)
Theorem Get_empty_name (E : env) (st : state) :
  Get "" E st = Returns (zero_Screen, Some errInvalidName) st
  /\ IsNotExist (Some errInvalidName) = false
  /\ Error errInvalidName = "invalid argument: screen name cannot be empty".
Proof. repeat split. Qed.

(** The precheck of [New]: whatever [Get] returns that is not a not-exist
    error, a session or another error, ends [New] with "screen already
    exists" before the create command. *)
Lemma New_precheck (polls : nat) (ctx : Context) (name shell : string) (E : env)
      (st st' : state) (s : Screen) (err : option error) :
  Get name E st = Returns (s, err) st' ->
  IsNotExist err = false ->
  New polls ctx name shell E st = Returns (zero_Screen, Some errAlreadyExists) st'.
Proof. intros HGet Hn. unfold New, bind. by rewrite HGet, Hn. Qed.

(** C10: [New] with the empty name answers "screen already exists", not
    "screen name cannot be empty": the precheck turns every outcome of [Get]
    that is not a not-exist error into it, and the validation error of [Get]
    is such an outcome.  The state is untouched: neither the listing nor the
    create command ran. *)
Theorem New_empty_name (polls : nat) (ctx : Context) (shell : string) (E : env) (st : state) :
  New polls ctx "" shell E st = Returns (zero_Screen, Some errAlreadyExists) st
  /\ Error errAlreadyExists = "file already exists: screen already exists"
  /\ errAlreadyExists <> errInvalidName
  /\ (forall name s err st',
        Get name E st = Returns (s, err) st' -> IsNotExist err = false ->
        New polls ctx name shell E st = Returns (zero_Screen, Some errAlreadyExists) st').
Proof.
  split; [done|]. split; [done|]. split; [discriminate|].
  intros name s err st'. apply New_precheck.
Qed.

Lemma New_empty_name_witness :
  let E := scripted foo_live succeeds None in
  New 1 Background "" "sh" E initial = Returns (zero_Screen, Some errAlreadyExists) initial
  /\ New 1 Background "foo" "sh" E initial
     = Returns (zero_Screen, Some errAlreadyExists)
               {| history := [EvRun "screen" ["-ls"; "foo"]];
                  mutexes := {["foo" := 0]}; fresh := 1 |}.
Proof.
  intros E.
  destruct (New_empty_name 1 Background "sh" E initial) as (Hempty & _ & _ & Hother).
  split; [exact Hempty|].
  apply (Hother "foo" sfoo None); vm_compute; reflexivity.
Defined.

(** ** The registry of mutexes *)

Lemma LoadOrStore_spec (key : string) (value : mutex) (E : env) (st : state) :
  exists m st',
    LoadOrStore key value E st = Returns m st'
    /\ mutexes st ⊆ mutexes st'
    /\ mutexes st' !! key = Some m
    /\ history st' = history st.
Proof.
  unfold LoadOrStore.
  destruct (mutexes st !! key) as [m|] eqn:Hk.
  - exists m, st. auto.
  - eexists _, _. split; [reflexivity|]. simpl.
    split; [by apply insert_subseteq|].
    split; [by rewrite lookup_insert_eq|reflexivity].
Qed.

Lemma stores_keep (calls : list (string * mutex)) (E : env) (st : state)
      (key : string) (m m0 : mutex) :
  mutexes st !! key = Some m0 ->
  In (key, m) (stores calls E st) -> m = m0.
Proof.
  revert st. induction calls as [|[k v] rest IH]; intros st Hreg; simpl; [done|].
  destruct (LoadOrStore_spec k v E st) as (m' & st' & -> & Hsub & Hk & _).
  intros [[= -> ->]|Hin].
  - rewrite (lookup_weaken _ _ _ _ Hreg Hsub) in Hk. congruence.
  - apply (IH st'); [|done]. by eapply lookup_weaken.
Qed.

(** Two calls for the same key get the same mutex, however the calls for
    other keys, and the values offered, fall in between. *)
Lemma stores_agree (calls : list (string * mutex)) (E : env) (st : state)
      (key : string) (m1 m2 : mutex) :
  In (key, m1) (stores calls E st) -> In (key, m2) (stores calls E st) -> m1 = m2.
Proof.
  revert st. induction calls as [|[k v] rest IH]; intros st; simpl; [done|].
  destruct (LoadOrStore_spec k v E st) as (m' & st' & -> & Hsub & Hk & _).
  intros [[= -> ->]|H1] [[= Hm]|H2].
  - done.
  - symmetry. by eapply stores_keep.
  - destruct Hm. subst m'. by eapply stores_keep.
  - by eapply IH.
Qed.

(** The tail of [Get] and of the loop body of [GetAll]: allocate, then load
    or store. *)
Lemma register_spec {A} (key : string) (E : env) (st : state) (f : mutex -> A) :
  exists m st',
    (let* newM := new_Mutex in let* m := LoadOrStore key newM in ret (f m)) E st
    = Returns (f m) st'
    /\ mutexes st ⊆ mutexes st'
    /\ mutexes st' !! key = Some m
    /\ history st' = history st.
Proof.
  unfold bind at 1. unfold new_Mutex.
  set (st1 := {| history := history st; mutexes := mutexes st; fresh := S (fresh st) |}).
  destruct (LoadOrStore_spec key (fresh st) E st1) as (m & st' & Hrun & Hsub & Hk & Hh).
  exists m, st'. unfold bind. rewrite Hrun. auto.
Qed.

(** Runs that tail where the goal has it. *)
Ltac register_step key E st :=
  match goal with
  | |- context [bind new_Mutex (fun newM => bind (LoadOrStore key newM)
                                              (fun m => ret (@?f m)))] =>
      let m := fresh "m" in
      let st2 := fresh "st" in
      let Hrun := fresh "Hrun" in
      destruct (register_spec key E st f) as (m & st2 & Hrun & _);
      rewrite Hrun
  end.

Lemma first_named_Name (name : string) (matches : list (list string)) (s s' : Screen) :
  first_named name matches s = Some s' -> Name s' = Name s \/ Name s' = name.
Proof.
  induction matches as [|m rest IH]; simpl; [intros [= <-]; by left|].
  destruct (m !! 2%nat) as [m2|]; [|done].
  destruct (negb _); [exact IH|].
  destruct (m !! 1%nat) as [m1|]; [|done]. intros [= <-]. by right.
Qed.

(** [FindAll] leaves the state as it is. *)
Lemma FindAll_state (expr text : string) (E : env) (st st' : state)
      (matches : list (list string)) :
  FindAll expr text E st = Returns matches st' -> st' = st.
Proof.
  unfold FindAll.
  destruct (Regexp.Compile _); [| |destruct (regexp_other _ _ _)]; congruence.
Qed.

Lemma FindAll_panics (expr text : string) (E : env) (st st' : state) :
  FindAll expr text E st = Panics st' -> st' = st.
Proof.
  unfold FindAll.
  destruct (Regexp.Compile _); [| |destruct (regexp_other _ _ _)]; congruence.
Qed.

(** What a returning [Get] did: it ran the listing once (never for the empty
    name), kept every entry of the registry, and a session it found carries
    the name asked for and the mutex the registry holds for that name. *)
Lemma Get_returns (name : string) (E : env) (st st' : state) (s : Screen) (err : option error) :
  Get name E st = Returns (s, err) st' ->
  history st' = history st ++ (if String.eqb name "" then [] else [EvRun "screen" ["-ls"; name]])
  /\ mutexes st ⊆ mutexes st'
  /\ (err = None ->
      Name s = name /\ name <> "" /\ is_Some (Mutex s) /\ mutexes st' !! name = Mutex s)
  /\ (err <> None -> s = zero_Screen \/ Name s = "").
Proof.
  unfold Get. destruct (String.eqb name "") eqn:Hn.
  - intros [= <- <- <-]. rewrite app_nil_r. repeat split; try done. by left.
  - unfold bind at 1. unfold CombinedOutput.
    set (st1 := emit _ st).
    destruct (GoStrings.Contains _ _).
    + intros [= <- <- <-]. repeat split; try done. by left.
    + unfold bind at 1.
      destruct (FindAll _ _ E st1) as [matches st1'| |] eqn:Hfind; try discriminate.
      apply FindAll_state in Hfind as ->.
      destruct (first_named name matches zero_Screen) as [s0|] eqn:Hfirst; [|discriminate].
      destruct (String.eqb (Name s0) "") eqn:Hs0.
      * intros [= <- <- <-]. repeat split; try done.
        right. by apply String.eqb_eq.
      * destruct (register_spec name E st1
                    (fun m => ({| Name := Name s0; Mutex := Some m; Process := Process s0 |},
                               @None error)))
          as (m & st2 & Hrun & Hsub & Hk & Hh).
        rewrite Hrun. intros [= <- <- <-].
        split; [by rewrite Hh|]. split; [done|]. split; [|done].
        intros _. simpl.
        assert (Name s0 = name) as ->.
        { destruct (first_named_Name name matches zero_Screen s0 Hfirst) as [H|H]; [|exact H].
          simpl in H. rewrite H in Hs0. discriminate. }
        split; [done|]. split; [by apply String.eqb_neq|]. split; [by eexists|done].
Qed.

Lemma screen_of_line_returns (line : string) (E : env) (st st' : state) (s : Screen) :
  screen_of_line line E st = Returns s st' ->
  mutexes st ⊆ mutexes st' /\ is_Some (Mutex s) /\ mutexes st' !! Name s = Mutex s
  /\ history st' = history st.
Proof.
  unfold screen_of_line, bind at 1. unfold Fields.
  destruct (match GoStrings.Fields line with Some fs => fs | None => fields_other E line end)
    as [|subject fs]; try discriminate.
  destruct (GoStrings.Split subject ".") as [|pid [|name rest]]; try discriminate.
  set (proc := match GoStrings.Atoi _ with Some i => FindProcess i | None => None end).
  destruct (register_spec name E st
              (fun m => {| Name := name; Mutex := Some m; Process := proc |}))
    as (m & st2 & Hrun & Hsub & Hk & Hh).
  rewrite Hrun. intros [= <- <-]. simpl. split; [done|]. split; [by eexists|done].
Qed.

Lemma registered_weaken (reg reg' : gmap string mutex) (s : Screen) :
  reg ⊆ reg' -> registered reg s -> registered reg' s.
Proof.
  intros Hsub [[m Hm] Hreg]. split; [by eexists|].
  rewrite Hm in Hreg |- *. by eapply lookup_weaken.
Qed.

Lemma screens_of_lines_returns (lines : list string) (res l : list Screen)
      (E : env) (st st' : state) :
  screens_of_lines lines res E st = Returns l st' ->
  Forall (registered (mutexes st)) res ->
  mutexes st ⊆ mutexes st' /\ Forall (registered (mutexes st')) l
  /\ history st' = history st.
Proof.
  revert res st. induction lines as [|line rest IH]; intros res st; simpl.
  - intros [= <- <-] Hres. auto.
  - unfold bind at 1.
    destruct (screen_of_line line E st) as [s st1| |] eqn:Hline; try discriminate.
    intros Hrest Hres.
    apply screen_of_line_returns in Hline as (Hsub & Hsome & Hreg & Hh).
    apply IH in Hrest as (Hsub' & Hall & Hh').
    + split; [by etrans|]. split; [done|congruence].
    + apply Forall_app. split.
      * eapply Forall_impl; [exact Hres|]. intros x. by apply registered_weaken.
      * constructor; [by split|constructor].
Qed.

Lemma GetAll_returns (l : list Screen) (E : env) (st st' : state) :
  GetAll E st = Returns l st' ->
  mutexes st ⊆ mutexes st' /\ Forall (registered (mutexes st')) l
  /\ history st' = history st ++ [EvRun "screen" ["-ls"]].
Proof.
  unfold GetAll, bind at 1. unfold CombinedOutput.
  destruct (GoStrings.Contains _ _).
  - intros [= <- <-]. auto.
  - intros H. apply screens_of_lines_returns in H; [|constructor]. exact H.
Qed.

Lemma Get_panics (name : string) (E : env) (st st' : state) :
  Get name E st = Panics st' -> mutexes st' = mutexes st.
Proof.
  unfold Get. destruct (String.eqb name ""); [done|].
  unfold bind at 1. unfold CombinedOutput.
  destruct (GoStrings.Contains _ _); [done|].
  unfold bind at 1.
  destruct (FindAll _ _ E _) as [matches st1| |] eqn:Hfind; try discriminate.
  - apply FindAll_state in Hfind as ->.
    destruct (first_named name matches zero_Screen) as [s0|]; [|by intros [= <-]].
    destruct (String.eqb _ ""); [done|].
    by register_step name E (emit (EvRun "screen" ["-ls"; name]) st).
  - intros [= <-]. by apply FindAll_panics in Hfind as ->.
Qed.

Lemma screen_of_line_panics (line : string) (E : env) (st st' : state) :
  screen_of_line line E st = Panics st' -> st' = st.
Proof.
  unfold screen_of_line, bind at 1. unfold Fields.
  destruct (match GoStrings.Fields line with Some fs => fs | None => fields_other E line end)
    as [|subject fs]; [by intros [= <-]|].
  destruct (GoStrings.Split subject ".") as [|pid [|name rest]]; try by intros [= <-].
  by register_step name E st.
Qed.

Lemma screens_of_lines_panics (lines : list string) (res : list Screen)
      (E : env) (st st' : state) :
  screens_of_lines lines res E st = Panics st' -> mutexes st ⊆ mutexes st'.
Proof.
  revert res st. induction lines as [|line rest IH]; intros res st; simpl; [done|].
  unfold bind at 1.
  destruct (screen_of_line line E st) as [s st1| |] eqn:Hline; try discriminate.
  - intros Hrest. apply screen_of_line_returns in Hline as (Hsub & _).
    apply IH in Hrest. by etrans.
  - intros [= <-]. by apply screen_of_line_panics in Hline as ->.
Qed.

Lemma found_panics (c : discovery) (E : env) (st st' : state) :
  found c E st = Panics st' -> mutexes st ⊆ mutexes st'.
Proof.
  destruct c as [name|]; simpl.
  - unfold bind.
    destruct (Get name E st) as [[s err] st1| |] eqn:HGet; try discriminate.
    intros [= <-]. by rewrite (Get_panics _ _ _ _ HGet).
  - unfold GetAll, bind at 1. unfold CombinedOutput.
    destruct (GoStrings.Contains _ _); [done|].
    intros H. by apply screens_of_lines_panics in H.
Qed.

Lemma found_returns (c : discovery) (l : list Screen) (E : env) (st st' : state) :
  found c E st = Returns l st' ->
  mutexes st ⊆ mutexes st' /\ Forall (registered (mutexes st')) l.
Proof.
  destruct c as [name|]; simpl.
  - unfold bind.
    destruct (Get name E st) as [[s err] st1| |] eqn:HGet; try discriminate.
    intros [= <- <-].
    apply Get_returns in HGet as (_ & Hsub & Hok & _).
    split; [done|]. destruct err; [constructor|].
    destruct (Hok eq_refl) as (Hname & _ & Hsome & Hreg).
    constructor; [|constructor]. split; [done|]. by rewrite Hname.
  - intros H. apply GetAll_returns in H as (? & ? & _). auto.
Qed.

Lemma discoveries_registered (calls : list discovery) (E : env) (st : state) :
  mutexes st ⊆ mutexes (snd (discoveries calls E st))
  /\ Forall (registered (mutexes (snd (discoveries calls E st))))
            (fst (discoveries calls E st)).
Proof.
  revert st. induction calls as [|c cs IH]; intros st; simpl.
  - split; [done|constructor].
  - destruct (found c E st) as [l st1|st1|] eqn:Hc; simpl.
    + apply found_returns in Hc as (Hsub & Hl).
      specialize (IH st1). destruct (discoveries cs E st1) as [l' st2]. simpl in *.
      destruct IH as (Hsub' & Hl').
      split; [by etrans|]. apply Forall_app. split; [|done].
      eapply Forall_impl; [exact Hl|]. intros x. by apply registered_weaken.
    + apply found_panics in Hc. destruct (IH st1) as (Hsub' & Hl').
      split; [by etrans|done].
    + split; [done|constructor].
Qed.

(** C1: whatever discovery calls are made, in whatever order, from
    whatever state of the registry and whatever the listings say, two
    sessions they produce for the same name hold the same mutex: the one the
    registry keeps under that name, installed by [LoadOrStore] and never
    replaced. *)
Theorem same_name_same_mutex (calls : list discovery) (E : env) (st : state)
        (s1 s2 : Screen) :
  In s1 (fst (discoveries calls E st)) ->
  In s2 (fst (discoveries calls E st)) ->
  Name s1 = Name s2 ->
  Mutex s1 = Mutex s2
  /\ is_Some (Mutex s1)
  /\ mutexes (snd (discoveries calls E st)) !! Name s1 = Mutex s1.
Proof.
  intros H1 H2 Hname.
  destruct (discoveries_registered calls E st) as (_ & Hall).
  rewrite List.Forall_forall in Hall.
  destruct (Hall _ H1) as (Hsome1 & Hreg1).
  destruct (Hall _ H2) as (_ & Hreg2).
  split; [|by split]. rewrite <- Hreg1, <- Hreg2. by rewrite Hname.
Qed.

Lemma same_name_same_mutex_witness :
  let s1 := {| Name := "foo"; Mutex := Some 0; Process := Some 123%Z |} in
  let s2 := {| Name := "foo"; Mutex := Some 0; Process := Some 456%Z |} in
  fst (discoveries [ByName "foo"; All] foo_twice initial) = [s1; s2]
  /\ Mutex s1 = Mutex s2
  /\ is_Some (Mutex s1)
  /\ mutexes (snd (discoveries [ByName "foo"; All] foo_twice initial)) !! Name s1 = Mutex s1.
Proof.
  intros s1 s2. split; [vm_compute; reflexivity|].
  apply (same_name_same_mutex [ByName "foo"; All] foo_twice initial s1 s2).
  - vm_compute. by left.
  - vm_compute. right. by left.
  - reflexivity.
Defined.

(** ** Cancellation of the poll loop *)

Lemma ctx_Err_done (ctx : Context) (n : nat) (E : env) (st : state) :
  done_at ctx = Some n -> (n <= length (history st))%nat ->
  ctx_Err ctx E st = Returns (Some (ctx_error ctx)) st.
Proof.
  intros Hd Hn. unfold ctx_Err. rewrite Hd.
  destruct (Nat.leb_spec n (length (history st))); [done|lia].
Qed.

(** An iteration that starts with the context done returns its error at
    once; [st] is any state in which an iteration starts. *)
Lemma New_wait_done (polls : nat) (ctx : Context) (name : string) (s : Screen)
      (n : nat) (E : env) (st : state) :
  done_at ctx = Some n -> (n <= length (history st))%nat ->
  New_wait (S polls) ctx name s E st = Returns (s, Some (ctx_error ctx)) st.
Proof.
  intros Hd Hn. simpl. unfold bind.
  by rewrite !(ctx_Err_done ctx n E st Hd Hn).
Qed.

Lemma Get_history_grows (name : string) (E : env) (st st' : state) (r : Screen * option error) :
  Get name E st = Returns r st' -> (length (history st) <= length (history st'))%nat.
Proof.
  destruct r as [s err]. intros H. apply Get_returns in H as (Hh & _).
  rewrite Hh, length_app. lia.
Qed.

Lemma Get_finishes (name : string) (E : env) (st : state) :
  Get name E st <> Unfinished.
Proof.
  unfold Get. destruct (String.eqb name ""); [done|].
  unfold bind at 1. unfold CombinedOutput.
  destruct (GoStrings.Contains _ _); [done|].
  unfold bind at 1. unfold FindAll.
  set (st1 := emit _ st).
  assert (forall matches,
             match first_named name matches zero_Screen with
             | None => panic
             | Some s =>
                 if String.eqb (Name s) "" then ret (s, Some ErrNotExist)
                 else
                   let* newM := new_Mutex in
                   let* m := LoadOrStore name newM in
                   ret ({| Name := Name s; Mutex := Some m; Process := Process s |}, None)
             end E st1 <> Unfinished) as Hrest.
  { intros matches. destruct (first_named _ _ _) as [s0|]; [|done].
    destruct (String.eqb _ ""); [done|].
    by register_step name E st1. }
  destruct (Regexp.Compile _); [apply Hrest|done|].
  destruct (regexp_other _ _ _); [apply Hrest|done].
Qed.

(** A context that is done after [n] events ends the loop within [n] more
    polls: with that many iterations allowed the loop never runs out. *)
Lemma New_wait_finishes (polls : nat) (ctx : Context) (name : string) (s : Screen)
      (n : nat) (E : env) (st : state) :
  done_at ctx = Some n -> (n <= length (history st) + polls)%nat ->
  New_wait (S polls) ctx name s E st <> Unfinished.
Proof.
  intros Hd. revert s st.
  induction polls as [|polls IH]; intros s st Hn.
  - rewrite (New_wait_done 0 ctx name s n E st Hd); [done|lia].
  - destruct (Nat.le_gt_cases n (length (history st))) as [Hle|Hgt].
    + by rewrite (New_wait_done _ ctx name s n E st Hd Hle).
    + change (New_wait (S (S polls)) ctx name s E st)
        with ((let* e := ctx_Err ctx in
               match e with
               | Some _ => let* e' := ctx_Err ctx in ret (s, e')
               | None =>
                   let* _ := Sleep 100 in
                   let* (s', err) := Get name in
                   if negb (IsNotExist err) then ret (s', err)
                   else New_wait (S polls) ctx name s'
               end) E st).
      unfold bind at 1. unfold ctx_Err at 1. rewrite Hd.
      destruct (Nat.leb_spec n (length (history st))); [lia|].
      unfold bind at 1. unfold Sleep, log_event.
      unfold bind at 1.
      destruct (Get name E (emit (EvSleep 100) st)) as [[s' err] st'| |] eqn:HGet;
        try discriminate.
      2: { by apply Get_finishes in HGet. }
      destruct (negb (IsNotExist err)); [discriminate|].
      apply IH. apply Get_history_grows in HGet.
      simpl in HGet. rewrite length_app in HGet. simpl in HGet. lia.
Qed.

(** What precedes the loop runs commands and nothing else. *)
Lemma New_until_wait_events (name shell : string) (r r0 : Screen * option error)
      (E : env) (st st' : state) :
  New_until_wait name shell (ret r0) E st = Returns r st' ->
  exists l, history st' = history st ++ l /\ forallb is_run l = true.
Proof.
  unfold New_until_wait, bind.
  destruct (Get name E st) as [[s1 err] st1| |] eqn:HGet; try discriminate.
  apply Get_returns in HGet as (Hh & _).
  destruct (negb (IsNotExist err)).
  - intros [= <- <-]. eexists. split; [exact Hh|]. by destruct (String.eqb name "").
  - unfold CombinedOutput. destruct (failure _); intros [= <- <-];
      (eexists; split; [simpl; rewrite Hh, <- app_assoc; reflexivity|]);
      by destruct (String.eqb name "").
Qed.

(** [New] called with a context already done does what precedes the loop
    and returns the context's error where the loop would start. *)
Lemma New_done_on_entry (polls : nat) (ctx : Context) (name shell : string)
      (n : nat) (E : env) (st : state) :
  done_at ctx = Some n -> (n <= length (history st))%nat ->
  New (S polls) ctx name shell E st
  = New_until_wait name shell (ret (zero_Screen, Some (ctx_error ctx))) E st.
Proof.
  intros Hd Hn. unfold New, New_until_wait, bind.
  destruct (Get name E st) as [[s1 err] st1| |] eqn:HGet; try done.
  destruct (negb (IsNotExist err)); [done|].
  unfold CombinedOutput.
  destruct (failure _); [done|].
  apply (New_wait_done polls ctx name zero_Screen n); [done|].
  apply Get_history_grows in HGet. simpl. rewrite length_app. lia.
Qed.

(** C5: the poll loop of [New] asks the context at the start of every
    iteration.  In any state [st] in which an iteration starts with the
    context done, the loop returns the context's error there and then, with no
    sleep and no further listing (the state is unchanged); and a context that
    becomes done ends the loop, whatever the listings say.  [New] called with
    a context already done reaches its loop when the precheck finds no
    session and the create command succeeds; it then returns the context's
    error at once.  Such a call never sleeps: all it does is run commands. *)
Theorem New_observes_cancellation (polls : nat) (ctx : Context) (name shell : string)
        (s : Screen) (n : nat) (E : env) (st : state) :
  done_at ctx = Some n -> (n <= length (history st))%nat ->
  New_wait (S polls) ctx name s E st = Returns (s, Some (ctx_error ctx)) st
  /\ (forall st0 s0 k, (n <= length (history st0) + k)%nat ->
        New_wait (S k) ctx name s0 E st0 <> Unfinished)
  /\ (forall s0 err st1,
        Get name E st = Returns (s0, err) st1 -> IsNotExist err = true ->
        failure (run_cmd E (history st1) screenExec ["-dmS"; name; shell]) = None ->
        New (S polls) ctx name shell E st
        = Returns (zero_Screen, Some (ctx_error ctx))
                  (emit (EvRun screenExec ["-dmS"; name; shell]) st1))
  /\ (forall r st', New (S polls) ctx name shell E st = Returns r st' ->
        exists l, history st' = history st ++ l /\ forallb is_run l = true).
Proof.
  intros Hd Hn. split; [by eapply New_wait_done|].
  split; [intros; by eapply New_wait_finishes|].
  rewrite (New_done_on_entry polls ctx name shell n E st Hd Hn). split.
  - intros s0 err st1 HGet Hne Hok.
    unfold New_until_wait, bind, CombinedOutput. rewrite HGet, Hne.
    cbn [negb]. cbv beta zeta. by rewrite Hok.
  - intros r st' Hr. by eapply New_until_wait_events.
Qed.

Lemma New_observes_cancellation_witness :
  let E := scripted (screen_ls []) succeeds None in
  New_wait 1 cancelled "t1" zero_Screen E initial
  = Returns (zero_Screen, Some Canceled) initial
  /\ New 1 cancelled "t1" "sh" E initial
     = Returns (zero_Screen, Some Canceled)
               {| history := [EvRun "screen" ["-ls"; "t1"];
                              EvRun screenExec ["-dmS"; "t1"; "sh"]];
                  mutexes := ∅; fresh := 0 |}.
Proof.
  intros E.
  destruct (New_observes_cancellation 0 cancelled "t1" "sh" zero_Screen 0 E initial
              eq_refl (Nat.le_0_l _)) as (Hloop & _ & Hnew & _).
  split; [exact Hloop|].
  rewrite (Hnew zero_Screen (Some ErrNotExist)
             {| history := [EvRun "screen" ["-ls"; "t1"]]; mutexes := ∅; fresh := 0 |});
    vm_compute; reflexivity.
Defined.

(** ** Dispatch *)

(** The liveness check, as the dispatch operations make it: the lock is
    taken, [Get] is asked, and a session that is not found ends the operation
    with "screen not found" before any control command. *)
Lemma locked_offline (s : Screen) (m : mutex) (E : env) (st st1 : state)
      (s' : Screen) (e : error) (rest : M (option error)) :
  Mutex s = Some m ->
  Get (Name s) E (emit (EvLock m) st) = Returns (s', Some e) st1 ->
  locked s (let* online := isOnline s in
            if negb online then ret (Some errNotFound) else rest) E st
  = Returns (Some errNotFound) (emit (EvUnlock m) st1).
Proof.
  intros Hm HGet. unfold locked. rewrite Hm.
  unfold bind at 1. unfold isOnline, bind at 1. by rewrite HGet.
Qed.

Lemma locked_online (s : Screen) (m : mutex) (E : env) (st st1 : state)
      (s' : Screen) (rest : M (option error)) :
  Mutex s = Some m ->
  Get (Name s) E (emit (EvLock m) st) = Returns (s', None) st1 ->
  locked s (let* online := isOnline s in
            if negb online then ret (Some errNotFound) else rest) E st
  = match rest E st1 with
    | Returns a st' => Returns a (emit (EvUnlock m) st')
    | Panics st' => Panics (emit (EvUnlock m) st')
    | Unfinished => Unfinished
    end.
Proof.
  intros Hm HGet. unfold locked. rewrite Hm.
  unfold bind at 1. unfold isOnline, bind at 1. by rewrite HGet.
Qed.

(** Every dispatch operation but [Chdir] re-discovers its session under the
    lock and, when it is not found, fails with "screen not found" having run
    the listing and nothing else. *)
Lemma dispatch_offline (s : Screen) (op : operation) (m : mutex) (E : env)
      (st st1 : state) (s' : Screen) (e : error) :
  (forall path, op <> OpChdir path) ->
  Mutex s = Some m ->
  Get (Name s) E (emit (EvLock m) st) = Returns (s', Some e) st1 ->
  dispatch s op E st = Returns (Some errNotFound) (emit (EvUnlock m) st1)
  /\ history (emit (EvUnlock m) st1)
     = history st ++ [EvLock m]
         ++ (if String.eqb (Name s) "" then [] else [EvRun "screen" ["-ls"; Name s]])
         ++ [EvUnlock m].
Proof.
  intros Hop Hm HGet. split.
  - destruct op; simpl;
      try (by eapply locked_offline).
    by destruct (Hop path).
  - apply Get_returns in HGet as (Hh & _). simpl. rewrite Hh. simpl.
    by rewrite <- !app_assoc.
Qed.

(** C3 at [Chdir]: the session "gone" is not live (the listing reports no
    sockets, and [Quit] on the same handle fails with "screen not found"
    after the listing), yet [Chdir] takes the lock, checks the path, and runs
    the [chdir] control command without any listing. *)
Theorem Chdir_skips_liveness_check :
  let s := {| Name := "gone"; Mutex := Some 0; Process := Some 123%Z |} in
  let E := scripted (screen_ls []) succeeds None in
  Get "gone" E initial
  = Returns (zero_Screen, Some ErrNotExist)
            {| history := [EvRun "screen" ["-ls"; "gone"]]; mutexes := ∅; fresh := 0 |}
  /\ Quit s E initial
     = Returns (Some errNotFound)
               {| history := [EvLock 0; EvRun "screen" ["-ls"; "gone"]; EvUnlock 0];
                  mutexes := ∅; fresh := 0 |}
  /\ Chdir s "/tmp" E initial
     = Returns None
               {| history := [EvLock 0; EvStat "/tmp";
                              EvRun screenExec ["-S"; "gone"; "-X"; "chdir"; "/tmp"];
                              EvUnlock 0];
                  mutexes := ∅; fresh := 0 |}.
Proof. vm_compute. repeat split. Qed.

(** [Chdir] in general: no listing, whatever the state of the session. *)
Lemma Chdir_returns (s : Screen) (path : string) (m : mutex) (E : env) (st : state) :
  Mutex s = Some m ->
  exists r st',
    Chdir s path E st = Returns r st'
    /\ (history st' = history st ++ [EvLock m; EvStat path; EvUnlock m]
        \/ history st'
           = history st ++ [EvLock m; EvStat path;
                            EvRun screenExec ["-S"; Name s; "-X"; "chdir"; path];
                            EvUnlock m]).
Proof.
  intros Hm. unfold Chdir, locked. rewrite Hm. unfold bind, Stat, CombinedOutput.
  destruct (stat_file E _ path).
  - eexists _, _. split; [reflexivity|]. left. simpl. by rewrite <- !app_assoc.
  - eexists _, _. split; [reflexivity|]. right. simpl. by rewrite <- !app_assoc.
Qed.

(** The control command of [Quit], [Kill] and [Clear] failing on a live
    session: the error carries the combined output and nothing else. *)
Lemma builtinTemplate_failure (s : Screen) (command : string) (m : mutex) (E : env)
      (st st1 : state) (s' : Screen) (msg : string) :
  Mutex s = Some m ->
  Get (Name s) E (emit (EvLock m) st) = Returns (s', None) st1 ->
  failure (run_cmd E (history st1) screenExec ["-S"; Name s; "-X"; command]) = Some msg ->
  exists st',
    builtinTemplate s command E st
    = Returns (Some (ErrorString
                       (combined (run_cmd E (history st1) screenExec
                                          ["-S"; Name s; "-X"; command])))) st'.
Proof.
  intros Hm HGet Hfail. unfold builtinTemplate.
  rewrite (locked_online s m E st st1 s' _ Hm HGet).
  unfold bind, CombinedOutput, output_error. simpl. rewrite Hfail. by eexists.
Qed.

(** The control command of [builtinTemplateArgs] failing on a live session:
    the error carries what the command wrote to standard output, followed by
    the text of the exit error. *)
Lemma builtinTemplateArgs_failure (s : Screen) (command : string) (args : list string)
      (m : mutex) (E : env) (st st1 : state) (s' : Screen) (msg : string) :
  Mutex s = Some m ->
  Get (Name s) E (emit (EvLock m) st) = Returns (s', None) st1 ->
  failure (run_cmd E (history st1) screenExec
                   ["-S"; Name s; "-X"; command; GoStrings.Join args " "]) = Some msg ->
  exists st',
    builtinTemplateArgs s command args E st
    = Returns (Some (ErrorString
                       (stdout_of (run_cmd E (history st1) screenExec
                                           ["-S"; Name s; "-X"; command;
                                            GoStrings.Join args " "]) +:+ msg))) st'.
Proof.
  intros Hm HGet Hfail. unfold builtinTemplateArgs.
  rewrite (locked_online s m E st st1 s' _ Hm HGet).
  unfold bind, Output. simpl. rewrite Hfail. by eexists.
Qed.

(** C8 at [Stuff]: the control command fails having written "partial " to
    standard output and "No screen session found." to standard error.  [Quit]
    returns the combined output; [Stuff] returns standard output alone with
    "exit status 1" appended. *)
Theorem Stuff_failure_message :
  let E := scripted foo_live fails_loudly None in
  combined fails_loudly = "partial No screen session found."
  /\ (exists st', Quit sfoo E initial
                  = Returns (Some (ErrorString "partial No screen session found.")) st')
  /\ (exists st', Stuff sfoo ["echo"; "hi"] E initial
                  = Returns (Some (ErrorString "partial exit status 1")) st'
                  /\ runs (history st')
                     = [EvRun "screen" ["-ls"; "foo"];
                        EvRun screenExec ["-S"; "foo"; "-X"; "stuff"; "echo hi"]]).
Proof.
  vm_compute. split; [reflexivity|]. split; eexists; [reflexivity|].
  split; reflexivity.
Qed.

(** ** Logging *)

(** C6, second half: [os.Stat] fails with "permission denied", which is not
    a not-exist error.  With [append] the error is dropped: [Log] truncates
    and goes on to run its three control commands and returns nil.  Without
    [append] the same error is returned to the caller. *)
Theorem Log_append_swallows_stat_error :
  let path := "/var/log/x.log" in
  let E := scripted foo_live succeeds (Some (permission_denied path)) in
  IsNotExist (Some (permission_denied path)) = false
  /\ Log sfoo path true 10 E initial
     = Returns None
         {| history := [EvLock 0; EvRun "screen" ["-ls"; "foo"]; EvStat path;
                        EvTruncate path 0;
                        EvRun screenExec ["-S"; "foo"; "-X"; "logfile"; path];
                        EvRun screenExec ["-S"; "foo"; "-X"; "logfile"; "flush"; "10"];
                        EvRun screenExec ["-S"; "foo"; "-X"; "log"; "on"];
                        EvUnlock 0];
            mutexes := {["foo" := 0]}; fresh := 1 |}
  /\ Log sfoo path false 10 E initial
     = Returns (Some (permission_denied path))
         {| history := [EvLock 0; EvRun "screen" ["-ls"; "foo"]; EvStat path; EvUnlock 0];
            mutexes := {["foo" := 0]}; fresh := 1 |}.
Proof. vm_compute. repeat split. Qed.

(** C6, first half: with [append], a missing file does not make [Log] fail:
    on a live session whose control commands succeed it points the log file
    at [path] and, the path not being empty, switches logging on. *)
Lemma Log_append_missing_file (s : Screen) (path : string) (flush : Z) (m : mutex)
      (E : env) (st st1 : state) (s' : Screen) (e : error) :
  Mutex s = Some m ->
  path <> "" ->
  Get (Name s) E (emit (EvLock m) st) = Returns (s', None) st1 ->
  stat_file E (history st1) path = Some e ->
  IsNotExist (Some e) = true ->
  (forall h args, failure (run_cmd E h screenExec args) = None) ->
  exists st',
    Log s path true flush E st = Returns None st'
    /\ history st'
       = history st1
           ++ [EvStat path; EvTruncate path 0;
               EvRun screenExec ["-S"; Name s; "-X"; "logfile"; path];
               EvRun screenExec ["-S"; Name s; "-X"; "logfile"; "flush";
                                 GoStrings.Itoa (int_of_uint flush)];
               EvRun screenExec ["-S"; Name s; "-X"; "log"; "on"];
               EvUnlock m].
Proof.
  intros Hm Hpath HGet Hstat _ Hok. unfold Log.
  rewrite (locked_online s m E st st1 s' _ Hm HGet).
  unfold bind at 1. unfold Stat. rewrite Hstat. simpl.
  unfold bind, Truncate, log_event, CombinedOutput, output_error. simpl.
  rewrite !Hok.
  apply String.eqb_neq in Hpath. rewrite Hpath.
  eexists. split; [reflexivity|]. simpl. by rewrite <- !app_assoc.
Qed.

Example Log_append_missing_file_example :
  let path := "/tmp/new.log" in
  let E := scripted foo_live succeeds (Some (no_such_file path)) in
  IsNotExist (Some (no_such_file path)) = true
  /\ Log sfoo path true 10 E initial
     = Returns None
         {| history := [EvLock 0; EvRun "screen" ["-ls"; "foo"]; EvStat path;
                        EvTruncate path 0;
                        EvRun screenExec ["-S"; "foo"; "-X"; "logfile"; path];
                        EvRun screenExec ["-S"; "foo"; "-X"; "logfile"; "flush"; "10"];
                        EvRun screenExec ["-S"; "foo"; "-X"; "log"; "on"];
                        EvUnlock 0];
            mutexes := {["foo" := 0]}; fresh := 1 |}.
Proof. vm_compute. split; reflexivity. Qed.

(** ** Validation of [fdpat] *)

(** C7 as stated fails: [Exec] with the pattern "bad" on a live session
    returns "invalid fdpat", but only after the listing of the liveness check
    has run: one external command, not none. *)
Lemma Exec_bad_fdpat_runs_listing :
  let E := scripted foo_live succeeds None in
  fdpat_matches "bad" = false
  /\ exists st',
       Exec sfoo "bad" "ls" [] E initial = Returns (Some errInvalidFdpat) st'
       /\ runs (history st') = [EvRun "screen" ["-ls"; "foo"]]
       /\ runs (history st') <> [].
Proof.
  vm_compute. split; [reflexivity|]. eexists. repeat split. discriminate.
Qed.

(** C7, amended: on a live session, a non-empty [fdpat] that the pattern
    does not match makes [Exec] fail with "invalid fdpat" before any control
    command: between taking and releasing the lock it runs the listing of the
    liveness check and nothing else. *)
Theorem Exec_invalid_fdpat (s : Screen) (fdpat command : string) (args : list string)
        (m : mutex) (E : env) (st st1 : state) (s' : Screen) :
  Mutex s = Some m ->
  fdpat <> "" ->
  fdpat_matches fdpat = false ->
  Get (Name s) E (emit (EvLock m) st) = Returns (s', None) st1 ->
  Exec s fdpat command args E st = Returns (Some errInvalidFdpat) (emit (EvUnlock m) st1)
  /\ history (emit (EvUnlock m) st1)
     = history st ++ [EvLock m; EvRun "screen" ["-ls"; Name s]; EvUnlock m].
Proof.
  intros Hm Hne Hbad HGet. split.
  - unfold Exec. rewrite (locked_online s m E st st1 s' _ Hm HGet).
    apply String.eqb_neq in Hne. by rewrite Hne, Hbad.
  - apply Get_returns in HGet as (Hh & _ & Hok & _).
    destruct (Hok eq_refl) as (_ & Hname & _).
    apply String.eqb_neq in Hname.
    simpl. rewrite Hh, Hname. simpl. by rewrite <- !app_assoc.
Qed.

Lemma Exec_invalid_fdpat_witness :
  exists st1,
    Exec sfoo "bad" "ls" ["-l"] (scripted foo_live succeeds None) initial
    = Returns (Some errInvalidFdpat) (emit (EvUnlock 0) st1)
    /\ history (emit (EvUnlock 0) st1)
       = [EvLock 0; EvRun "screen" ["-ls"; "foo"]; EvUnlock 0].
Proof.
  eexists.
  apply (Exec_invalid_fdpat sfoo "bad" "ls" ["-l"] 0 (scripted foo_live succeeds None)
           initial _ sfoo).
  - reflexivity.
  - discriminate.
  - vm_compute. reflexivity.
  - vm_compute. reflexivity.
Defined.

(** ** The pattern of [Get] for a name *)

Lemma B_app (a b : string) : B (a +:+ b) = B a ++ B b.
Proof. unfold B. induction a as [|c a IH]; simpl; [done|]. by rewrite IH. Qed.

Lemma S_B (s : string) : S_ (B s) = s.
Proof. apply string_of_list_ascii_of_string. Qed.

Lemma B_S (b : bytes) : B (S_ b) = b.
Proof. apply list_ascii_of_string_of_list_ascii. Qed.

Lemma B_inj (a b : string) : B a = B b -> a = b.
Proof. intros H. rewrite <- (S_B a), <- (S_B b). by rewrite H. Qed.

Lemma step_literal (p : Regexp.pstate) (c : ascii) :
  literal_byte c = true ->
  Regexp.stat p = Regexp.Good ->
  Regexp.md p = Regexp.MNormal \/ Regexp.md p = Regexp.MAfterOpen ->
  Regexp.step p c = Regexp.push (Regexp.RChr c) p.
Proof.
  intros Hc Hs Hm. unfold Regexp.step. rewrite Hs.
  assert (Regexp.step_normal p c = Regexp.push (Regexp.RChr c) p
          /\ Ascii.eqb c "?" = false) as [Hn Hq].
  { unfold Regexp.step_normal.
    destruct c as [[] [] [] [] [] [] [] []]; try discriminate Hc; by split. }
  destruct Hm as [-> | ->]; [exact Hn|].
  rewrite Hq.
  unfold Regexp.step_normal, Regexp.set_mode in *. simpl in *.
  destruct c as [[] [] [] [] [] [] [] []]; try discriminate Hc; reflexivity.
Qed.

Lemma step_dot (p : Regexp.pstate) :
  Regexp.stat p = Regexp.Good ->
  Regexp.md p = Regexp.MNormal \/ Regexp.md p = Regexp.MAfterOpen ->
  Regexp.step p "." = Regexp.push Regexp.RAny p.
Proof.
  intros Hs Hm. unfold Regexp.step. rewrite Hs. by destruct Hm as [-> | ->].
Qed.

Lemma step_rune_literal (p : Regexp.pstate) (r : Z) :
  Regexp.stat p = Regexp.Good ->
  Regexp.md p = Regexp.MNormal \/ Regexp.md p = Regexp.MAfterOpen ->
  Regexp.step_rune p r = Regexp.push (Regexp.RRune r) p.
Proof.
  intros Hs Hm. unfold Regexp.step_rune. rewrite Hs. by destruct Hm as [-> | ->].
Qed.

(** *** The parse of an expression *)

Lemma parse_ascii (a rest : bytes) (fuel : nat) (p : Regexp.pstate) :
  forallb is_ascii7 a = true ->
  (length a + length rest <= fuel)%nat ->
  Regexp.parse fuel (a ++ rest) p
  = Regexp.parse (fuel - length a) rest (fold_left Regexp.step a p).
Proof.
  revert fuel p. induction a as [|c a IH]; intros fuel p Ha Hfuel.
  - simpl. by rewrite Nat.sub_0_r.
  - simpl in Ha. apply andb_true_iff in Ha as [Hc Ha].
    destruct fuel as [|fuel]; [simpl in Hfuel; lia|].
    cbn [app Regexp.parse fold_left length Nat.sub]. rewrite Hc.
    apply IH; [done|]. simpl in Hfuel. lia.
Qed.

Lemma parse_nil (fuel : nat) (p : Regexp.pstate) : Regexp.parse fuel [] p = p.
Proof. by destruct fuel. Qed.

(** A character that is encoded whole at the head of a text is decoded the
    same whatever follows it. *)
Lemma decode_app (n rest : bytes) :
  n <> [] -> Utf8.invalid_head n = false ->
  Utf8.DecodeRuneInString (n ++ rest) = Utf8.DecodeRuneInString n
  /\ (snd (Utf8.DecodeRuneInString n) <= length n)%nat.
Proof.
  intros Hne. unfold Utf8.invalid_head, Utf8.DecodeRuneInString, Utf8.byte_at.
  destruct n as [|c0 n]; [done|]. clear Hne.
  cbn [app length nth Nat.ltb Nat.leb].
  set (s0 := Z.of_nat (code c0)).
  destruct (s0 <? 128)%Z; [intros _; split; [done|simpl; lia]|].
  destruct ((s0 <? 194)%Z || (244 <? s0)%Z); [done|].
  destruct (s0 <? 224)%Z.
  { destruct n as [|c1 n]; [done|]. cbn [app length nth Nat.ltb Nat.leb].
    destruct (_ || _); [done|]. intros _. split; [done|simpl; lia]. }
  destruct (s0 <? 240)%Z.
  { destruct n as [|c1 [|c2 n]]; try done. cbn [app length nth Nat.ltb Nat.leb].
    destruct (_ || _); [done|]. destruct (_ || _); [done|].
    intros _. split; [done|simpl; lia]. }
  destruct n as [|c1 [|c2 [|c3 n]]]; try done. cbn [app length nth Nat.ltb Nat.leb].
  destruct (_ || _); [done|]. destruct (_ || _); [done|]. destruct (_ || _); [done|].
  intros _. split; [done|simpl; lia].
Qed.

Lemma decode_width (n : bytes) :
  n <> [] -> (1 <= snd (Utf8.DecodeRuneInString n))%nat.
Proof.
  intros Hne. unfold Utf8.DecodeRuneInString.
  destruct n as [|c0 n]; [done|]. cbn [length Nat.ltb Nat.leb].
  repeat match goal with
         | |- context [if ?b then _ else _] => destruct b
         end; simpl; lia.
Qed.

Lemma pushed_state (atoms : list Regexp.regex) (p : Regexp.pstate) :
  atoms <> [] ->
  pushed atoms p
  = {| Regexp.stat := Regexp.stat p; Regexp.md := Regexp.MNormal;
       Regexp.frames := Regexp.frames p;
       Regexp.cur := rev atoms ++ Regexp.cur p;
       Regexp.ncap := Regexp.ncap p; Regexp.after_repeat := false |}.
Proof.
  revert p. induction atoms as [|a atoms IH]; intros p Hne; [done|].
  unfold pushed. cbn [fold_left]. fold (pushed atoms (Regexp.push a p)).
  destruct atoms as [|a' atoms'].
  - reflexivity.
  - rewrite IH by done. cbn [Regexp.push Regexp.stat Regexp.frames Regexp.cur Regexp.ncap].
    f_equal. cbn [rev]. by rewrite <- !app_assoc.
Qed.

Lemma name_atoms_nil (fuel : nat) (n : bytes) :
  name_atoms fuel n = Some [] -> n = [].
Proof.
  destruct fuel as [|fuel], n as [|c n]; try done; cbn [name_atoms].
  repeat match goal with
         | |- context [if ?b then _ else _] => destruct b
         end; try done;
    by destruct (name_atoms _ _).
Qed.

(** Reading a plain name, the parser adds its pieces and nothing else. *)
Lemma parse_atoms (fn : nat) (n : bytes) (atoms : list Regexp.regex)
      (fuel : nat) (rest : bytes) (p : Regexp.pstate) :
  name_atoms fn n = Some atoms ->
  Regexp.stat p = Regexp.Good ->
  Regexp.md p = Regexp.MNormal \/ Regexp.md p = Regexp.MAfterOpen ->
  (length n + length rest <= fuel)%nat ->
  exists fuel',
    (length rest <= fuel')%nat
    /\ Regexp.parse fuel (n ++ rest) p = Regexp.parse fuel' rest (pushed atoms p).
Proof.
  revert n atoms fuel p.
  induction fn as [|fn IH]; intros n atoms fuel p Hatoms Hs Hm Hfuel.
  - destruct n as [|c n]; [|done]. injection Hatoms as <-.
    exists fuel. split; [simpl in Hfuel; lia|done].
  - destruct n as [|c n].
    { injection Hatoms as <-. exists fuel. split; [simpl in Hfuel; lia|done]. }
    destruct fuel as [|fuel]; [simpl in Hfuel; lia|].
    cbn [name_atoms] in Hatoms. cbn [app Regexp.parse].
    destruct (is_ascii7 c) eqn:Hc.
    + destruct (Ascii.eqb_spec c ".") as [->|Hdot].
      * destruct (name_atoms fn n) as [atoms'|] eqn:Hn; [|done]. injection Hatoms as <-.
        rewrite step_dot by done.
        destruct (IH n atoms' fuel (Regexp.push Regexp.RAny p) Hn) as (fuel' & Hle & ->);
          [done|by left|simpl in Hfuel; lia|].
        by exists fuel'.
      * destruct (literal_byte c) eqn:Hlit; [|done].
        destruct (name_atoms fn n) as [atoms'|] eqn:Hn; [|done]. injection Hatoms as <-.
        rewrite step_literal by done.
        destruct (IH n atoms' fuel (Regexp.push (Regexp.RChr c) p) Hn) as (fuel' & Hle & ->);
          [done|by left|simpl in Hfuel; lia|].
        by exists fuel'.
    + destruct (Utf8.invalid_head (c :: n)) eqn:Hinv; [done|].
      destruct (decode_app (c :: n) rest ltac:(done) Hinv) as [Hdec Hw].
      pose proof (decode_width (c :: n) ltac:(done)) as Hw1.
      change (c :: n ++ rest) with ((c :: n) ++ rest).
      assert (Utf8.invalid_head ((c :: n) ++ rest) = false) as ->.
      { unfold Utf8.invalid_head in *. by rewrite Hdec. }
      rewrite Hdec.
      set (r := fst (Utf8.DecodeRuneInString (c :: n))) in *.
      set (w := snd (Utf8.DecodeRuneInString (c :: n))) in *.
      destruct (name_atoms fn (skipn w (c :: n))) as [atoms'|] eqn:Hn; [|done].
      injection Hatoms as <-.
      rewrite step_rune_literal by done.
      rewrite skipn_app. replace (w - length (c :: n))%nat with 0%nat by lia.
      rewrite drop_0.
      destruct (IH _ atoms' fuel (Regexp.push (Regexp.RRune r) p) Hn) as (fuel' & Hle & ->);
        [done|by left| |].
      * rewrite length_skipn. simpl in *. lia.
      * by exists fuel'.
Qed.

(** The expression of [Get] for a plain name. *)
Lemma Compile_name (name : string) (atoms : list Regexp.regex) :
  name <> "" ->
  name_atoms (length (B name)) (B name) = Some atoms ->
  Regexp.Compile (get_pattern name) = Regexp.Prog (name_regex_of atoms) 2.
Proof.
  intros Hne Hatoms. unfold Regexp.Compile, get_pattern.
  rewrite !B_app.
  rewrite parse_ascii; [|reflexivity|rewrite !length_app; lia].
  set (p0 := fold_left Regexp.step (B "\s(\d+)\.(") Regexp.start).
  assert (p0 = {| Regexp.stat := Regexp.Good; Regexp.md := Regexp.MAfterOpen;
                  Regexp.frames :=
                    [(2, [Regexp.RChr ".";
                          Regexp.RCap 1 (Regexp.RCat (Regexp.RPlus (Regexp.RClass Regexp.CDigit))
                                                     Regexp.REmpty);
                          Regexp.RClass Regexp.CSpace])];
                  Regexp.cur := []; Regexp.ncap := 2; Regexp.after_repeat := false |}) as Hp0
      by (vm_compute; reflexivity).
  destruct (parse_atoms _ (B name) atoms
              (length (B "\s(\d+)\.(" ++ B name ++ B ")\s") - length (B "\s(\d+)\.("))
              (B ")\s") p0 Hatoms) as (fuel' & Hfuel' & ->).
  - by rewrite Hp0.
  - right. by rewrite Hp0.
  - rewrite !length_app. lia.
  - assert (atoms <> []) as Hatoms0.
    { intros ->. apply name_atoms_nil in Hatoms. apply Hne, B_inj. by rewrite Hatoms. }
    rewrite (pushed_state atoms p0 Hatoms0), Hp0.
    rewrite <- (app_nil_r (B ")\s")), parse_ascii, parse_nil;
      [|reflexivity|simpl in *; lia].
    simpl. unfold Regexp.finish. simpl. by rewrite app_nil_r, rev_involutive.
Qed.

Lemma name_atoms_literal (n : bytes) (fuel : nat) :
  forallb literal_byte n = true -> (length n <= fuel)%nat ->
  name_atoms fuel n = Some (map Regexp.RChr n).
Proof.
  revert fuel. induction n as [|c n IH]; intros fuel Hn Hfuel; [by destruct fuel|].
  destruct fuel as [|fuel]; [simpl in Hfuel; lia|].
  simpl in Hn. apply andb_true_iff in Hn as [Hc Hn].
  cbn [name_atoms map]. rewrite Hc.
  assert (is_ascii7 c = true /\ Ascii.eqb c "." = false) as [-> ->].
  { destruct c as [[] [] [] [] [] [] [] []]; try discriminate Hc; by split. }
  rewrite IH; [done|done|simpl in Hfuel; lia].
Qed.

Lemma literal_name_plain (name : string) : literal_name name = true -> plain_name name = true.
Proof.
  intros H. unfold plain_name. by rewrite (name_atoms_literal (B name) _ H).
Qed.

Lemma Compile_literal (name : string) :
  literal_name name = true -> name <> "" ->
  Regexp.Compile (get_pattern name) = Regexp.Prog (name_regex (B name)) 2.
Proof.
  intros Hlit Hne.
  by apply Compile_name, name_atoms_literal.
Qed.

(** *** What that expression matches *)

Lemma digits_split (s : bytes) : s = leading_digits s ++ after_digits s.
Proof. induction s as [|c s IH]; simpl; [done|]. destruct (is_digit c); simpl; congruence. Qed.

Lemma leading_digits_all (s : bytes) : forallb is_digit (leading_digits s) = true.
Proof.
  induction s as [|c s IH]; simpl; [done|].
  destruct (is_digit c) eqn:Hc; simpl; [by rewrite Hc|done].
Qed.

Lemma leading_digits_app (d rest : bytes) :
  forallb is_digit d = true ->
  leading_digits (d ++ rest) = d ++ leading_digits rest
  /\ after_digits (d ++ rest) = after_digits rest.
Proof.
  induction d as [|c d IH]; simpl; [done|].
  intros H. apply andb_true_iff in H as [Hc Hd]. rewrite Hc.
  destruct (IH Hd) as [-> ->]. done.
Qed.

Lemma consumed_app (w rest : bytes) : Regexp.consumed (w ++ rest) rest = w.
Proof.
  unfold Regexp.consumed. rewrite length_app.
  replace (length w + length rest - length rest)%nat with (length w) by lia.
  by rewrite firstn_app, Nat.sub_diag, firstn_all, app_nil_r.
Qed.

Lemma has_prefix_app (p s : bytes) :
  GoStrings.has_prefix p s = true -> s = p ++ skipn (length p) s.
Proof.
  revert s. induction p as [|a p IH]; intros [|b s]; simpl; try done.
  intros H. apply andb_true_iff in H as [Hab Hp].
  apply Ascii.eqb_eq in Hab as ->. f_equal. by apply IH.
Qed.

Lemma has_prefix_refl (p s : bytes) : GoStrings.has_prefix p (p ++ s) = true.
Proof. induction p as [|a p IH]; simpl; [done|]. by rewrite Ascii.eqb_refl. Qed.

Lemma run_literal (n : bytes) (k : Regexp.cont) (s : bytes) (c : Regexp.caps) :
  Regexp.run (Regexp.cat_all (map Regexp.RChr n)) k s c
  = if GoStrings.has_prefix n s then k (skipn (length n) s) c else None.
Proof.
  revert s. induction n as [|a n IH]; intros s; simpl; [done|].
  destruct s as [|b s]; [done|]. simpl.
  destruct (Ascii.eqb a b); simpl; [apply IH|done].
Qed.

(** The greedy loop over digits, when what follows cannot start with a
    digit: it takes all the digits there are. *)
Lemma star_digits (k : Regexp.cont) (fuel : nat) (s : bytes) (c : Regexp.caps) :
  (forall x s' c', is_digit x = true -> k (x :: s') c' = None) ->
  (length s <= fuel)%nat ->
  Regexp.star_loop (Regexp.run (Regexp.RClass Regexp.CDigit)) k fuel s c
  = k (after_digits s) c.
Proof.
  intros Hk. revert s. induction fuel as [|fuel IH]; intros s Hlen.
  - destruct s; [done|simpl in Hlen; lia].
  - destruct s as [|a s]; [done|]. simpl.
    destruct (is_digit a) eqn:Ha; [|done].
    destruct (Nat.ltb_spec (length s) (S (length s))); [|lia].
    rewrite IH; [|simpl in Hlen; lia].
    destruct (k (after_digits s) c) eqn:Hres; [done|].
    by apply Hk.
Qed.

Lemma plus_digits (k : Regexp.cont) (s : bytes) (c : Regexp.caps) :
  (forall x s' c', is_digit x = true -> k (x :: s') c' = None) ->
  Regexp.run (Regexp.RPlus (Regexp.RClass Regexp.CDigit)) k s c
  = match leading_digits s with
    | [] => None
    | _ :: _ => k (after_digits s) c
    end.
Proof.
  intros Hk. destruct s as [|a s]; [done|]. simpl.
  destruct (is_digit a); [|done].
  by apply star_digits.
Qed.

Lemma run_cat (r1 r2 : Regexp.regex) (k : Regexp.cont) (s : bytes) (c : Regexp.caps) :
  Regexp.run (Regexp.RCat r1 r2) k s c = Regexp.run r1 (Regexp.run r2 k) s c.
Proof. reflexivity. Qed.

Lemma run_class (p : Regexp.cclass) (k : Regexp.cont) (a : ascii) (s : bytes) (c : Regexp.caps) :
  Regexp.run (Regexp.RClass p) k (a :: s) c
  = if Regexp.in_class p a then k s c else None.
Proof. reflexivity. Qed.

Lemma run_cap (i : nat) (r : Regexp.regex) (k : Regexp.cont) (s : bytes) (c : Regexp.caps) :
  Regexp.run (Regexp.RCap i r) k s c
  = Regexp.run r (fun s' c' => k s' ((i, Regexp.consumed s s') :: c')) s c.
Proof. reflexivity. Qed.

Lemma run_empty (k : Regexp.cont) (s : bytes) (c : Regexp.caps) :
  Regexp.run Regexp.REmpty k s c = k s c.
Proof. reflexivity. Qed.

Lemma digit_is_not_dot (x : ascii) : is_digit x = true -> Ascii.eqb "." x = false.
Proof. destruct x as [[] [] [] [] [] [] [] []]; intros H; try discriminate H; done. Qed.

(** The matcher on [name_regex n] is [match_here n], with the digits and the
    name as groups 1 and 2. *)
Lemma run_name_regex (n s : bytes) :
  Regexp.run (name_regex n) Regexp.accept s []
  = match match_here n s with
    | Some (d, rest) => Some (rest, [(2, n); (1, d)])
    | None => None
    end.
Proof.
  unfold name_regex, match_here.
  destruct s as [|w s1]; [done|].
  rewrite run_cat, run_class. unfold Regexp.in_class at 1.
  destruct (is_re_space w); [|done].
  rewrite run_cat, run_cap, run_cat, plus_digits.
  2:{ intros x s' c' Hx. rewrite run_empty, run_cat. unfold Regexp.RChr.
      rewrite run_class. unfold Regexp.in_class. by rewrite (digit_is_not_dot x Hx). }
  destruct (leading_digits s1) as [|d0 ds] eqn:Hd; [done|].
  pose proof (digits_split s1) as Hsplit. rewrite Hd in Hsplit.
  destruct (after_digits s1) as [|dot s3] eqn:Ha; [done|].
  rewrite run_empty, run_cat. unfold Regexp.RChr at 1.
  rewrite run_class. unfold Regexp.in_class at 1.
  destruct (Ascii.eqb "." dot) eqn:Hdot; [|done]. simpl andb.
  rewrite run_cat, run_cap, run_literal.
  destruct (GoStrings.has_prefix n s3) eqn:Hp; [|done].
  destruct (skipn (length n) s3) as [|w2 s4] eqn:Hs4; [done|].
  rewrite run_cat, run_class. unfold Regexp.in_class at 1.
  destruct (is_re_space w2); [|done].
  rewrite run_empty. unfold Regexp.accept.
  apply has_prefix_app in Hp. rewrite Hs4 in Hp.
  assert (Regexp.consumed s3 (w2 :: s4) = n) as ->.
  { rewrite Hp at 1. apply consumed_app. }
  assert (Regexp.consumed s1 (dot :: s3) = d0 :: ds) as ->.
  { rewrite Hsplit at 1. apply consumed_app. }
  done.
Qed.

Lemma match_here_inv (n s d rest : bytes) :
  match_here n s = Some (d, rest) ->
  exists w w2,
    s = w :: d ++ "."%char :: n ++ w2 :: rest
    /\ is_re_space w = true /\ is_re_space w2 = true
    /\ d <> [] /\ forallb is_digit d = true.
Proof.
  unfold match_here. destruct s as [|w s1]; [done|].
  destruct (is_re_space w) eqn:Hw; [|done].
  pose proof (digits_split s1) as Hsplit.
  pose proof (leading_digits_all s1) as Hall.
  destruct (leading_digits s1) as [|d0 ds] eqn:Hd; [done|].
  destruct (after_digits s1) as [|dot s3] eqn:Ha; [done|].
  destruct (Ascii.eqb "." dot) eqn:Hdot; [|done]. simpl andb.
  destruct (GoStrings.has_prefix n s3) eqn:Hp; [|done].
  destruct (skipn (length n) s3) as [|w2 s4] eqn:Hs4; [done|].
  destruct (is_re_space w2) eqn:Hw2; [|done].
  intros [= <- <-]. exists w, w2.
  apply has_prefix_app in Hp. rewrite Hs4 in Hp.
  apply Ascii.eqb_eq in Hdot as <-.
  repeat split; try done. by rewrite Hsplit, Hp.
Qed.

Lemma match_here_intro (n d rest : bytes) (w w2 : ascii) :
  is_re_space w = true -> is_re_space w2 = true ->
  d <> [] -> forallb is_digit d = true ->
  match_here n (w :: d ++ "."%char :: n ++ w2 :: rest) = Some (d, rest).
Proof.
  intros Hw Hw2 Hd Hall. unfold match_here. rewrite Hw.
  destruct (leading_digits_app d ("."%char :: n ++ w2 :: rest) Hall) as [-> ->].
  simpl. rewrite app_nil_r.
  destruct d as [|d0 ds]; [done|].
  rewrite has_prefix_refl. simpl.
  rewrite skipn_app, Nat.sub_diag, skipn_all. simpl. by rewrite Hw2.
Qed.

(** *** Searching a text *)

Lemma search_unfold (r : Regexp.regex) (s : bytes) (pos : nat) :
  Regexp.search r s pos
  = match Regexp.run r Regexp.accept s [] with
    | Some (s', c) => Some (pos, (pos + (length s - length s'))%nat, c)
    | None =>
        match s with
        | [] => None
        | _ :: t => Regexp.search r t (S pos)
        end
    end.
Proof. destruct s; reflexivity. Qed.

Lemma search_name_some (n s : bytes) (pos k : nat) :
  match_here n (skipn k s) <> None ->
  exists b e d,
    Regexp.search (name_regex n) s pos = Some (b, e, [(2, n); (1, d)])
    /\ (pos < e)%nat.
Proof.
  revert pos k. induction s as [|a s IH]; intros pos k H.
  - by rewrite skipn_nil in H.
  - rewrite search_unfold, run_name_regex.
    destruct (match_here n (a :: s)) as [[d rest]|] eqn:Hm.
    + exists pos, (pos + (length (a :: s) - length rest))%nat, d. split; [done|].
      apply match_here_inv in Hm as (w & w2 & Hs & _).
      rewrite Hs. simpl. rewrite !length_app. simpl. rewrite length_app. simpl. lia.
    + destruct k as [|k]; [done|].
      destruct (IH (S pos) k H) as (b & e & d & Hs & Hlt).
      exists b, e, d. split; [done|lia].
Qed.

Lemma FindAll_name_some (n : bytes) (out : string) (k : nat) :
  match_here n (skipn k (B out)) <> None ->
  exists whole d rest,
    Regexp.FindAllStringSubmatch (name_regex n) 2 out = [whole; S_ d; S_ n] :: rest.
Proof.
  intros H. unfold Regexp.FindAllStringSubmatch.
  replace (length (B out) + 2)%nat with (S (length (B out) + 1)) by lia.
  cbn [Regexp.all_matches]. rewrite drop_0.
  destruct (search_name_some n (B out) 0 k H) as (b & e & d & -> & Hlt).
  destruct (Nat.eqb_spec e 0); [lia|]. simpl.
  by eexists _, d, _.
Qed.

(** [Get] for a literal name that the text shows. *)
Lemma Get_literal_found (name : string) (k : nat) (E : env) (st : state) :
  literal_name name = true -> name <> "" ->
  GoStrings.Contains (combined (run_cmd E (history st) "screen" ["-ls"; name])) no_sockets
  = false ->
  match_here (B name)
    (skipn k (B (combined (run_cmd E (history st) "screen" ["-ls"; name])))) <> None ->
  exists s st', Get name E st = Returns (s, None) st' /\ Name s = name.
Proof.
  intros Hlit Hne Hsock H. unfold Get.
  apply String.eqb_neq in Hne as Hne'. rewrite Hne'.
  unfold bind at 1. unfold CombinedOutput. rewrite Hsock.
  unfold bind at 1. unfold FindAll. rewrite (Compile_literal name Hlit Hne).
  destruct (FindAll_name_some _ _ k H) as (whole & d & rest & ->).
  simpl. rewrite S_B, String.eqb_refl. simpl. rewrite Hne'.
  register_step name E (emit (EvRun "screen" ["-ls"; name]) st). by eexists _, _.
Qed.

(** *** Where the expression for a plain name matches *)

Lemma name_atoms_single (fn : nat) (n : bytes) (atoms : list Regexp.regex) :
  name_atoms fn n = Some atoms -> forallb single atoms = true.
Proof.
  revert n atoms. induction fn as [|fn IH]; intros n atoms.
  - destruct n; [by intros [= <-]|done].
  - destruct n as [|c n]; [by intros [= <-]|]. cbn [name_atoms].
    repeat match goal with
           | |- context [if ?b then _ else _] => destruct b
           end; try done;
      (destruct (name_atoms fn _) as [atoms'|] eqn:Hn; [|done]);
      intros [= <-]; simpl; by apply (IH _ _ Hn).
Qed.

(** A piece that matches takes a prefix of the text and goes on with the
    rest, the groups as they were. *)
Lemma run_single (a : Regexp.regex) (k : Regexp.cont) (s : bytes) (c : Regexp.caps)
      (x : Regexp.mres) :
  single a = true -> Regexp.run a k s c = Some x ->
  exists w s', s = w ++ s' /\ k s' c = Some x.
Proof.
  destruct a; try done; intros _; cbn [Regexp.run]; destruct s as [|b s]; try done.
  - destruct (Regexp.in_class _ _); [|done]. intros H. by exists [b], s.
  - destruct (Utf8.DecodeRuneInString (b :: s)) as [r w].
    destruct (r =? 10)%Z; [done|]. intros H.
    exists (firstn w (b :: s)), (skipn w (b :: s)). by rewrite firstn_skipn.
  - destruct (Utf8.DecodeRuneInString (b :: s)) as [r' w].
    destruct (r' =? r)%Z; [|done]. intros H.
    exists (firstn w (b :: s)), (skipn w (b :: s)). by rewrite firstn_skipn.
Qed.

Lemma run_singles (atoms : list Regexp.regex) (k : Regexp.cont) (s : bytes)
      (c : Regexp.caps) (x : Regexp.mres) :
  forallb single atoms = true ->
  Regexp.run (Regexp.cat_all atoms) k s c = Some x ->
  exists w s', s = w ++ s' /\ k s' c = Some x.
Proof.
  revert s. induction atoms as [|a atoms IH]; intros s Hatoms.
  - intros H. by exists [], s.
  - simpl in Hatoms. apply andb_true_iff in Hatoms as [Ha Hatoms].
    cbn [Regexp.cat_all fold_right]. fold (Regexp.cat_all atoms). rewrite run_cat.
    intros H. apply run_single in H as (w1 & s1 & -> & H); [|done].
    apply IH in H as (w2 & s' & -> & H); [|done].
    exists (w1 ++ w2), s'. by rewrite <- app_assoc.
Qed.

(** Where the expression of [Get] matches, the text reads: a white-space
    byte, digits, a dot, what the pieces of the name took, a white-space
    byte; the groups are the digits and what the pieces took. *)
Lemma run_name_shape (atoms : list Regexp.regex) (s rest : bytes) (c : Regexp.caps) :
  forallb single atoms = true ->
  Regexp.run (name_regex_of atoms) Regexp.accept s [] = Some (rest, c) ->
  exists ws d w ws2,
    s = ws :: d ++ "."%char :: w ++ ws2 :: rest
    /\ is_re_space ws = true /\ is_re_space ws2 = true
    /\ d <> [] /\ forallb is_digit d = true
    /\ c = [(2%nat, w); (1%nat, d)].
Proof.
  intros Hatoms. unfold name_regex_of.
  destruct s as [|ws s1]; [done|].
  rewrite run_cat, run_class. unfold Regexp.in_class at 1.
  destruct (is_re_space ws) eqn:Hws; [|done].
  rewrite run_cat, run_cap, run_cat, plus_digits.
  2:{ intros x s' c' Hx. rewrite run_empty, run_cat. unfold Regexp.RChr.
      rewrite run_class. unfold Regexp.in_class. by rewrite (digit_is_not_dot x Hx). }
  pose proof (digits_split s1) as Hsplit.
  pose proof (leading_digits_all s1) as Hall.
  destruct (leading_digits s1) as [|d0 ds] eqn:Hd; [done|].
  destruct (after_digits s1) as [|dot s3] eqn:Ha; [done|].
  rewrite run_empty, run_cat. unfold Regexp.RChr at 1.
  rewrite run_class. unfold Regexp.in_class at 1.
  destruct (Ascii.eqb_spec "." dot) as [<-|]; [|done].
  rewrite run_cat, run_cap. intros H.
  apply run_singles in H as (w & s' & Hs3 & H); [|done].
  rewrite run_cat in H. destruct s' as [|ws2 s4]; [done|].
  rewrite run_class in H. unfold Regexp.in_class in H.
  destruct (is_re_space ws2) eqn:Hws2; [|done].
  rewrite run_empty in H. unfold Regexp.accept in H. injection H as <- <-.
  exists ws, (d0 :: ds), w, ws2.
  split; [by rewrite Hsplit, Hs3|]. repeat (split; [done|]).
  rewrite Hs3 at 1. rewrite consumed_app.
  rewrite Hsplit at 1. by rewrite consumed_app.
Qed.

Lemma search_run (r : Regexp.regex) (s : bytes) (pos b e : nat) (c : Regexp.caps) :
  Regexp.search r s pos = Some (b, e, c) ->
  exists k s', Regexp.run r Regexp.accept (skipn k s) [] = Some (s', c).
Proof.
  revert pos. induction s as [|a s IH]; intros pos; rewrite search_unfold.
  - destruct (Regexp.run r Regexp.accept [] []) as [[s' c']|] eqn:Hr; [|done].
    intros [= <- <- <-]. by exists 0%nat, s'.
  - destruct (Regexp.run r Regexp.accept (a :: s) []) as [[s' c']|] eqn:Hr.
    + intros [= <- <- <-]. by exists 0%nat, s'.
    + intros H. destruct (IH _ H) as (k & s' & Hk). by exists (S k), s'.
Qed.

(** Each element of what [FindAllStringSubmatch] returns comes from a match
    somewhere in the text. *)
Lemma all_matches_in (fuel : nat) (r : Regexp.regex) (groups : nat) (text : bytes)
      (pos : nat) (prev : option nat) (m : list string) :
  In m (Regexp.all_matches fuel r groups text pos prev) ->
  exists p b e c,
    Regexp.search r (skipn p text) p = Some (b, e, c)
    /\ m = Regexp.submatch groups text b e c.
Proof.
  revert pos prev. induction fuel as [|fuel IH]; intros pos prev; [done|].
  cbn [Regexp.all_matches].
  destruct (pos <=? length text)%nat; [|done].
  destruct (Regexp.search r (skipn pos text) pos) as [[[b e] c]|] eqn:Hs; [|done].
  destruct (_ && _).
  - apply IH.
  - intros [<-|Hin]; [by exists pos, b, e, c|]. by apply IH in Hin.
Qed.

Lemma FindAll_name_shape (atoms : list Regexp.regex) (out : string) (m : list string) :
  forallb single atoms = true ->
  In m (Regexp.FindAllStringSubmatch (name_regex_of atoms) 2 out) ->
  exists whole d w k ws ws2 rest,
    m = [whole; S_ d; S_ w]
    /\ skipn k (B out) = ws :: d ++ "."%char :: w ++ ws2 :: rest
    /\ is_re_space ws = true /\ is_re_space ws2 = true
    /\ d <> [] /\ forallb is_digit d = true.
Proof.
  intros Hatoms Hin. unfold Regexp.FindAllStringSubmatch in Hin.
  apply all_matches_in in Hin as (p & b & e & c & Hsearch & ->).
  apply search_run in Hsearch as (k & s' & Hrun).
  apply run_name_shape in Hrun as (ws & d & w & ws2 & Hs & Hws & Hws2 & Hd0 & Hd & ->);
    [|done].
  rewrite drop_drop in Hs.
  by eexists _, d, w, (p + k)%nat, ws, ws2, s'.
Qed.

Lemma first_named_skips (name : string) (matches : list (list string)) (s : Screen) :
  (forall m, In m matches -> exists whole d w, m = [whole; d; w] /\ w <> name) ->
  first_named name matches s = Some s.
Proof.
  induction matches as [|m rest IH]; intros H; [done|].
  destruct (H m) as (whole & d & w & -> & Hw); [by left|].
  cbn [first_named lookup list_lookup]. apply String.eqb_neq in Hw. rewrite Hw. cbn [negb].
  apply IH. intros m' Hm'. apply H. by right.
Qed.

Lemma shows_here (n text : bytes) (k : nat) :
  match_here n (skipn k text) <> None -> shows n text = true.
Proof.
  intros H. unfold shows. apply existsb_exists. exists k. split.
  - apply in_seq. split; [lia|].
    destruct (Nat.le_gt_cases k (length text)); [lia|].
    rewrite skipn_all2 in H by lia. done.
  - by destruct (match_here n (skipn k text)).
Qed.

(** [Get] for a plain name the text does not show. *)
Lemma Get_not_shown (name : string) (E : env) (st : state) :
  name <> "" -> plain_name name = true ->
  shows (B name) (B (combined (run_cmd E (history st) "screen" ["-ls"; name]))) = false ->
  Get name E st
  = Returns (zero_Screen, Some ErrNotExist) (emit (EvRun "screen" ["-ls"; name]) st).
Proof.
  intros Hne Hplain Hshows. unfold plain_name in Hplain.
  destruct (name_atoms (length (B name)) (B name)) as [atoms|] eqn:Hatoms; [|done].
  pose proof (name_atoms_single _ _ _ Hatoms) as Hsingle.
  unfold Get. apply String.eqb_neq in Hne as Hne'. rewrite Hne'.
  unfold bind, CombinedOutput.
  destruct (GoStrings.Contains _ _); [done|].
  unfold FindAll. rewrite (Compile_name name atoms Hne Hatoms).
  rewrite first_named_skips; [done|].
  intros m Hm.
  apply FindAll_name_shape in Hm as (whole & d & w & k & ws & ws2 & rest & -> & Hs & Hws
                                     & Hws2 & Hd0 & Hd); [|done].
  exists whole, (S_ d), (S_ w). split; [done|]. intros Hw.
  assert (w = B name) as -> by (by rewrite <- Hw, B_S).
  assert (shows (B name)
            (B (combined (run_cmd E (history st) "screen" ["-ls"; name]))) = true) as Hyes.
  { apply (shows_here _ _ k). rewrite Hs. by rewrite match_here_intro. }
  congruence.
Qed.

(** *** The fields of a listing *)

Lemma tokens_from_word (w cur rest : bytes) :
  spaceless w = true ->
  tokens_from cur (w ++ rest) = tokens_from (rev w ++ cur) rest.
Proof.
  revert cur. induction w as [|c w IH]; intros cur Hw; simpl; [done|].
  simpl in Hw. apply andb_true_iff in Hw as [Hc Hw].
  apply negb_true_iff in Hc. rewrite Hc.
  rewrite IH by done. by rewrite <- app_assoc.
Qed.

Lemma tokens_from_space (c : ascii) (cur rest : bytes) :
  is_re_space c = true ->
  tokens_from cur (c :: rest) = flush cur ++ tokens_from [] rest.
Proof. intros Hc. simpl. rewrite Hc. by destruct cur. Qed.

(** A white-space byte ends the field before it. *)
Lemma tokens_from_split (a b cur : bytes) (c : ascii) :
  is_re_space c = true ->
  tokens_from cur (a ++ c :: b) = tokens_from cur a ++ tokens_from [] b.
Proof.
  intros Hc. revert cur. induction a as [|x a IH]; intros cur.
  - simpl app. by rewrite tokens_from_space.
  - simpl. destruct (is_re_space x); [|apply IH].
    destruct cur; rewrite IH; done.
Qed.

Lemma tokens_word (w : bytes) : spaceless w = true -> w <> [] -> tokens w = [w].
Proof.
  intros Hw Hne. unfold tokens.
  rewrite <- (app_nil_r w) at 1. rewrite tokens_from_word by done.
  rewrite app_nil_r. simpl.
  destruct (rev w) eqn:Hr.
  - apply (f_equal (@rev ascii)) in Hr. rewrite rev_involutive in Hr. done.
  - by rewrite <- Hr, rev_involutive.
Qed.

(** A word between two white-space bytes is a field of the text. *)
Lemma token_between (pre t post cur : bytes) (w1 w2 : ascii) :
  is_re_space w1 = true -> is_re_space w2 = true ->
  spaceless t = true -> t <> [] ->
  In t (tokens_from cur (pre ++ w1 :: t ++ w2 :: post)).
Proof.
  intros H1 H2 Ht Hne.
  rewrite (tokens_from_split pre _ cur w1 H1).
  rewrite (tokens_from_split t post [] w2 H2).
  fold (tokens t). rewrite (tokens_word t Ht Hne).
  apply in_or_app. right. by left.
Qed.

Lemma digits_spaceless (d : bytes) : forallb is_digit d = true -> spaceless d = true.
Proof.
  induction d as [|c d IH]; simpl; [done|].
  intros H. apply andb_true_iff in H as [Hc Hd]. rewrite (IH Hd), andb_true_r.
  destruct c as [[] [] [] [] [] [] [] []]; try discriminate Hc; done.
Qed.

Lemma spaceless_app (a b : bytes) :
  spaceless (a ++ b) = spaceless a && spaceless b.
Proof. apply forallb_app. Qed.

Lemma session_token_intro (n d : bytes) :
  d <> [] -> forallb is_digit d = true ->
  session_token n (d ++ "."%char :: n) = true.
Proof.
  intros Hne Hd. unfold session_token.
  destruct (leading_digits_app d ("."%char :: n) Hd) as [-> ->]. simpl.
  rewrite app_nil_r. destruct d; [done|]. by rewrite bool_decide_eq_true_2.
Qed.

(** Where [Get]'s expression matches, the text has a field [<digits>.<n>]. *)
Lemma match_gives_session_token (n text : bytes) (k : nat) :
  spaceless n = true ->
  match_here n (skipn k text) <> None ->
  existsb (session_token n) (tokens text) = true.
Proof.
  intros Hn H.
  destruct (match_here n (skipn k text)) as [[d rest]|] eqn:Hm; [|done].
  apply match_here_inv in Hm as (w & w2 & Hs & Hw & Hw2 & Hne & Hd).
  apply existsb_exists. exists (d ++ "."%char :: n).
  split; [|by apply session_token_intro].
  rewrite <- (firstn_skipn k text), Hs.
  change (w :: d ++ "."%char :: n ++ w2 :: rest)
    with (w :: (d ++ "."%char :: n ++ w2 :: rest)).
  replace (d ++ "."%char :: n ++ w2 :: rest) with ((d ++ "."%char :: n) ++ w2 :: rest)
    by (by rewrite <- app_assoc).
  apply token_between; try done.
  - rewrite spaceless_app, (digits_spaceless d Hd). simpl. by rewrite Hn.
  - by destruct d.
Qed.

(** *** The fields of what [screen -ls] prints *)

Lemma uint_digits (d : Decimal.uint) :
  forallb is_digit (B (NilEmpty.string_of_uint d)) = true.
Proof. induction d; simpl; try done. Qed.

Lemma Itoa_digits (k : nat) :
  forallb is_digit (B (GoStrings.Itoa (Z.of_nat k))) = true
  /\ B (GoStrings.Itoa (Z.of_nat k)) <> [].
Proof.
  unfold GoStrings.Itoa. destruct (Z.of_nat k) as [|p|p] eqn:Hk; try lia; simpl.
  - done.
  - unfold NilZero.string_of_uint.
    destruct (Pos.to_uint p) as [|u|u|u|u|u|u|u|u|u|u] eqn:Hp; [done|..];
      (split; [|done]);
      match goal with
      | |- forallb is_digit (B (NilEmpty.string_of_uint ?d)) = true => apply (uint_digits d)
      end.
Qed.

Lemma row_line_bytes (r : row) :
  B (row_line r) = tab_byte :: B (row_token r) ++ tab_byte :: B (row_state r) ++ [nl_byte].
Proof.
  unfold row_line. fold (row_state r). rewrite !B_app.
  change (B tab) with [tab_byte]. change (B nl) with [nl_byte].
  reflexivity.
Qed.

Lemma B_concat_row_lines (rows : list row) :
  B (concat_str (map row_line rows))
  = flat_map (fun r => tab_byte :: B (row_token r) ++ tab_byte :: B (row_state r)
                         ++ [nl_byte]) rows.
Proof.
  induction rows as [|r rows IH]; [done|].
  cbn [map concat_str fold_right flat_map].
  fold (concat_str (map row_line rows)).
  by rewrite B_app, IH, row_line_bytes.
Qed.

Lemma row_token_bytes (r : row) :
  B (row_token r) = B (GoStrings.Itoa (Z.of_nat (row_pid r))) ++ "."%char :: B (row_name r).
Proof. unfold row_token. by rewrite !B_app. Qed.

Lemma row_token_word (r : row) :
  spaceless (B (row_name r)) = true ->
  spaceless (B (row_token r)) = true /\ B (row_token r) <> [].
Proof.
  intros Hn. rewrite row_token_bytes. split.
  - rewrite spaceless_app, digits_spaceless by apply Itoa_digits.
    simpl. by rewrite Hn.
  - by destruct (B (GoStrings.Itoa _)).
Qed.

(** The fields of the session lines: the token and the state of each row. *)
Lemma tokens_row_lines (rows : list row) (rest : bytes) :
  Forall (fun r => spaceless (B (row_name r)) = true) rows ->
  tokens (B (concat_str (map row_line rows)) ++ rest)
  = flat_map (fun r => [B (row_token r); B (row_state r)]) rows ++ tokens rest.
Proof.
  rewrite B_concat_row_lines.
  induction 1 as [|r rows Hr Hrows IH]; [done|].
  destruct (row_token_word r Hr) as [Hw Hne].
  cbn [flat_map]. unfold tokens in *.
  rewrite <- !app_assoc. rewrite <- app_comm_cons.
  rewrite tokens_from_space by done. cbn [flush app].
  rewrite <- !app_assoc. rewrite <- app_comm_cons.
  rewrite tokens_from_split by done.
  fold (tokens (B (row_token r))). rewrite (tokens_word _ Hw Hne).
  rewrite <- !app_assoc. cbn [app].
  rewrite tokens_from_split by done.
  rewrite IH. cbn [app]. f_equal. f_equal.
  unfold row_state. by destruct (row_attached r).
Qed.

Lemma after_digits_all (d : bytes) : forallb is_digit d = true -> after_digits d = [].
Proof.
  intros H. destruct (leading_digits_app d [] H) as [_ Ha].
  by rewrite app_nil_r in Ha.
Qed.

Lemma session_token_digits (n d : bytes) :
  forallb is_digit d = true -> session_token n d = false.
Proof.
  intros H. unfold session_token. rewrite (after_digits_all d H).
  by destruct (leading_digits d).
Qed.

Lemma session_token_row (n : string) (r : row) :
  row_name r <> n -> session_token (B n) (B (row_token r)) = false.
Proof.
  intros Hne. unfold session_token. rewrite row_token_bytes.
  destruct (leading_digits_app (B (GoStrings.Itoa (Z.of_nat (row_pid r))))
              ("."%char :: B (row_name r))) as [-> ->]; [apply Itoa_digits|].
  simpl. destruct (_ ++ []); [done|].
  rewrite bool_decide_eq_false_2; [done|].
  intros H. by apply B_inj in H.
Qed.

Lemma tokens_heading (n : bytes) (count : nat) :
  existsb (session_token n) (tokens (B (heading count))) = false.
Proof. destruct count as [|[|count]]; reflexivity. Qed.

Lemma tokens_footing (n : bytes) (count : nat) :
  existsb (session_token n) (tokens (B (footing count))) = false.
Proof.
  unfold footing. rewrite B_app.
  assert (forall tail : bytes,
             existsb (session_token n) (tokens tail) = false ->
             existsb (session_token n)
               (tokens (B (GoStrings.Itoa (Z.of_nat count)) ++ " "%char :: tail)) = false)
    as Hcount.
  { intros tail Htail. unfold tokens. rewrite tokens_from_split by done.
    rewrite existsb_app. fold (tokens tail). rewrite Htail, orb_false_r.
    fold (tokens (B (GoStrings.Itoa (Z.of_nat count)))).
    destruct (Itoa_digits count) as [Hd Hne].
    rewrite (tokens_word _ (digits_spaceless _ Hd) Hne). simpl.
    by rewrite (session_token_digits n _ Hd). }
  destruct count as [|[|count]]; apply Hcount; reflexivity.
Qed.

(** No field of a listing reads [<digits>.<n>] when the names of its
    sessions are free of white space and none of them is [n]. *)
Lemma screen_ls_no_session_token (n : string) (rows : list row) :
  Forall (fun r => spaceless (B (row_name r)) = true /\ row_name r <> n) rows ->
  existsb (session_token (B n)) (tokens (B (screen_ls rows))) = false.
Proof.
  intros Hrows. unfold screen_ls.
  destruct rows as [|r0 rows0] eqn:Hrs; [reflexivity|]. rewrite <- Hrs in *.
  clear Hrs r0 rows0.
  rewrite !B_app.
  change (B nl) with [nl_byte]. cbn [app].
  unfold tokens at 1. rewrite tokens_from_split by done.
  fold (tokens (B (heading (length rows)))). rewrite existsb_app, tokens_heading.
  cbn [orb]. fold (tokens (B (concat_str (map row_line rows)) ++
                             B (footing (length rows)) ++ [nl_byte])).
  rewrite tokens_row_lines.
  2:{ eapply Forall_impl; [exact Hrows|]. by intros r [? _]. }
  rewrite existsb_app.
  unfold tokens at 1. rewrite tokens_from_split by done.
  fold (tokens (B (footing (length rows)))). cbn [tokens_from].
  rewrite app_nil_r, tokens_footing, orb_false_r.
  induction Hrows as [|r rows [_ Hr] _ IH]; simpl; [done|].
  rewrite (session_token_row n r Hr). simpl.
  rewrite IH, orb_false_r. unfold row_state. by destruct (row_attached r).
Qed.

(** ** Partial names *)

(** C2 as stated fails: the session "foo bar" is listed and no session is
    named "foo", yet [Get("foo")] returns a session: the white space inside
    the longer name ends the match. *)
Lemma Get_partial_name_with_space :
  let rows := [detached 123 ("foo" +:+ " bar")] in
  let E := scripted (screen_ls rows) succeeds None in
  Forall (fun r => row_name r <> "foo") rows
  /\ Get "foo" E initial
     = Returns ({| Name := "foo"; Mutex := Some 0; Process := Some 123%Z |}, None)
               {| history := [EvRun "screen" ["-ls"; "foo"]];
                  mutexes := {["foo" := 0]}; fresh := 1 |}.
Proof.
  split; [repeat constructor; discriminate|]. vm_compute. reflexivity.
Qed.

(** The same happens when the white space is in the directory of the
    sockets: its name, printed on the last line, shows a session "foo". *)
Example Get_name_in_directory_text :
  let out := "There is a screen on:" +:+ nl +:+ tab +:+ "123.foobar" +:+ tab
               +:+ "(Detached)" +:+ nl +:+ "1 Socket in /tmp/my 7.foo dir/S-root." +:+ nl in
  shows (B "foo") (B out) = true
  /\ Get "foo" (scripted out succeeds None) initial
     = Returns ({| Name := "foo"; Mutex := Some 0; Process := Some 7%Z |}, None)
               {| history := [EvRun "screen" ["-ls"; "foo"]];
                  mutexes := {["foo" := 0]}; fresh := 1 |}.
Proof. vm_compute. split; reflexivity. Qed.

(** A listing of sessions whose names have no white space and differ from
    [n] does not show the session [n]. *)
Lemma screen_ls_shows_none (n : string) (rows : list row) :
  spaceless (B n) = true ->
  Forall (fun r => spaceless (B (row_name r)) = true /\ row_name r <> n) rows ->
  shows (B n) (B (screen_ls rows)) = false.
Proof.
  intros Hsp Hrows. unfold shows.
  destruct (existsb _ _) eqn:Hex; [|done].
  apply existsb_exists in Hex as (k & _ & Hk).
  assert (existsb (session_token (B n)) (tokens (B (screen_ls rows))) = true) as Htok.
  { apply (match_gives_session_token _ _ k Hsp).
    by destruct (match_here (B n) (skipn k (B (screen_ls rows)))). }
  by rewrite (screen_ls_no_session_token n rows Hrows) in Htok.
Qed.

(** C2, amended: let [n] be a non-empty name of characters that are no
    syntax of expressions but for dots, and let the output of the listing
    show the session [n ++ x], [x] not empty, and not the session [n]: nowhere
    does it read white space, digits, a dot, [n], white space.  Then [Get(n)]
    runs the listing and returns [os.ErrNotExist].  What the output shows is
    a matter of its whole text, the names of the sessions and that of the
    directory alike. *)
Theorem Get_rejects_partial_name (n x : string) (E : env) (st : state) :
  n <> "" -> plain_name n = true -> x <> "" ->
  shows (B (n +:+ x)) (B (combined (run_cmd E (history st) "screen" ["-ls"; n]))) = true ->
  shows (B n) (B (combined (run_cmd E (history st) "screen" ["-ls"; n]))) = false ->
  Get n E st
  = Returns (zero_Screen, Some ErrNotExist) (emit (EvRun "screen" ["-ls"; n]) st).
Proof.
  intros Hne Hplain _ _ Hshows. by apply Get_not_shown.
Qed.

Lemma Get_rejects_partial_name_witness :
  let out := "There are screens on:" +:+ nl
               +:+ tab +:+ "4321.pts-0.host1" +:+ tab +:+ "(Detached)" +:+ nl
               +:+ tab +:+ "123.foobar" +:+ tab +:+ "(Attached)" +:+ nl
               +:+ "2 Sockets in /run/screen/S-alice." +:+ nl in
  Get "pts-0.host" (scripted out succeeds None) initial
  = Returns (zero_Screen, Some ErrNotExist)
            (emit (EvRun "screen" ["-ls"; "pts-0.host"]) initial)
  /\ Get "foo" (scripted out succeeds None) initial
     = Returns (zero_Screen, Some ErrNotExist) (emit (EvRun "screen" ["-ls"; "foo"]) initial).
Proof.
  intros out. split.
  - apply (Get_rejects_partial_name "pts-0.host" "1" (scripted out succeeds None) initial).
    + discriminate.
    + vm_compute. reflexivity.
    + discriminate.
    + vm_compute. reflexivity.
    + vm_compute. reflexivity.
  - apply (Get_rejects_partial_name "foo" "bar" (scripted out succeeds None) initial).
    + discriminate.
    + vm_compute. reflexivity.
    + discriminate.
    + vm_compute. reflexivity.
    + vm_compute. reflexivity.
Defined.

(** ** Creating a session that exists *)

Lemma listed_row_matches (n : string) (r : row) (rows : list row) :
  In r rows -> row_name r = n ->
  exists k, match_here (B n) (skipn k (B (screen_ls rows))) <> None.
Proof.
  intros Hin Hname.
  destruct (in_split _ _ Hin) as (l1 & l2 & Hrows).
  unfold screen_ls. destruct rows as [|r0 rows0] eqn:Hrs; [done|].
  rewrite <- Hrs in *. clear Hrs r0 rows0.
  generalize (heading (length rows)) (footing (length rows)). intros h f.
  rewrite !B_app, B_concat_row_lines, Hrows.
  rewrite flat_map_app. cbn [flat_map].
  set (pre := flat_map _ l1). set (post := flat_map _ l2).
  exists (length (B h ++ B nl ++ pre)).
  replace (B h ++ B nl
             ++ (pre ++ (tab_byte :: B (row_token r) ++ tab_byte :: B (row_state r)
                           ++ [nl_byte]) ++ post)
             ++ B f ++ B nl)
    with ((B h ++ B nl ++ pre)
            ++ tab_byte :: B (row_token r)
            ++ tab_byte :: (B (row_state r) ++ [nl_byte]) ++ post
            ++ B f ++ B nl).
  2:{ repeat first [rewrite <- app_assoc | progress cbn [app]]. reflexivity. }
  rewrite skipn_app, Nat.sub_diag, skipn_all. cbn [skipn app].
  rewrite row_token_bytes, Hname, <- app_assoc. cbn [app].
  destruct (Itoa_digits (row_pid r)) as [Hd Hne].
  by rewrite match_here_intro.
Qed.

(** For a literal name the claim of C4 holds: with a session of that name
    in the listing, [New] fails with "screen already exists" having run the
    listing alone. *)
Lemma New_existing_literal_name (polls : nat) (ctx : Context) (n shell : string)
      (r : row) (rows : list row) (E : env) (st : state) :
  n <> "" -> literal_name n = true ->
  In r rows -> row_name r = n ->
  combined (run_cmd E (history st) "screen" ["-ls"; n]) = screen_ls rows ->
  GoStrings.Contains (screen_ls rows) no_sockets = false ->
  exists st',
    New polls ctx n shell E st = Returns (zero_Screen, Some errAlreadyExists) st'
    /\ history st' = history st ++ [EvRun "screen" ["-ls"; n]].
Proof.
  intros Hne Hlit Hin Hname Hout Hsock.
  destruct (listed_row_matches n r rows Hin Hname) as [k Hk].
  destruct (Get_literal_found n k E st Hlit Hne) as (s & st' & HGet & _).
  - by rewrite Hout.
  - by rewrite Hout.
  - exists st'. split; [by apply (New_precheck _ _ _ _ _ _ _ s None)|].
    apply Get_returns in HGet as (Hh & _).
    apply String.eqb_neq in Hne. by rewrite Hne in Hh.
Qed.

Lemma Get_no_match (name : string) (r : Regexp.regex) (groups : nat) (E : env) (st : state) :
  name <> "" ->
  Regexp.Compile (get_pattern name) = Regexp.Prog r groups ->
  Regexp.FindAllStringSubmatch r groups
    (combined (run_cmd E (history st) "screen" ["-ls"; name])) = [] ->
  Get name E st
  = Returns (zero_Screen, Some ErrNotExist) (emit (EvRun "screen" ["-ls"; name]) st).
Proof.
  intros Hne Hc Hm. unfold Get.
  apply String.eqb_neq in Hne. rewrite Hne.
  unfold bind, CombinedOutput.
  destruct (GoStrings.Contains _ _); [done|].
  unfold FindAll. by rewrite Hc, Hm.
Qed.

Lemma Get_plus_not_found (st : state) :
  Get "a+b" plus_listed st
  = Returns (zero_Screen, Some ErrNotExist) (emit (EvRun "screen" ["-ls"; "a+b"]) st).
Proof.
  destruct (Regexp.Compile (get_pattern "a+b")) as [r g| |] eqn:Hc;
    [|vm_compute in Hc; discriminate..].
  apply (Get_no_match "a+b" r g); [done|done|].
  vm_compute in Hc. injection Hc as <- <-. vm_compute. reflexivity.
Qed.

Lemma New_wait_plus_unfinished (polls : nat) (s : Screen) (st : state) :
  New_wait polls Background "a+b" s plus_listed st = Unfinished.
Proof.
  revert s st. induction polls as [|polls IH]; intros s st; [done|].
  cbn [New_wait]. unfold bind at 1. unfold ctx_Err. cbn [done_at Background].
  unfold bind at 1. unfold Sleep, log_event. unfold bind at 1.
  rewrite Get_plus_not_found. cbn [IsNotExist underlyingError negb]. apply IH.
Qed.

(** C4 at a name with [+]: the session "a+b" is live and listed, but the
    name is spliced into the expression as syntax, where [a+b] stands for
    "ab", "aab", ...; [Get] reports that the session does not exist, and
    [New] goes on to run the create command and to poll: with the background
    context no number of polls brings it to an end, and with a context that
    is already done it returns the context's error, the create command having
    run.  For the name "c++" the expression does not compile and [New]
    panics. *)
Theorem New_existing_name_with_plus :
  In (detached 123 "a+b") [detached 123 "a+b"]
  /\ Get "a+b" plus_listed initial
     = Returns (zero_Screen, Some ErrNotExist)
               {| history := [EvRun "screen" ["-ls"; "a+b"]]; mutexes := ∅; fresh := 0 |}
  /\ (forall polls, New polls Background "a+b" "sh" plus_listed initial = Unfinished)
  /\ New 1 cancelled "a+b" "sh" plus_listed initial
     = Returns (zero_Screen, Some Canceled)
               {| history := [EvRun "screen" ["-ls"; "a+b"];
                              EvRun screenExec ["-dmS"; "a+b"; "sh"]];
                  mutexes := ∅; fresh := 0 |}
  /\ New 5 Background "c++" "sh" (scripted (screen_ls [detached 9 "c++"]) succeeds None)
         initial
     = Panics {| history := [EvRun "screen" ["-ls"; "c++"]]; mutexes := ∅; fresh := 0 |}.
Proof.
  split; [by left|]. split; [apply Get_plus_not_found|]. split.
  - intros polls. unfold New, bind. rewrite Get_plus_not_found.
    cbn [IsNotExist underlyingError negb]. unfold CombinedOutput. cbn.
    apply New_wait_plus_unfinished.
  - vm_compute. split; reflexivity.
Qed.

(** ** The test of [fdpat] and the grammar *)

Lemma Compile_fdpat_pattern : Regexp.Compile fdpat_pattern = Regexp.Prog fdpat_regex 0.
Proof. vm_compute. reflexivity. Qed.

Lemma mark_is_not_bar (c : ascii) : is_mark c = true -> Ascii.eqb "|" c = false.
Proof. destruct c as [[] [] [] [] [] [] [] []]; intros H; try discriminate H; done. Qed.

(** At the head of a text the expression matches a slash followed by a word
    of the grammar that ends the text. *)
Lemma run_fdpat_regex (s : bytes) :
  Regexp.run fdpat_regex Regexp.accept s []
  = match s with
    | c :: body =>
        if Ascii.eqb "/" c && fdpat_grammar body then Some ([], []) else None
    | [] => None
    end.
Proof.
  destruct s as [|c body]; [done|].
  unfold fdpat_regex, Regexp.repeat_re, Regexp.RChr. cbn [Nat.sub Regexp.times Regexp.opt_times].
  rewrite run_cat, run_class. cbn [Regexp.in_class].
  destruct (Ascii.eqb "/" c); [|done]. cbn [andb].
  unfold fdpat_grammar.
  destruct body as [|c1 [|c2 [|c3 [|c4 [|c5 rest]]]]];
    cbn -[existsb Ascii.eqb B is_mark];
    repeat match goal with
           | |- context [existsb (Ascii.eqb ?x) (B ".!:")] =>
               change (existsb (Ascii.eqb x) (B ".!:")) with (is_mark x)
           end;
    repeat match goal with
           | |- context [is_mark ?x] =>
               let H := fresh "Hm" in
               destruct (is_mark x) eqn:H;
               [rewrite ?(mark_is_not_bar x H)|]
           end;
    repeat match goal with
           | |- context [Ascii.eqb "|" ?x] => destruct (Ascii.eqb "|" x)
           end;
    reflexivity.
Qed.

Lemma search_some_iff (r : Regexp.regex) (s : bytes) (pos : nat) :
  Regexp.search r s pos <> None
  <-> exists k, Regexp.run r Regexp.accept (skipn k s) [] <> None.
Proof.
  revert pos. induction s as [|a s IH]; intros pos; rewrite search_unfold.
  - destruct (Regexp.run r Regexp.accept [] []) as [[s' c]|] eqn:Hr.
    + split; [|done]. intros _. exists 0%nat. by rewrite drop_0, Hr.
    + split; [done|]. intros [k Hk]. by rewrite skipn_nil, Hr in Hk.
  - destruct (Regexp.run r Regexp.accept (a :: s) []) as [[s' c]|] eqn:Hr.
    + split; [|done]. intros _. exists 0%nat. by rewrite drop_0, Hr.
    + rewrite IH. split.
      * intros [k Hk]. by exists (S k).
      * intros [[|k] Hk]; [by rewrite drop_0, Hr in Hk|by exists k].
Qed.

(** The test of [Exec] against the grammar: [fdpat] passes when one of its
    suffixes is a slash followed by a word of the grammar.  The match is not
    anchored at the start, and the slash belongs to the expression. *)
Lemma fdpat_matches_iff (fdpat : string) :
  fdpat_matches fdpat = true
  <-> exists pre body,
        B fdpat = pre ++ "/"%char :: body /\ fdpat_grammar body = true.
Proof.
  unfold fdpat_matches, Regexp.MatchString.
  pose proof (search_some_iff fdpat_regex (B fdpat) 0) as Hs.
  split.
  - intros H.
    destruct (Regexp.search fdpat_regex (B fdpat) 0) eqn:Hsearch; [|done].
    destruct (proj1 Hs) as [k Hk]; [done|].
    rewrite run_fdpat_regex in Hk.
    destruct (skipn k (B fdpat)) as [|c body] eqn:Hdrop; [done|].
    destruct (Ascii.eqb "/" c) eqn:Hc; [|done].
    destruct (fdpat_grammar body) eqn:Hg; [|done].
    apply Ascii.eqb_eq in Hc as <-.
    exists (firstn k (B fdpat)), body. split; [|done].
    by rewrite <- Hdrop, firstn_skipn.
  - intros (pre & body & Hsplit & Hg).
    destruct (Regexp.search fdpat_regex (B fdpat) 0) eqn:Hsearch; [done|].
    exfalso. apply (proj2 Hs); [|done].
    exists (length pre). rewrite Hsplit, skipn_app, Nat.sub_diag, skipn_all.
    cbn [skipn app]. by rewrite run_fdpat_regex, Ascii.eqb_refl, Hg.
Qed.

(** Patterns of screen's manual, which have no slash, are refused; a
    pattern is accepted as soon as it ends in a slash and marks. *)
Example fdpat_samples :
  map fdpat_matches ["bad"; "..."; "!.."; "/..."; "/.!:|"; "/...."; "bad/"; "x/.|"]
  = [false; false; false; true; true; false; true; true].
Proof. vm_compute. reflexivity. Qed.

(** * Further properties *)

(** ** The ways [Get] fails *)

Lemma first_named_none (name : string) (matches : list (list string)) (s : Screen) :
  name <> "" ->
  first_named name matches zero_Screen = Some s -> Name s = "" -> s = zero_Screen.
Proof.
  intros Hne. induction matches as [|m rest IH]; simpl; [by intros [= <-]|].
  destruct (m !! 2%nat) as [m2|]; [|done].
  destruct (negb _); [exact IH|].
  destruct (m !! 1%nat) as [m1|]; [|done]. intros [= <-]. simpl. intros H. by destruct Hne.
Qed.

Lemma Get_fails (name : string) (E : env) (st st' : state) (s : Screen) (e : error) :
  Get name E st = Returns (s, Some e) st' ->
  s = zero_Screen
  /\ (name = "" /\ e = errInvalidName /\ st' = st
      \/ name <> "" /\ e = ErrNotExist /\ st' = emit (EvRun "screen" ["-ls"; name]) st).
Proof.
  unfold Get. destruct (String.eqb_spec name "") as [->|Hne].
  - intros [= <- <- <-]. split; [done|]. by left.
  - unfold bind at 1. unfold CombinedOutput.
    destruct (GoStrings.Contains _ _).
    + intros [= <- <- <-]. split; [done|]. by right.
    + unfold bind at 1.
      destruct (FindAll _ _ E _) as [matches st1| |] eqn:Hfind; try discriminate.
      apply FindAll_state in Hfind as ->.
      destruct (first_named name matches zero_Screen) as [s0|] eqn:Hfirst; [|discriminate].
      destruct (String.eqb_spec (Name s0) "") as [H0|H0].
      * intros [= <- <- <-]. split; [by eapply first_named_none|]. by right.
      * register_step name E (emit (EvRun "screen" ["-ls"; name]) st). discriminate.
Qed.

(** X1: a [Get] that fails hands back the zero [Screen] and leaves the
    registry as it was, no mutex allocated.  Its error is the validation
    error for the empty name, with nothing run, and [os.ErrNotExist] for any
    other name, after one listing; [os.IsNotExist] tells the two apart. *)
Theorem Get_failure (name : string) (E : env) (st st' : state) (s : Screen) (e : error) :
  Get name E st = Returns (s, Some e) st' ->
  s = zero_Screen
  /\ mutexes st' = mutexes st /\ fresh st' = fresh st
  /\ e = (if String.eqb name "" then errInvalidName else ErrNotExist)
  /\ IsNotExist (Some e) = negb (String.eqb name "")
  /\ history st'
     = history st ++ (if String.eqb name "" then [] else [EvRun "screen" ["-ls"; name]]).
Proof.
  intros H. apply Get_fails in H as (-> & [(-> & -> & ->)|(Hne & -> & ->)]).
  - by rewrite app_nil_r.
  - apply String.eqb_neq in Hne. by rewrite Hne.
Qed.

Lemma Get_failure_witness :
  exists st',
    Get "gone" (scripted (screen_ls []) succeeds None) initial
    = Returns (zero_Screen, Some ErrNotExist) st'
    /\ mutexes st' = mutexes initial /\ fresh st' = fresh initial
    /\ IsNotExist (Some ErrNotExist) = true
    /\ history st' = [EvRun "screen" ["-ls"; "gone"]].
Proof.
  eexists. split; [vm_compute; reflexivity|].
  destruct (Get_failure "gone" (scripted (screen_ls []) succeeds None) initial
              _ zero_Screen ErrNotExist ltac:(vm_compute; reflexivity))
    as (_ & Hm & Hf & _ & Hn & Hh).
  split; [exact Hm|]. split; [exact Hf|]. split; [exact Hn|exact Hh].
Defined.

(** ** What [New] has done when it returns a session *)

Lemma New_wait_returns (polls : nat) (ctx : Context) (name : string) (s0 s : Screen)
      (E : env) (st st' : state) :
  New_wait polls ctx name s0 E st = Returns (s, None) st' ->
  name <> "" /\ Name s = name /\ is_Some (Mutex s) /\ mutexes st' !! name = Mutex s
  /\ mutexes st ⊆ mutexes st'
  /\ exists k, (S k <= polls)%nat /\ history st' = history st ++ polls_of name (S k).
Proof.
  revert s0 st. induction polls as [|polls IH]; intros s0 st; [done|].
  cbn [New_wait]. unfold bind at 1. unfold ctx_Err at 1.
  destruct (match done_at ctx with
            | Some n => if (n <=? length (history st))%nat then Some (ctx_error ctx) else None
            | None => None
            end) eqn:Hctx.
  - unfold bind, ctx_Err. rewrite Hctx. discriminate.
  - unfold bind at 1. unfold Sleep, log_event. unfold bind at 1.
    destruct (Get name E (emit (EvSleep 100) st)) as [[s1 err] st1| |] eqn:HGet;
      try discriminate.
    destruct err as [e|].
    + apply Get_fails in HGet as (-> & [(-> & -> & ->)|(Hne & -> & ->)]); [discriminate|].
      cbn [IsNotExist underlyingError negb]. intros H.
      apply IH in H as (_ & Hname & Hsome & Hreg & Hsub & k & Hk & Hh).
      repeat (split; [done|]). exists (S k). split; [lia|].
      rewrite Hh. simpl. by rewrite <- !app_assoc.
    + cbn [IsNotExist negb]. intros [= <- <-].
      apply Get_returns in HGet as (Hh & Hsub & Hok & _).
      destruct (Hok eq_refl) as (Hname & Hne & Hsome & Hreg).
      repeat (split; [done|]). exists 0%nat. split; [lia|].
      apply String.eqb_neq in Hne. rewrite Hne in Hh. rewrite Hh. simpl.
      by rewrite <- !app_assoc.
Qed.

(** X2: when [New] returns without an error, the name is not empty, the
    session it returns carries that name and the mutex the registry holds
    for it, and what [New] did is: the listing of the precheck, the create
    command, once, and then at least one poll, each a sleep of 100 ms
    followed by a listing. *)
Theorem New_returns_session (polls : nat) (ctx : Context) (name shell : string)
        (s : Screen) (E : env) (st st' : state) :
  New polls ctx name shell E st = Returns (s, None) st' ->
  name <> "" /\ Name s = name /\ is_Some (Mutex s) /\ mutexes st' !! name = Mutex s
  /\ mutexes st ⊆ mutexes st'
  /\ exists k, (S k <= polls)%nat
       /\ history st'
          = history st
              ++ [EvRun "screen" ["-ls"; name]; EvRun screenExec ["-dmS"; name; shell]]
              ++ polls_of name (S k).
Proof.
  unfold New. unfold bind at 1.
  destruct (Get name E st) as [[s1 err] st1| |] eqn:HGet; try discriminate.
  destruct (negb (IsNotExist err)) eqn:Hnot; [discriminate|].
  destruct err as [e|]; [|discriminate].
  apply Get_fails in HGet as (-> & [(-> & -> & ->)|(Hne & -> & ->)]); [discriminate|].
  unfold bind at 1. unfold CombinedOutput.
  destruct (failure _); [discriminate|].
  intros H. apply New_wait_returns in H as (_ & Hname & Hsome & Hreg & Hsub & k & Hk & Hh).
  repeat (split; [done|]). exists k. split; [done|].
  rewrite Hh. simpl. by rewrite <- !app_assoc.
Qed.

Lemma New_returns_session_witness :
  exists s st',
    New 5 Background "t1" "sh" appears_later initial = Returns (s, None) st'
    /\ s = {| Name := "t1"; Mutex := Some 0; Process := Some 77%Z |}
    /\ Name s = "t1" /\ mutexes st' !! "t1" = Mutex s
    /\ exists k, (S k <= 5)%nat
         /\ history st'
            = history initial
                ++ [EvRun "screen" ["-ls"; "t1"]; EvRun screenExec ["-dmS"; "t1"; "sh"]]
                ++ polls_of "t1" (S k).
Proof.
  eexists _, _. split; [vm_compute; reflexivity|]. split; [reflexivity|].
  destruct (New_returns_session 5 Background "t1" "sh" _ appears_later initial _
              ltac:(vm_compute; reflexivity))
    as (_ & Hname & _ & Hreg & _ & Hk).
  split; [exact Hname|]. split; [exact Hreg|exact Hk].
Defined.

(** ** The lock of a session *)

Lemma ends_unlocked_ret {A} (a : A) : ends_unlocked (ret a).
Proof.
  intros E st. exists [], st. split; [left; by eexists|].
  by rewrite app_nil_r.
Qed.

Lemma ends_unlocked_bind {A B} (m : M A) (f : A -> M B) :
  ends_unlocked m -> (forall a, ends_unlocked (f a)) -> ends_unlocked (bind m f).
Proof.
  intros Hm Hf E st. unfold bind.
  destruct (Hm E st) as (l & st1 & [[a Hr]|Hp] & Hh & Hl & Hsub).
  - rewrite Hr. destruct (Hf a E st1) as (l' & st2 & Hres & Hh' & Hl' & Hsub').
    exists (l ++ l'), st2. split; [exact Hres|].
    split; [by rewrite Hh', Hh, app_assoc|].
    split; [|by etrans]. unfold lock_free in *. by rewrite forallb_app, Hl, Hl'.
  - rewrite Hp. exists l, st1. auto.
Qed.

Lemma ends_unlocked_event {A} (a : env -> state -> A) (e : event) :
  is_lock e = false ->
  ends_unlocked (fun E st => Returns (a E st) (emit e st)).
Proof.
  intros He E st. exists [e], (emit e st). split; [left; by eexists|].
  split; [done|]. split; [|done]. unfold lock_free. simpl. by rewrite He.
Qed.

Lemma CombinedOutput_unlocked (path : string) (args : list string) :
  ends_unlocked (CombinedOutput path args).
Proof. by apply (ends_unlocked_event (fun E st => _) (EvRun path args)). Qed.

Lemma Output_unlocked (path : string) (args : list string) :
  ends_unlocked (Output path args).
Proof. by apply (ends_unlocked_event (fun E st => _) (EvRun path args)). Qed.

Lemma Stat_unlocked (path : string) : ends_unlocked (Stat path).
Proof. by apply (ends_unlocked_event (fun E st => _) (EvStat path)). Qed.

Lemma Truncate_unlocked (path : string) (size : Z) : ends_unlocked (Truncate path size).
Proof. by apply (ends_unlocked_event (fun _ _ => tt) (EvTruncate path size)). Qed.

Lemma FindAll_unlocked (expr text : string) : ends_unlocked (FindAll expr text).
Proof.
  intros E st. exists [], st. rewrite app_nil_r. split; [|done].
  unfold FindAll.
  destruct (Regexp.Compile _); [| |destruct (regexp_other _ _ _)];
    first [left; by eexists | by right].
Qed.

Lemma register_unlocked {A} (key : string) (f : mutex -> A) :
  ends_unlocked (let* newM := new_Mutex in let* m := LoadOrStore key newM in ret (f m)).
Proof.
  intros E st. destruct (register_spec key E st f) as (m & st' & Hrun & Hsub & _ & Hh).
  exists [], st'. split; [left; by eexists|]. by rewrite app_nil_r.
Qed.

Lemma ends_unlocked_panic {A} : ends_unlocked (@panic A).
Proof. intros E st. exists [], st. rewrite app_nil_r. split; [by right|done]. Qed.

Lemma Get_unlocked (name : string) : ends_unlocked (Get name).
Proof.
  unfold Get. destruct (String.eqb name ""); [apply ends_unlocked_ret|].
  apply ends_unlocked_bind; [apply CombinedOutput_unlocked|]. intros [out err].
  destruct (GoStrings.Contains _ _); [apply ends_unlocked_ret|].
  apply ends_unlocked_bind; [apply FindAll_unlocked|]. intros matches.
  destruct (first_named _ _ _) as [s0|]; [|apply ends_unlocked_panic].
  destruct (String.eqb _ ""); [apply ends_unlocked_ret|].
  apply (register_unlocked name
           (fun m => ({| Name := _; Mutex := Some m; Process := _ |}, None))).
Qed.

(** Takes a body apart: its binds, its tests, its commands. *)
Ltac unlocked :=
  repeat first
    [ apply ends_unlocked_ret
    | apply CombinedOutput_unlocked
    | apply Output_unlocked
    | apply Stat_unlocked
    | apply Truncate_unlocked
    | apply Get_unlocked
    | apply ends_unlocked_bind; [|intros ?]
    | match goal with
      | |- ends_unlocked (if ?b then _ else _) => destruct b
      | |- ends_unlocked (match ?x with _ => _ end) => destruct x
      | |- ends_unlocked (let (_, _) := ?x in _) => destruct x
      end
    | progress cbv zeta ].

Lemma isOnline_unlocked (s : Screen) : ends_unlocked (isOnline s).
Proof. unfold isOnline. unlocked. Qed.

Lemma locked_ends {A} (s : Screen) (m : mutex) (body : M A) (E : env) (st : state) :
  Mutex s = Some m -> ends_unlocked body ->
  exists mid st',
    ((exists a, locked s body E st = Returns a st') \/ locked s body E st = Panics st')
    /\ history st' = history st ++ EvLock m :: mid ++ [EvUnlock m]
    /\ lock_free mid = true
    /\ mutexes st ⊆ mutexes st'.
Proof.
  intros Hm Hbody. unfold locked. rewrite Hm.
  destruct (Hbody E (emit (EvLock m) st)) as (l & st1 & Hres & Hh & Hl & Hsub).
  exists l, (emit (EvUnlock m) st1).
  split; [destruct Hres as [[a ->]| ->]; [left; by eexists|by right]|].
  split; [simpl; rewrite Hh; simpl; by rewrite <- !app_assoc|]. by split.
Qed.

(** X3: every dispatch operation, called on a session that has its mutex,
    comes to an end, by returning or by a panic, and by then it has released
    the mutex it took: what it adds to the history starts with the lock,
    ends with the unlock, and has no other event of a mutex in between.  The
    registry keeps all its entries. *)
Theorem dispatch_releases_lock (s : Screen) (op : operation) (m : mutex)
        (E : env) (st : state) :
  Mutex s = Some m ->
  exists mid st',
    ((exists r, dispatch s op E st = Returns r st') \/ dispatch s op E st = Panics st')
    /\ history st' = history st ++ EvLock m :: mid ++ [EvUnlock m]
    /\ lock_free mid = true
    /\ mutexes st ⊆ mutexes st'.
Proof.
  intros Hm.
  destruct op; simpl; apply locked_ends; try done;
    pose proof (isOnline_unlocked s); unlocked; done.
Qed.

Lemma dispatch_releases_lock_witness :
  exists mid st',
    dispatch sfoo (OpHardcopy "/tmp/copy" true) (scripted foo_live fails_loudly None) initial
    = Returns (Some (ErrorString "partial No screen session found.")) st'
    /\ history st' = history initial ++ EvLock 0 :: mid ++ [EvUnlock 0]
    /\ lock_free mid = true.
Proof.
  destruct (dispatch_releases_lock sfoo (OpHardcopy "/tmp/copy" true) 0
              (scripted foo_live fails_loudly None) initial eq_refl)
    as (mid & st' & Hres & Hh & Hl & _).
  exists mid, st'. split; [|by split].
  destruct Hres as [[r Hr]|Hp].
  - rewrite Hr. vm_compute in Hr. by injection Hr as -> _.
  - vm_compute in Hp. discriminate Hp.
Defined.

(** ** The error for a session that is gone *)

(** X4: on a session [Get] does not find, every dispatch operation but
    [Chdir] returns the error that reads "file does not exist: screen not
    found", having run at most the listing.  [os.IsNotExist] does not
    recognise that error, although it recognises the [os.ErrNotExist] that
    [Get] returns for the same session. *)
Theorem dispatch_offline_error (s : Screen) (op : operation) (m : mutex) (E : env)
        (st st1 : state) (s' : Screen) (e : error) :
  (forall path, op <> OpChdir path) ->
  Mutex s = Some m ->
  Get (Name s) E (emit (EvLock m) st) = Returns (s', Some e) st1 ->
  exists err st',
    dispatch s op E st = Returns (Some err) st'
    /\ Error err = "file does not exist: screen not found"
    /\ IsNotExist (Some err) = false
    /\ (Name s <> "" -> IsNotExist (Some e) = true)
    /\ runs (history st')
       = runs (history st)
           ++ (if String.eqb (Name s) "" then [] else [EvRun "screen" ["-ls"; Name s]]).
Proof.
  intros Hop Hm HGet.
  destruct (dispatch_offline s op m E st st1 s' e Hop Hm HGet) as [Hres Hh].
  exists errNotFound, (emit (EvUnlock m) st1).
  split; [exact Hres|]. split; [reflexivity|]. split; [reflexivity|]. split.
  - intros Hne. apply Get_fails in HGet as (_ & [(H0 & _)|(_ & -> & _)]); done.
  - rewrite Hh. unfold runs. rewrite !filter_app. simpl.
    destruct (String.eqb (Name s) ""); simpl; by rewrite ?app_nil_r.
Qed.

Lemma dispatch_offline_error_witness :
  exists err st',
    dispatch sfoo OpKill (scripted (screen_ls []) succeeds None) initial
    = Returns (Some err) st'
    /\ Error err = "file does not exist: screen not found"
    /\ IsNotExist (Some err) = false
    /\ runs (history st') = [EvRun "screen" ["-ls"; "foo"]].
Proof.
  destruct (dispatch_offline_error sfoo OpKill 0 (scripted (screen_ls []) succeeds None)
              initial _ zero_Screen ErrNotExist
              ltac:(discriminate) eq_refl ltac:(vm_compute; reflexivity))
    as (err & st' & Hres & Herr & Hn & _ & Hruns).
  by exists err, st'.
Defined.

(** ** What [Exec] accepts *)

(** X5: on a live session, [Exec] with an accepted [fdpat] runs one control
    command, [exec] followed by the [fdpat] as it is (also when it is empty),
    the command and its arguments, and returns the output of that command as
    the error when it fails. *)
Theorem Exec_accepted_fdpat (s : Screen) (fdpat command : string) (args : list string)
        (m : mutex) (E : env) (st st1 : state) (s' : Screen) :
  Mutex s = Some m ->
  Get (Name s) E (emit (EvLock m) st) = Returns (s', None) st1 ->
  accepted_fdpat fdpat ->
  let cmd := ["-S"; Name s; "-X"; "exec"; fdpat; command] ++ args in
  let c := run_cmd E (history st1) screenExec cmd in
  Exec s fdpat command args E st
  = Returns (match failure c with Some _ => Some (ErrorString (combined c)) | None => None end)
            (emit (EvUnlock m) (emit (EvRun screenExec cmd) st1)).
Proof.
  intros Hm HGet Hacc cmd c. unfold Exec.
  rewrite (locked_online s m E st st1 s' _ Hm HGet).
  assert (String.eqb fdpat "" || fdpat_matches fdpat = true) as Hok.
  { destruct Hacc as [->|Hsuffix]; [done|].
    apply fdpat_matches_iff in Hsuffix. rewrite Hsuffix. apply orb_true_r. }
  destruct (String.eqb fdpat ""); [done|]. simpl in Hok. by rewrite Hok.
Qed.

Lemma Exec_accepted_fdpat_witness :
  let E := scripted foo_live succeeds None in
  Exec sfoo "x/.!|" "ls" ["-l"] E initial
  = Returns None
      {| history := [EvLock 0; EvRun "screen" ["-ls"; "foo"];
                     EvRun screenExec ["-S"; "foo"; "-X"; "exec"; "x/.!|"; "ls"; "-l"];
                     EvUnlock 0];
         mutexes := {["foo" := 0]}; fresh := 1 |}
  /\ Exec sfoo "" "ls" [] E initial
     = Returns None
         {| history := [EvLock 0; EvRun "screen" ["-ls"; "foo"];
                        EvRun screenExec ["-S"; "foo"; "-X"; "exec"; ""; "ls"];
                        EvUnlock 0];
            mutexes := {["foo" := 0]}; fresh := 1 |}.
Proof.
  intros E. split.
  - rewrite (Exec_accepted_fdpat sfoo "x/.!|" "ls" ["-l"] 0 E initial foo_checked sfoo
               eq_refl).
    + vm_compute. reflexivity.
    + vm_compute. reflexivity.
    + right. exists (B "x"), (B ".!|"). split; reflexivity.
  - vm_compute. reflexivity.
Defined.

(** ** Logging onto a file that exists *)

Lemma Log_file_found (s : Screen) (path : string) (append : bool) (flush : Z) (m : mutex)
      (E : env) (st st1 : state) (s' : Screen) :
  Mutex s = Some m ->
  Get (Name s) E (emit (EvLock m) st) = Returns (s', None) st1 ->
  stat_file E (history st1) path = None ->
  Log s path append flush E st
  = match log_commands s path flush E (emit (EvStat path) st1) with
    | Returns a st' => Returns a (emit (EvUnlock m) st')
    | Panics st' => Panics (emit (EvUnlock m) st')
    | Unfinished => Unfinished
    end.
Proof.
  intros Hm HGet Hstat. unfold Log.
  rewrite (locked_online s m E st st1 s' _ Hm HGet).
  unfold bind at 1. unfold Stat. rewrite Hstat.
  by destruct append.
Qed.

Lemma log_commands_run (s : Screen) (path : string) (flush : Z) (E : env) (st : state) :
  exists r st' l,
    log_commands s path flush E st = Returns r st'
    /\ history st' = history st ++ l /\ forallb is_run l = true.
Proof.
  unfold log_commands, bind, CombinedOutput, output_error. cbn [fst snd].
  repeat match goal with
         | |- context [failure ?c] => destruct (failure c)
         end;
    eexists _, _, _; (split; [reflexivity|]); simpl; rewrite <- ?app_assoc;
    (split; [reflexivity|]); reflexivity.
Qed.

(** X6: when [os.Stat] finds the file, [Log] does the same whether [append]
    is set or not: after the look at the file it runs control commands and
    nothing else, so the file is not truncated.  The one call of
    [os.Truncate] in [Log] is made when the file could not be examined and
    [append] is set. *)
Theorem Log_existing_file (s : Screen) (path : string) (flush : Z) (m : mutex)
        (E : env) (st st1 : state) (s' : Screen) :
  Mutex s = Some m ->
  Get (Name s) E (emit (EvLock m) st) = Returns (s', None) st1 ->
  stat_file E (history st1) path = None ->
  Log s path true flush E st = Log s path false flush E st
  /\ exists r st' l,
       Log s path false flush E st = Returns r st'
       /\ history st' = history st1 ++ [EvStat path] ++ l ++ [EvUnlock m]
       /\ forallb is_run l = true.
Proof.
  intros Hm HGet Hstat.
  rewrite !(Log_file_found s path _ flush m E st st1 s' Hm HGet Hstat).
  split; [done|].
  destruct (log_commands_run s path flush E (emit (EvStat path) st1))
    as (r & st' & l & -> & Hh & Hl).
  exists r, (emit (EvUnlock m) st'), l. split; [done|]. split; [|done].
  simpl. rewrite Hh. simpl. by rewrite <- !app_assoc.
Qed.

Lemma Log_existing_file_witness :
  let E := scripted foo_live succeeds None in
  Log sfoo "/var/log/x.log" true 10 E initial = Log sfoo "/var/log/x.log" false 10 E initial
  /\ Log sfoo "/var/log/x.log" false 10 E initial
     = Returns None
         {| history := [EvLock 0; EvRun "screen" ["-ls"; "foo"]; EvStat "/var/log/x.log";
                        EvRun screenExec ["-S"; "foo"; "-X"; "logfile"; "/var/log/x.log"];
                        EvRun screenExec ["-S"; "foo"; "-X"; "logfile"; "flush"; "10"];
                        EvRun screenExec ["-S"; "foo"; "-X"; "log"; "on"];
                        EvUnlock 0];
            mutexes := {["foo" := 0]}; fresh := 1 |}.
Proof.
  intros E.
  destruct (Log_existing_file sfoo "/var/log/x.log" 10 0 E initial foo_checked sfoo eq_refl
              ltac:(vm_compute; reflexivity) eq_refl) as [Hsame _].
  split; [exact Hsame|]. vm_compute. reflexivity.
Defined.

(** ** Numbers and their text *)

Lemma decimal_uint_acc (d : Decimal.uint) (acc : positive) :
  GoStrings.decimal (Z.pos acc) (B (NilEmpty.string_of_uint d))
  = Some (Z.pos (Pos.of_uint_acc d acc)).
Proof.
  revert acc. induction d; intros acc; cbn [NilEmpty.string_of_uint B list_ascii_of_string];
    [reflexivity|..];
    cbn [GoStrings.decimal Pos.of_uint_acc]; fold (B (NilEmpty.string_of_uint d));
    match goal with
    | |- context [is_digit ?c] =>
        change (is_digit c) with true;
        let v := eval vm_compute in (GoStrings.digit_val c) in
        change (GoStrings.digit_val c) with v
    end; cbv iota; rewrite <- IHd; f_equal; lia.
Qed.

Lemma decimal_uint (d : Decimal.uint) :
  GoStrings.decimal 0 (B (NilEmpty.string_of_uint d)) = Some (Z.of_N (Pos.of_uint d)).
Proof.
  induction d; cbn [NilEmpty.string_of_uint B list_ascii_of_string Pos.of_uint];
    [reflexivity|..];
    cbn [GoStrings.decimal]; fold (B (NilEmpty.string_of_uint d));
    match goal with
    | |- context [is_digit ?c] =>
        change (is_digit c) with true;
        let v := eval vm_compute in (GoStrings.digit_val c) in
        change (GoStrings.digit_val c) with v
    end; cbv iota; [exact IHd|..]; apply decimal_uint_acc.
Qed.

Lemma decimal_to_uint (p : positive) :
  GoStrings.decimal 0 (B (NilEmpty.string_of_uint (Pos.to_uint p))) = Some (Z.pos p).
Proof. by rewrite decimal_uint, DecimalPos.Unsigned.of_to. Qed.

Lemma uint_text_digit (d : Decimal.uint) :
  d <> Decimal.Nil ->
  exists c ds, B (NilEmpty.string_of_uint d) = c :: ds /\ is_digit c = true.
Proof. destruct d; [done|..]; intros _; eexists _, _; split; reflexivity. Qed.

(** [strconv.Atoi] reads back what [strconv.Itoa] writes. *)
Lemma Atoi_Itoa (i : Z) :
  (GoStrings.min_int <= i <= GoStrings.max_int)%Z ->
  GoStrings.Atoi (GoStrings.Itoa i) = Some i.
Proof.
  intros Hrange. unfold GoStrings.Itoa.
  destruct i as [|p|p]; [reflexivity|..]; cbn [Z.to_int NilZero.string_of_int].
  - unfold NilZero.string_of_uint.
    pose proof (DecimalPos.Unsigned.to_uint_nonnil p) as Hnil.
    pose proof (decimal_to_uint p) as Hdec.
    destruct (uint_text_digit _ Hnil) as (c & ds & Htext & Hc).
    assert (NilEmpty.string_of_uint (Pos.to_uint p)
            = match Pos.to_uint p with
              | Decimal.Nil => "0"
              | _ => NilEmpty.string_of_uint (Pos.to_uint p)
              end) as <- by (by destruct (Pos.to_uint p)).
    unfold GoStrings.Atoi. rewrite Htext in *.
    assert (Ascii.eqb c "-" = false /\ Ascii.eqb c "+" = false) as [-> ->].
    { destruct c as [[] [] [] [] [] [] [] []]; try discriminate Hc; by split. }
    rewrite Hdec.
    destruct (Z.leb_spec GoStrings.min_int (Z.pos p)); [|lia].
    destruct (Z.leb_spec (Z.pos p) GoStrings.max_int); [done|lia].
  - unfold NilZero.string_of_uint.
    pose proof (DecimalPos.Unsigned.to_uint_nonnil p) as Hnil.
    pose proof (decimal_to_uint p) as Hdec.
    destruct (uint_text_digit _ Hnil) as (c & ds & Htext & Hc).
    assert (NilEmpty.string_of_uint (Pos.to_uint p)
            = match Pos.to_uint p with
              | Decimal.Nil => "0"
              | _ => NilEmpty.string_of_uint (Pos.to_uint p)
              end) as <- by (by destruct (Pos.to_uint p)).
    unfold GoStrings.Atoi. cbn [B list_ascii_of_string].
    fold (B (NilEmpty.string_of_uint (Pos.to_uint p))).
    change (Ascii.eqb "-" "-") with true. cbv iota.
    rewrite Htext in *. rewrite Hdec.
    change (- Z.pos p)%Z with (Z.neg p).
    destruct (Z.leb_spec GoStrings.min_int (Z.neg p)); [|lia].
    destruct (Z.leb_spec (Z.neg p) GoStrings.max_int); [done|lia].
Qed.

Lemma Itoa_inj (a b : nat) :
  GoStrings.Itoa (Z.of_nat a) = GoStrings.Itoa (Z.of_nat b) -> a = b.
Proof.
  unfold GoStrings.Itoa.
  destruct (Z.of_nat a) as [|p|p] eqn:Ha, (Z.of_nat b) as [|q|q] eqn:Hb; try lia;
    cbn [Z.to_int NilZero.string_of_int].
  - intros H. exfalso.
    pose proof (DecimalPos.Unsigned.to_uint_nonnil q) as Hnil.
    pose proof (Unsigned.to_uint_nonzero q) as Hnz.
    apply (f_equal NilZero.uint_of_string) in H.
    rewrite NilZero.usu in H by done. rewrite NilZero.usu in H by done.
    injection H as H. by destruct Hnz.
  - intros H. exfalso.
    pose proof (DecimalPos.Unsigned.to_uint_nonnil p) as Hnil.
    pose proof (Unsigned.to_uint_nonzero p) as Hnz.
    apply (f_equal NilZero.uint_of_string) in H.
    rewrite NilZero.usu in H by done. rewrite NilZero.usu in H by done.
    injection H as H. by destruct Hnz.
  - intros H.
    apply (f_equal NilZero.uint_of_string) in H.
    rewrite !NilZero.usu in H by apply DecimalPos.Unsigned.to_uint_nonnil.
    injection H as H. apply DecimalPos.Unsigned.to_uint_inj in H. lia.
Qed.

(** ** The sessions [GetAll] returns *)

Lemma split_nonempty (sep : ascii) (s : bytes) : GoStrings.split sep s <> [].
Proof.
  induction s as [|c s IH]; simpl; [done|].
  destruct (Ascii.eqb c sep); [done|]. by destruct (GoStrings.split sep s).
Qed.

Lemma split_word (sep : ascii) (w : bytes) :
  free_of sep w = true -> GoStrings.split sep w = [w].
Proof.
  induction w as [|c w IH]; simpl; [done|].
  intros H. apply andb_true_iff in H as [Hc Hw]. apply negb_true_iff in Hc.
  by rewrite Hc, IH.
Qed.

Lemma split_app (sep : ascii) (w rest : bytes) :
  free_of sep w = true ->
  GoStrings.split sep (w ++ sep :: rest) = w :: GoStrings.split sep rest.
Proof.
  induction w as [|c w IH]; simpl.
  - by rewrite Ascii.eqb_refl.
  - intros H. apply andb_true_iff in H as [Hc Hw]. apply negb_true_iff in Hc.
    by rewrite Hc, IH.
Qed.

Lemma split_head (s : bytes) :
  exists ps, GoStrings.split "." s = before_dot s :: ps.
Proof.
  induction s as [|c s [ps IH]]; simpl; [by eexists|].
  destruct (Ascii.eqb c "."); [by eexists|]. rewrite IH. by eexists.
Qed.

Lemma fields_word (w cur rest : bytes) :
  ascii_word w = true ->
  GoStrings.fields cur (w ++ rest) = GoStrings.fields (rev w ++ cur) rest.
Proof.
  revert cur. induction w as [|c w IH]; intros cur Hw; simpl; [done|].
  simpl in Hw. apply andb_true_iff in Hw as [Hc Hw].
  apply andb_true_iff in Hc as [_ Hc]. apply negb_true_iff in Hc. rewrite Hc.
  rewrite IH by done. by rewrite <- app_assoc.
Qed.

(** The fields of a line that starts with a tab: the word after the tab is
    the first. *)
Lemma fields_tabbed (w rest : bytes) :
  ascii_word w = true -> w <> [] ->
  GoStrings.fields [] (tab_byte :: w ++ tab_byte :: rest) = w :: GoStrings.fields [] rest.
Proof.
  intros Hw Hne. cbn [GoStrings.fields]. change (is_ascii_space tab_byte) with true.
  cbv iota. rewrite fields_word by done. rewrite app_nil_r.
  cbn [GoStrings.fields]. change (is_ascii_space tab_byte) with true. cbv iota.
  destruct (rev w) eqn:Hr.
  - apply (f_equal (@rev ascii)) in Hr. rewrite rev_involutive in Hr. done.
  - by rewrite <- Hr, rev_involutive.
Qed.

Lemma digits_word (d : bytes) : forallb is_digit d = true -> ascii_word d = true.
Proof.
  induction d as [|c d IH]; simpl; [done|].
  intros H. apply andb_true_iff in H as [Hc Hd]. rewrite (IH Hd), andb_true_r.
  destruct c as [[] [] [] [] [] [] [] []]; try discriminate Hc; done.
Qed.

Lemma digits_free_of (sep : ascii) (d : bytes) :
  is_digit sep = false -> forallb is_digit d = true -> free_of sep d = true.
Proof.
  intros Hsep. induction d as [|c d IH]; simpl; [done|].
  intros H. apply andb_true_iff in H as [Hc Hd]. rewrite (IH Hd), andb_true_r.
  apply negb_true_iff. destruct (Ascii.eqb_spec c sep) as [->|]; [congruence|done].
Qed.

Lemma word_free_of_nl (w : bytes) : ascii_word w = true -> free_of nl_byte w = true.
Proof.
  induction w as [|c w IH]; simpl; [done|].
  intros H. apply andb_true_iff in H as [Hc Hw]. rewrite (IH Hw), andb_true_r.
  apply andb_true_iff in Hc as [_ Hc].
  apply negb_true_iff. destruct (Ascii.eqb_spec c nl_byte) as [->|]; [done|done].
Qed.

Lemma word_app (a b : bytes) : ascii_word (a ++ b) = ascii_word a && ascii_word b.
Proof. apply forallb_app. Qed.

Lemma free_of_app (sep : ascii) (a b : bytes) :
  free_of sep (a ++ b) = free_of sep a && free_of sep b.
Proof. apply forallb_app. Qed.

(** The token of a row is a word: the digits of the pid, a dot, the name. *)
Lemma row_token_ascii_word (r : row) :
  ascii_word (B (row_name r)) = true ->
  ascii_word (B (row_token r)) = true /\ B (row_token r) <> [].
Proof.
  intros Hn. rewrite row_token_bytes. split.
  - rewrite word_app, digits_word by apply Itoa_digits. simpl. by rewrite Hn.
  - by destruct (B (GoStrings.Itoa _)).
Qed.

Lemma row_state_word (r : row) : ascii_word (B (row_state r)) = true.
Proof. unfold row_state. by destruct (row_attached r). Qed.

Lemma row_text_free_of_nl (r : row) :
  ascii_word (B (row_name r)) = true -> free_of nl_byte (row_text r) = true.
Proof.
  intros Hn. destruct (row_token_ascii_word r Hn) as [Ht _].
  change (row_text r) with ([tab_byte] ++ B (row_token r) ++ [tab_byte] ++ B (row_state r)).
  rewrite !free_of_app, (word_free_of_nl _ Ht), (word_free_of_nl _ (row_state_word r)).
  reflexivity.
Qed.

(** The lines of a listing: the heading, a line per row, and what follows
    the last newline. *)
Lemma split_listing (first last : bytes) (rows : list row) :
  free_of nl_byte first = true ->
  Forall (fun r => ascii_word (B (row_name r)) = true) rows ->
  free_of nl_byte last = true ->
  GoStrings.split nl_byte
    (first ++ nl_byte :: flat_map (fun r => row_text r ++ [nl_byte]) rows ++ last)
  = first :: map row_text rows ++ [last].
Proof.
  intros Hf Hrows Hl. rewrite split_app by done. f_equal.
  induction Hrows as [|r rows Hr _ IH]; cbn [flat_map map app].
  - by apply split_word.
  - rewrite <- !app_assoc. cbn [app]. rewrite split_app by (by apply row_text_free_of_nl).
    by rewrite IH.
Qed.

Lemma middle_lines {A} (first last : A) (l : list A) :
  middle (first :: l ++ [last]) = l.
Proof. unfold middle. simpl. apply removelast_last. Qed.

Lemma row_text_ascii (r : row) :
  ascii_word (B (row_name r)) = true -> forallb is_ascii7 (row_text r) = true.
Proof.
  intros Hn. destruct (row_token_ascii_word r Hn) as [Ht _].
  assert (forall w, ascii_word w = true -> forallb is_ascii7 w = true) as Hascii.
  { induction w as [|c w IH]; simpl; [done|]. intros H.
    apply andb_true_iff in H as [Hc Hw]. apply andb_true_iff in Hc as [-> _]. by apply IH. }
  unfold row_text. cbn [forallb]. rewrite forallb_app. cbn [forallb].
  rewrite (Hascii _ Ht), (Hascii _ (row_state_word r)). reflexivity.
Qed.

(** What [GetAll] makes of the line of a row. *)
Lemma screen_of_row (r : row) (E : env) (st : state) :
  ascii_word (B (row_name r)) = true ->
  (Z.of_nat (row_pid r) <= GoStrings.max_int)%Z ->
  exists m st',
    screen_of_line (S_ (row_text r)) E st
    = Returns {| Name := listed_name r; Mutex := Some m;
                 Process := Some (Z.of_nat (row_pid r)) |} st'
    /\ mutexes st ⊆ mutexes st'
    /\ mutexes st' !! listed_name r = Some m
    /\ history st' = history st.
Proof.
  intros Hn Hpid. destruct (row_token_ascii_word r Hn) as [Ht Hne].
  unfold screen_of_line, bind at 1. unfold Fields, GoStrings.Fields.
  rewrite B_S, (row_text_ascii r Hn). unfold row_text.
  rewrite fields_tabbed by done. cbn [map].
  unfold GoStrings.Split. rewrite B_S, row_token_bytes.
  rewrite split_app by (apply digits_free_of; [done|apply Itoa_digits]).
  destruct (split_head (B (row_name r))) as [ps ->]. cbn [map nth].
  rewrite S_B, Atoi_Itoa by (unfold GoStrings.min_int; lia).
  destruct (register_spec (S_ (before_dot (B (row_name r)))) E st
              (fun m => {| Name := S_ (before_dot (B (row_name r))); Mutex := Some m;
                           Process := FindProcess (Z.of_nat (row_pid r)) |}))
    as (m & st' & Hrun & Hsub & Hk & Hh).
  exists m, st'. by rewrite Hrun.
Qed.

Lemma screens_of_rows (rows : list row) (res : list Screen) (E : env) (st : state) :
  Forall (fun r => ascii_word (B (row_name r)) = true
                   /\ (Z.of_nat (row_pid r) <= GoStrings.max_int)%Z) rows ->
  exists l st',
    screens_of_lines (map (fun r => S_ (row_text r)) rows) res E st = Returns (res ++ l) st'
    /\ map Name l = map listed_name rows
    /\ map Process l = map (fun r => Some (Z.of_nat (row_pid r))) rows
    /\ history st' = history st.
Proof.
  intros Hrows. revert res st.
  induction Hrows as [|r rows [Hn Hpid] _ IH]; intros res st; cbn [map screens_of_lines].
  - exists [], st. by rewrite app_nil_r.
  - unfold bind at 1.
    destruct (screen_of_row r E st Hn Hpid) as (m & st1 & -> & _ & _ & Hh).
    destruct (IH (res ++ [{| Name := listed_name r; Mutex := Some m;
                             Process := Some (Z.of_nat (row_pid r)) |}]) st1)
      as (l & st' & -> & Hnames & Hprocs & Hh').
    eexists (_ :: l), st'. rewrite <- app_assoc. split; [reflexivity|].
    cbn [map]. rewrite Hnames, Hprocs. split; [done|]. split; [done|congruence].
Qed.

(** X7: [GetAll] on a listing made of a first line, a line per session and
    a last line that no newline ends: it returns one session per line, in
    order, each with the pid of its line, the mutex the registry holds for its
    name, and as its name the name of the line up to its first dot.  The
    names are ASCII words and the pids fit an [int]. *)
Theorem GetAll_lists_rows (rows : list row) (first last : string) (E : env) (st : state) :
  combined (run_cmd E (history st) "screen" ["-ls"])
  = first +:+ nl +:+ concat_str (map row_line rows) +:+ last ->
  GoStrings.Contains (combined (run_cmd E (history st) "screen" ["-ls"])) no_sockets = false ->
  free_of nl_byte (B first) = true -> free_of nl_byte (B last) = true ->
  Forall (fun r => ascii_word (B (row_name r)) = true
                   /\ (Z.of_nat (row_pid r) <= GoStrings.max_int)%Z) rows ->
  exists l st',
    GetAll E st = Returns l st'
    /\ map Name l = map listed_name rows
    /\ map Process l = map (fun r => Some (Z.of_nat (row_pid r))) rows
    /\ Forall (registered (mutexes st')) l
    /\ history st' = history st ++ [EvRun "screen" ["-ls"]].
Proof.
  intros Hout Hsock Hf Hl Hrows.
  assert (exists l st', GetAll E st = Returns l st'
                        /\ map Name l = map listed_name rows
                        /\ map Process l = map (fun r => Some (Z.of_nat (row_pid r))) rows)
    as (l & st' & HGetAll & Hnames & Hprocs).
  { unfold GetAll, bind at 1. unfold CombinedOutput. rewrite Hsock.
    unfold GoStrings.Split. rewrite Hout, !B_app, B_concat_row_lines.
    change (B nl) with [nl_byte]. cbn [app].
    replace (flat_map _ rows)
      with (flat_map (fun r => row_text r ++ [nl_byte]) rows).
    2:{ apply flat_map_ext. intros r. unfold row_text. cbn [app].
        by rewrite <- app_assoc. }
    rewrite split_listing; [|done| |done].
    2:{ eapply Forall_impl; [exact Hrows|]. by intros r [? _]. }
    cbn [map]. rewrite map_app. cbn [map]. rewrite middle_lines, map_map.
    destruct (screens_of_rows rows [] E (emit (EvRun "screen" ["-ls"]) st) Hrows)
      as (l & st' & Hrun & Hnames & Hprocs & _).
    exists l, st'. by rewrite Hrun. }
  exists l, st'. split; [done|]. split; [done|]. split; [done|].
  apply GetAll_returns in HGetAll as (_ & Hreg & Hh). by split.
Qed.

Lemma GetAll_lists_rows_witness :
  let first := "There are screens on:" in
  let last := "2 Sockets in /run/screen/S-root." in
  let rows := [detached 123 "foo"; detached 456 "web.example.org"] in
  exists l st',
    GetAll (scripted (first +:+ nl +:+ concat_str (map row_line rows) +:+ last) succeeds None)
           initial
    = Returns l st'
    /\ map Name l = ["foo"; "web"]
    /\ map Process l = [Some 123%Z; Some 456%Z]
    /\ Forall (registered (mutexes st')) l
    /\ history st' = [EvRun "screen" ["-ls"]].
Proof.
  intros first last rows.
  apply (GetAll_lists_rows rows first last
           (scripted (first +:+ nl +:+ concat_str (map row_line rows) +:+ last) succeeds None)
           initial).
  - reflexivity.
  - vm_compute. reflexivity.
  - reflexivity.
  - reflexivity.
  - repeat constructor; vm_compute; discriminate.
Defined.

(** ** Lines [GetAll] cannot read *)

Lemma screen_of_line_fields (line : string) (E : env) (st : state) :
  screen_of_line line E st
  = match (match GoStrings.Fields line with Some fs => fs | None => fields_other E line end)
    with
    | [] => Panics st
    | subject :: _ =>
        match GoStrings.Split subject "." with
        | _ :: name :: _ =>
            (let* newM := new_Mutex in
             let* m := LoadOrStore name newM in
             ret {| Name := name; Mutex := Some m;
                    Process := match GoStrings.Atoi (nth 0 (GoStrings.Split subject ".") "")
                               with
                               | Some i => FindProcess i
                               | None => None
                               end |}) E st
        | _ => Panics st
        end
    end.
Proof.
  unfold screen_of_line, bind at 1. unfold Fields.
  destruct (match GoStrings.Fields line with Some fs => fs | None => fields_other E line end)
    as [|subject fs]; [done|].
  by destruct (GoStrings.Split subject ".") as [|pid [|name rest]].
Qed.

Lemma screen_of_line_unreadable (line : string) (E : env) (st : state) :
  unreadable E line = true -> screen_of_line line E st = Panics st.
Proof.
  rewrite screen_of_line_fields. unfold unreadable, first_field.
  destruct (match GoStrings.Fields line with Some fs => fs | None => fields_other E line end)
    as [|subject fs]; [done|].
  simpl. intros Hfree. unfold GoStrings.Split. by rewrite split_word.
Qed.

Lemma screen_of_line_ends (line : string) (E : env) (st : state) :
  exists st', history st' = history st
    /\ ((exists s, screen_of_line line E st = Returns s st')
        \/ screen_of_line line E st = Panics st').
Proof.
  rewrite screen_of_line_fields.
  destruct (match GoStrings.Fields line with Some fs => fs | None => fields_other E line end)
    as [|subject fs]; [exists st; split; [done|by right]|].
  destruct (GoStrings.Split subject ".") as [|pid [|name rest]];
    try (exists st; split; [done|by right]).
  set (proc := match GoStrings.Atoi _ with Some i => FindProcess i | None => None end).
  destruct (register_spec name E st
              (fun m => {| Name := name; Mutex := Some m; Process := proc |}))
    as (m & st' & Hrun & _ & _ & Hh).
  exists st'. split; [done|]. left. by eexists.
Qed.

Lemma screens_of_lines_unreadable (lines : list string) (line : string) (res : list Screen)
      (E : env) (st : state) :
  In line lines -> unreadable E line = true ->
  exists st', screens_of_lines lines res E st = Panics st' /\ history st' = history st.
Proof.
  intros Hin Hbad. revert res st.
  induction lines as [|l0 rest IH]; intros res st; [done|].
  cbn [screens_of_lines]. unfold bind at 1.
  destruct (screen_of_line_ends l0 E st) as (st1 & Hh & [[s Hr]|Hp]).
  - rewrite Hr. destruct Hin as [->|Hin].
    + by rewrite (screen_of_line_unreadable line E st Hbad) in Hr.
    + destruct (IH Hin (res ++ [s]) st1) as (st' & -> & Hh').
      exists st'. split; [done|congruence].
  - rewrite Hp. by exists st1.
Qed.

(** X8: [GetAll] panics as soon as one of the lines it looks at, those
    between the first and the last, has no field or has a first field
    without a dot: it indexes the fields and the pieces without a look at
    their number.  The line with the count of sockets, which [screen] prints
    after the sessions, is such a line when a newline follows it. *)
Theorem GetAll_unreadable_line (line : string) (E : env) (st : state) :
  let out := combined (run_cmd E (history st) "screen" ["-ls"]) in
  GoStrings.Contains out no_sockets = false ->
  In line (middle (GoStrings.Split out nl_byte)) ->
  unreadable E line = true ->
  exists st',
    GetAll E st = Panics st' /\ history st' = history st ++ [EvRun "screen" ["-ls"]].
Proof.
  intros out Hsock Hin Hbad. unfold GetAll, bind at 1. unfold CombinedOutput.
  fold out. rewrite Hsock.
  destruct (screens_of_lines_unreadable _ line [] E (emit (EvRun "screen" ["-ls"]) st)
              Hin Hbad) as (st' & Hrun & Hh).
  exists st'. split; [exact Hrun|]. by rewrite Hh.
Qed.

Lemma GetAll_unreadable_line_witness :
  exists st',
    GetAll (scripted foo_live succeeds None) initial = Panics st'
    /\ history st' = history initial ++ [EvRun "screen" ["-ls"]].
Proof.
  apply (GetAll_unreadable_line "1 Socket in /run/screen/S-root."
           (scripted foo_live succeeds None) initial).
  - vm_compute. reflexivity.
  - vm_compute. right. by left.
  - vm_compute. reflexivity.
Defined.

(** ** The pid [Get] reports *)

Lemma search_name_match (n s : bytes) (pos b e : nat) (c : Regexp.caps) :
  Regexp.search (name_regex n) s pos = Some (b, e, c) ->
  exists k d rest, match_here n (skipn k s) = Some (d, rest) /\ c = [(2%nat, n); (1%nat, d)].
Proof.
  revert pos. induction s as [|a s IH]; intros pos; rewrite search_unfold, run_name_regex.
  - destruct (match_here n []) as [[d rest]|] eqn:Hm; [|done].
    intros [= <- <- <-]. exists 0%nat, d, rest. by rewrite drop_0.
  - destruct (match_here n (a :: s)) as [[d rest]|] eqn:Hm.
    + intros [= <- <- <-]. exists 0%nat, d, rest. by rewrite drop_0.
    + intros H. destruct (IH _ H) as (k & d & rest & Hk & Hc).
      by exists (S k), d, rest.
Qed.

(** The first element of what [FindAllStringSubmatch] returns comes from a
    place of the text where the expression matches. *)
Lemma FindAll_name_first (n : bytes) (out : string) (k : nat) :
  match_here n (skipn k (B out)) <> None ->
  exists whole d rest k' tail,
    Regexp.FindAllStringSubmatch (name_regex n) 2 out = [whole; S_ d; S_ n] :: rest
    /\ match_here n (skipn k' (B out)) = Some (d, tail).
Proof.
  intros H. unfold Regexp.FindAllStringSubmatch.
  replace (length (B out) + 2)%nat with (S (length (B out) + 1)) by lia.
  cbn [Regexp.all_matches]. rewrite drop_0.
  destruct (search_name_some n (B out) 0 k H) as (b & e & d & Hs & Hlt).
  rewrite Hs.
  destruct (search_name_match _ _ _ _ _ _ Hs) as (k' & d' & tail & Hk' & [= <-]).
  destruct (Nat.eqb_spec e 0); [lia|]. simpl.
  by eexists _, d, _, k', tail.
Qed.

Lemma match_token (n text d rest : bytes) (k : nat) :
  spaceless n = true ->
  match_here n (skipn k text) = Some (d, rest) ->
  In (d ++ "."%char :: n) (tokens text) /\ d <> [] /\ forallb is_digit d = true.
Proof.
  intros Hn Hm.
  apply match_here_inv in Hm as (w & w2 & Hs & Hw & Hw2 & Hne & Hd).
  split; [|done].
  rewrite <- (firstn_skipn k text), Hs.
  change (w :: d ++ "."%char :: n ++ w2 :: rest)
    with (w :: (d ++ "."%char :: n ++ w2 :: rest)).
  replace (d ++ "."%char :: n ++ w2 :: rest) with ((d ++ "."%char :: n) ++ w2 :: rest)
    by (by rewrite <- app_assoc).
  apply token_between; try done.
  - rewrite spaceless_app, (digits_spaceless d Hd). simpl. by rewrite Hn.
  - by destruct d.
Qed.

(** The fields of what [screen -ls] prints for some sessions. *)
Lemma tokens_screen_ls (rows : list row) :
  rows <> [] ->
  Forall (fun r => spaceless (B (row_name r)) = true) rows ->
  tokens (B (screen_ls rows))
  = tokens (B (heading (length rows)))
      ++ flat_map (fun r => [B (row_token r); B (row_state r)]) rows
      ++ tokens (B (footing (length rows))).
Proof.
  intros Hne Hrows. unfold screen_ls.
  destruct rows as [|r0 rows0] eqn:Hrs; [exfalso; exact (Hne eq_refl)|].
  rewrite <- Hrs in *. clear Hrs Hne r0 rows0.
  generalize (heading (length rows)) (footing (length rows)). intros h f.
  rewrite !B_app. change (B nl) with [nl_byte]. cbn [app].
  unfold tokens at 1. rewrite (tokens_from_split (B h) _ [] nl_byte eq_refl).
  f_equal. change (tokens_from [] ?x) with (tokens x).
  rewrite (tokens_row_lines rows _ Hrows). f_equal.
  unfold tokens at 1. rewrite (tokens_from_split (B f) [] [] nl_byte eq_refl).
  cbn [tokens_from]. by rewrite app_nil_r.
Qed.

Lemma digits_dot_inj (d d' n n' : bytes) :
  forallb is_digit d = true -> forallb is_digit d' = true ->
  d ++ "."%char :: n = d' ++ "."%char :: n' -> d = d' /\ n = n'.
Proof.
  intros Hd Hd' H.
  pose proof (f_equal leading_digits H) as Hl.
  pose proof (f_equal after_digits H) as Ha.
  destruct (leading_digits_app d ("."%char :: n) Hd) as [Hl1 Ha1].
  destruct (leading_digits_app d' ("."%char :: n') Hd') as [Hl2 Ha2].
  rewrite Hl1, Hl2 in Hl. rewrite Ha1, Ha2 in Ha. simpl in Hl, Ha.
  rewrite !app_nil_r in Hl. by injection Ha as ->.
Qed.

(** A field of the listing that reads [<digits>.<n>] is the token of a row
    named [n]. *)
Lemma session_token_of_row (n d : bytes) (rows : list row) :
  rows <> [] ->
  Forall (fun r => spaceless (B (row_name r)) = true) rows ->
  d <> [] -> forallb is_digit d = true ->
  In (d ++ "."%char :: n) (tokens (B (screen_ls rows))) ->
  exists r, In r rows /\ B (row_name r) = n
            /\ d = B (GoStrings.Itoa (Z.of_nat (row_pid r))).
Proof.
  intros Hne Hrows Hd0 Hd Hin.
  pose proof (session_token_intro n d Hd0 Hd) as Htok.
  rewrite (tokens_screen_ls rows Hne Hrows) in Hin.
  apply in_app_or in Hin as [Hin|Hin].
  { pose proof (tokens_heading n (length rows)) as Hh.
    assert (existsb (session_token n) (tokens (B (heading (length rows)))) = true) as Hc
        by (apply existsb_exists; by eexists).
    congruence. }
  apply in_app_or in Hin as [Hin|Hin].
  2:{ pose proof (tokens_footing n (length rows)) as Hf.
      assert (existsb (session_token n) (tokens (B (footing (length rows)))) = true) as Hc
          by (apply existsb_exists; by eexists).
      congruence. }
  apply in_flat_map in Hin as (r & Hr & [Ht|[Ht|[]]]).
  - exists r. split; [done|]. rewrite row_token_bytes in Ht.
    destruct (digits_dot_inj _ _ _ _ (proj1 (Itoa_digits (row_pid r))) Hd Ht) as [-> ->].
    done.
  - exfalso. rewrite <- Ht in Htok. unfold row_state in Htok.
    by destruct (row_attached r).
Qed.

(** X9: [Get] reads the pid back from the listing.  For a name of literal
    bytes without white space, and a listing of sessions whose names have no
    white space and in which the sessions of that name all carry one pid,
    [Get] returns the session with that name and that pid (which fits an
    [int]), and the mutex the registry holds for the name. *)
Theorem Get_reports_listed_pid (n : string) (r : row) (rows : list row)
        (E : env) (st : state) :
  n <> "" -> literal_name n = true -> spaceless (B n) = true ->
  In r rows -> row_name r = n ->
  Forall (fun r' => spaceless (B (row_name r')) = true
                    /\ (row_name r' = n -> row_pid r' = row_pid r)) rows ->
  (Z.of_nat (row_pid r) <= GoStrings.max_int)%Z ->
  combined (run_cmd E (history st) "screen" ["-ls"; n]) = screen_ls rows ->
  GoStrings.Contains (screen_ls rows) no_sockets = false ->
  exists m st',
    Get n E st
    = Returns ({| Name := n; Mutex := Some m; Process := Some (Z.of_nat (row_pid r)) |}, None)
              st'
    /\ mutexes st' !! n = Some m
    /\ history st' = history st ++ [EvRun "screen" ["-ls"; n]].
Proof.
  intros Hne Hlit Hsp Hin Hname Hrows Hpid Hout Hsock.
  assert (rows <> []) as Hrows0 by (by destruct rows).
  assert (Forall (fun r => spaceless (B (row_name r)) = true) rows) as Hspaceless.
  { eapply Forall_impl; [exact Hrows|]. by intros r' [? _]. }
  destruct (listed_row_matches n r rows Hin Hname) as [k Hk].
  destruct (FindAll_name_first (B n) (screen_ls rows) k Hk)
    as (whole & d & rest & k' & tail & Hfind & Hm).
  destruct (match_token _ _ _ _ _ Hsp Hm) as (Htok & Hd0 & Hd).
  destruct (session_token_of_row _ _ rows Hrows0 Hspaceless Hd0 Hd Htok)
    as (r' & Hr' & Hn' & ->).
  apply B_inj in Hn'.
  rewrite List.Forall_forall in Hrows. destruct (Hrows r' Hr') as [_ Hsame].
  rewrite (Hsame Hn') in Hfind.
  unfold Get. apply String.eqb_neq in Hne as Hne'. rewrite Hne'.
  unfold bind at 1. unfold CombinedOutput. rewrite Hout, Hsock.
  unfold bind at 1. unfold FindAll. rewrite (Compile_literal n Hlit Hne), Hfind.
  cbn [first_named lookup list_lookup]. rewrite !S_B, String.eqb_refl. cbn [negb Name]. rewrite Hne'.
  rewrite Atoi_Itoa by (unfold GoStrings.min_int; lia).
  destruct (register_spec n E (emit (EvRun "screen" ["-ls"; n]) st)
              (fun m => ({| Name := n; Mutex := Some m;
                            Process := FindProcess (Z.of_nat (row_pid r)) |}, @None error)))
    as (m & st' & Hrun & _ & Hreg & Hh).
  exists m, st'. split; [exact Hrun|]. split; [done|]. by rewrite Hh.
Qed.

Lemma Get_reports_listed_pid_witness :
  exists m st',
    Get "foo" (scripted (screen_ls [detached 7 "foobar"; detached 123 "foo"]) succeeds None)
        initial
    = Returns ({| Name := "foo"; Mutex := Some m; Process := Some 123%Z |}, None) st'
    /\ mutexes st' !! "foo" = Some m
    /\ history st' = history initial ++ [EvRun "screen" ["-ls"; "foo"]].
Proof.
  apply (Get_reports_listed_pid "foo" (detached 123 "foo")
           [detached 7 "foobar"; detached 123 "foo"]).
  - discriminate.
  - reflexivity.
  - reflexivity.
  - right. by left.
  - reflexivity.
  - repeat constructor; try discriminate; done.
  - vm_compute. discriminate.
  - reflexivity.
  - vm_compute. reflexivity.
Defined.

(** ** The walk of [Signal] over the processes *)

Lemma emits_nil (st : state) : emits [] st = st.
Proof. destruct st. unfold emits. simpl. by rewrite app_nil_r. Qed.

Lemma emits_app (l1 l2 : list event) (st : state) :
  emits l2 (emits l1 st) = emits (l1 ++ l2) st.
Proof. unfold emits. simpl. by rewrite <- app_assoc. Qed.

Lemma emit_emits (e : event) (st : state) : emit e st = emits [e] st.
Proof. reflexivity. Qed.

Lemma append_empty (s : string) : s +:+ "" = s.
Proof.
  induction s as [|c s IH]; [done|].
  change (String c (s +:+ "") = String c s). by rewrite IH.
Qed.

Lemma digit_ascii (c : ascii) :
  is_digit c = true -> is_ascii7 c = true /\ is_ascii_space c = false.
Proof. destruct c as [[] [] [] [] [] [] [] []]; try discriminate; done. Qed.

(** [strings.TrimSpace] leaves a number as it is. *)
Lemma TrimSpace_digits (d : bytes) :
  forallb is_digit d = true -> GoStrings.TrimSpace (S_ d) = S_ d.
Proof.
  intros Hd. unfold GoStrings.TrimSpace. rewrite B_S. f_equal.
  destruct d as [|c d]; [done|].
  assert (is_digit c = true) as Hc by (simpl in Hd; by apply andb_true_iff in Hd as [? _]).
  destruct (digit_ascii c Hc) as [H7 Hs].
  cbn [GoStrings.trim_start]. rewrite H7, Hs. cbn [negb].
  destruct (rev (c :: d)) as [|x r] eqn:Hr.
  { apply (f_equal (@length ascii)) in Hr. rewrite length_rev in Hr. done. }
  assert (is_digit x = true) as Hx.
  { rewrite forallb_forall in Hd. apply Hd, in_rev. rewrite Hr. by left. }
  destruct (digit_ascii x Hx) as [H7' Hs'].
  cbn [GoStrings.trim_stop]. rewrite H7', Hs'. cbn [negb].
  by rewrite <- Hr, rev_involutive.
Qed.

(** White space goes from both ends, the spaces of Unicode included; bytes
    that are not UTF-8 stay. *)
Example TrimSpace_samples :
  map (fun l => map nat_of_ascii (B (GoStrings.TrimSpace (S_ (map ascii_of_nat l)))))
      [[32; 9; 32; 52; 50; 32; 10]; [194; 160; 32; 52; 50; 227; 128; 128];
       [255; 32; 52; 50; 32]; [32; 52; 50; 160]; [32; 194; 133; 9]]
  = [[52; 50]; [52; 50]; [255; 32; 52; 50]; [52; 50; 160]; []].
Proof. vm_compute. reflexivity. Qed.

Lemma TrimSpace_pid (p : proc) : GoStrings.TrimSpace (pid_text p) = pid_text p.
Proof.
  unfold pid_text. rewrite <- (S_B (GoStrings.Itoa _)).
  apply TrimSpace_digits, Itoa_digits.
Qed.

Lemma pid_text_nonempty (p : proc) : pid_text p <> "".
Proof.
  unfold pid_text. intros H. destruct (Itoa_digits (proc_pid p)) as [_ Hne].
  by rewrite H in Hne.
Qed.

(** The lines of what [ps] prints: a pid each, and the empty string that
    follows the last newline. *)
Lemma ps_lines (kids : list proc) :
  GoStrings.Split (concat_str (map (fun p => pid_text p +:+ nl) kids)) (ascii_of_nat 10)
  = map pid_text kids ++ [""].
Proof.
  unfold GoStrings.Split.
  induction kids as [|k kids IH]; [done|].
  cbn [map concat_str fold_right]. fold (concat_str (map (fun p => pid_text p +:+ nl) kids)).
  rewrite !B_app. change (B nl) with [ascii_of_nat 10]. rewrite <- app_assoc. cbn [app].
  rewrite split_app.
  2:{ apply digits_free_of; [done|]. apply Itoa_digits. }
  cbn [map app]. by rewrite IH, S_B.
Qed.

Lemma ps_output_long (k : proc) (kids : list proc) :
  let out := concat_str (map (fun p => pid_text p +:+ nl) (k :: kids)) in
  (String.length out =? 0)%nat = false /\ (String.length out =? 1)%nat = false.
Proof.
  cbn [map concat_str fold_right].
  pose proof (pid_text_nonempty k) as Hne.
  destruct (pid_text k) as [|c s]; [done|].
  destruct s; simpl; done.
Qed.

Lemma combined_ps_lists (k : proc) (kids : list proc) :
  combined (ps_lists (k :: kids)) = concat_str (map (fun p => pid_text p +:+ nl) (k :: kids)).
Proof.
  unfold combined. cbn [ps_lists writes map snd]. unfold concat_str at 1.
  cbn [fold_right]. apply append_empty.
Qed.

Lemma ps_lines_kept (kids : list proc) :
  List.filter (fun el => negb (String.eqb (GoStrings.TrimSpace el) ""))
              (map pid_text kids ++ [""])
  = map pid_text kids.
Proof.
  induction kids as [|k kids IH]; [reflexivity|].
  cbn [map app List.filter]. rewrite TrimSpace_pid.
  destruct (String.eqb_spec (pid_text k) "") as [H|_]; [by apply pid_text_nonempty in H|].
  cbn [negb]. by rewrite IH.
Qed.

Lemma kid_in_procs (t p k : proc) :
  In p (procs t) -> In k (proc_kids p) -> In k (procs t).
Proof.
  remember (height t) as n eqn:Hn. assert (height t <= n)%nat as Hle by lia. clear Hn.
  revert t Hle. induction n as [|n IH]; intros [pid kids] Hle; cbn [height] in Hle; [lia|].
  cbn [procs]. intros [<-|Hin] Hk.
  - right. cbn [proc_kids] in Hk. apply in_flat_map. exists k. split; [done|].
    destruct k. by left.
  - right. apply in_flat_map in Hin as (c & Hc & Hp). apply in_flat_map.
    exists c. split; [done|]. apply IH; [|done|done].
    assert (height c <= list_max (map height kids))%nat; [|lia].
    pose proof (list_max_le (map height kids) (list_max (map height kids))) as [Hmax _].
    specialize (Hmax (Nat.le_refl _)). rewrite List.Forall_forall in Hmax.
    apply Hmax, in_map, Hc.
Qed.

Lemma map_flat_map {A B C} (f : B -> C) (g : A -> list B) (l : list A) :
  map f (flat_map g l) = flat_map (fun a => map f (g a)) l.
Proof. induction l as [|a l IH]; simpl; [done|]. by rewrite map_app, IH. Qed.

(** The walk from a process of the tree: the pids of all its descendants
    are collected, in the order of [descendants], with the [ps] commands of
    [ps_walk] and nothing else. *)
Lemma recurse_walk (E : env) (t : proc) :
  ps_from E t ->
  forall depth p acc st,
    In p (procs t) -> (height p <= depth)%nat ->
    recurse depth (pid_text p) acc E st
    = Returns (acc ++ map pid_text (descendants p)) (emits (ps_walk p) st).
Proof.
  intros [Hps Hempty]. induction depth as [|d IH]; intros [pid kids] acc st Hin Hh.
  { cbn [height] in Hh. lia. }
  cbn [recurse]. unfold bind at 1. unfold CombinedOutput.
  rewrite (Hps _ _ Hin). cbn [proc_kids].
  destruct kids as [|k kids].
  { simpl. by rewrite app_nil_r. }
  rewrite combined_ps_lists. cbn [ps_lists failure].
  destruct (ps_output_long k kids) as [-> ->].
  rewrite bool_decide_false by (intros H; by apply H). cbn [orb].
  rewrite ps_lines, ps_lines_kept.
  assert (forall els acc st,
             Forall (fun c => In c (procs t) /\ (height c <= d)%nat) els ->
             (1 <= d)%nat ->
             visit_each (recurse d) (map pid_text els ++ [""]) acc E st
             = Returns (acc ++ flat_map (fun c => map pid_text (descendants c)) els)
                       (emits (flat_map ps_walk els ++ [ps_run ""]) st)) as Heach.
  { clear -IH Hempty. intros els. induction els as [|c els IHels]; intros acc st Hels Hd.
    - cbn [map app visit_each flat_map]. unfold bind at 1.
      destruct d as [|d']; [lia|]. cbn [recurse]. unfold bind at 1. unfold CombinedOutput.
      rewrite bool_decide_true by apply Hempty. cbn [orb].
      unfold ret. by rewrite app_nil_r.
    - inversion Hels as [|? ? [Hc Hhc] Hels']; subst.
      cbn [map app visit_each flat_map]. unfold bind at 1.
      rewrite (IH c acc st Hc Hhc), (IHels _ _ Hels' Hd), emits_app.
      by rewrite <- !app_assoc. }
  cbn [height map] in Hh.
  assert (Forall (fun c => In c (procs t) /\ (height c <= d)%nat) (k :: kids)) as Hkids.
  { apply List.Forall_forall. intros c Hc. split.
    - by apply (kid_in_procs t (Proc pid (k :: kids)) c).
    - pose proof (list_max_le (map height (k :: kids)) (list_max (map height (k :: kids))))
        as [Hmax _].
      specialize (Hmax (Nat.le_refl _)). rewrite List.Forall_forall in Hmax.
      specialize (Hmax (height c) (in_map height _ _ Hc)). cbn [map] in Hmax. lia. }
  assert (1 <= d)%nat as Hd.
  { inversion Hkids as [|? ? [_ Hk] _]; subst. destruct k. cbn [height] in Hk. lia. }
  rewrite (Heach (k :: kids) _ _ Hkids Hd).
  rewrite emit_emits, emits_app. f_equal.
  cbn [descendants]. by rewrite map_app, map_flat_map, <- app_assoc.
Qed.

(** Kills that do not fail with a message all run, and the loop goes on. *)
Lemma kill_each_prefix (E : env) (sig : string) (before : list proc) (rest : list string) :
  (forall h q, In q before ->
     failure (run_cmd E h "kill" [pid_text q; "-" +:+ sig]) = None
     \/ combined (run_cmd E h "kill" [pid_text q; "-" +:+ sig]) = "") ->
  forall st,
    kill_each (map pid_text before ++ rest) sig E st
    = kill_each rest sig E (emits (map (kill_run sig) before) st).
Proof.
  induction before as [|p ps IH]; intros Hquiet st.
  - simpl. by rewrite emits_nil.
  - cbn [map app kill_each]. unfold bind at 1. unfold CombinedOutput.
    rewrite TrimSpace_pid.
    assert (bool_decide (failure (run_cmd E (history st) "kill" [pid_text p; "-" +:+ sig])
                         <> None)
            && (0 <? String.length
                       (combined (run_cmd E (history st) "kill" [pid_text p; "-" +:+ sig])))%nat
            = false) as ->.
    { destruct (Hquiet (history st) p (or_introl eq_refl)) as [-> | ->].
      - by rewrite bool_decide_false by (intros H; by apply H).
      - simpl. apply andb_false_r. }
    rewrite IH by (intros h q Hq; apply Hquiet; by right).
    by rewrite emit_emits, emits_app.
Qed.

Lemma Signal_online (depth : nat) (s : Screen) (signal : Z) (m : mutex) (E : env)
      (st st1 : state) (s' : Screen) (pid : Z) :
  Mutex s = Some m ->
  Process s = Some pid ->
  Get (Name s) E (emit (EvLock m) st) = Returns (s', None) st1 ->
  Signal depth s signal E st
  = match (let* subProcs := recurse depth (GoStrings.Itoa pid) [] in
           kill_each subProcs (GoStrings.Itoa signal)) E st1 with
    | Returns a st' => Returns a (emit (EvUnlock m) st')
    | Panics st' => Panics (emit (EvUnlock m) st')
    | Unfinished => Unfinished
    end.
Proof.
  intros Hm Hp HGet. unfold Signal, locked. rewrite Hm.
  unfold bind at 1. unfold isOnline, bind at 1. rewrite HGet. cbn [ret negb].
  rewrite bool_decide_true by done. cbn [negb]. by rewrite Hp.
Qed.

(** X10: on a session [Get] does not find, [Signal] returns [os.ErrNotExist]
    itself, the one error of the dispatch operations that [os.IsNotExist]
    recognises, whatever the bound of the walk; it has run the listing at
    most: no [ps], no [kill]. *)
Theorem Signal_offline (depth : nat) (s : Screen) (signal : Z) (m : mutex) (E : env)
        (st st1 : state) (s' : Screen) (e : error) :
  Mutex s = Some m ->
  Get (Name s) E (emit (EvLock m) st) = Returns (s', Some e) st1 ->
  Signal depth s signal E st = Returns (Some ErrNotExist) (emit (EvUnlock m) st1)
  /\ IsNotExist (Some ErrNotExist) = true
  /\ runs (history (emit (EvUnlock m) st1))
     = runs (history st)
         ++ (if String.eqb (Name s) "" then [] else [EvRun "screen" ["-ls"; Name s]]).
Proof.
  intros Hm HGet. split; [|split; [reflexivity|]].
  - unfold Signal, locked. rewrite Hm.
    unfold bind at 1. unfold isOnline, bind at 1. rewrite HGet. cbn [ret negb].
    by rewrite bool_decide_false by done.
  - apply Get_fails in HGet as (_ & [(-> & _ & ->)|(Hne & _ & ->)]).
    + simpl. unfold runs. rewrite !filter_app. simpl. by rewrite !app_nil_r.
    + apply String.eqb_neq in Hne. rewrite Hne. simpl. unfold runs.
      rewrite !filter_app. simpl. by rewrite !app_nil_r.
Qed.

Lemma Signal_offline_witness :
  exists st',
    Signal 0 sfoo 15 (process_table (screen_ls []) foo_tree succeeds) initial
    = Returns (Some ErrNotExist) st'
    /\ runs (history st') = [EvRun "screen" ["-ls"; "foo"]].
Proof.
  destruct (Signal_offline 0 sfoo 15 0 (process_table (screen_ls []) foo_tree succeeds)
              initial _ zero_Screen ErrNotExist eq_refl ltac:(vm_compute; reflexivity))
    as (Hres & _ & Hruns).
  eexists. split; [exact Hres|exact Hruns].
Defined.

(** X11: on a live session whose process is the root of a tree of processes
    that [ps] reports, with a bound above the height of the tree and kills
    that do not fail with a message, [Signal] returns [nil].  Between the
    liveness check and the unlock it runs the [ps] commands of the walk and
    then one [kill -<signal>] for each descendant of the root, children
    first; no signal goes anywhere else. *)
Theorem Signal_signals_descendants (depth : nat) (s : Screen) (signal : Z) (m : mutex)
        (t : proc) (E : env) (st st1 : state) (s' : Screen) :
  Mutex s = Some m ->
  Process s = Some (Z.of_nat (proc_pid t)) ->
  Get (Name s) E (emit (EvLock m) st) = Returns (s', None) st1 ->
  ps_from E t -> quiet_kills E ->
  (height t <= depth)%nat ->
  exists st',
    Signal depth s signal E st = Returns None st'
    /\ history st'
       = history st1 ++ ps_walk t
           ++ map (kill_run (GoStrings.Itoa signal)) (descendants t) ++ [EvUnlock m]
    /\ mutexes st' = mutexes st1.
Proof.
  intros Hm Hp HGet Hps Hquiet Hh.
  rewrite (Signal_online depth s signal m E st st1 s' _ Hm Hp HGet).
  unfold bind at 1.
  assert (In t (procs t)) as Ht by (destruct t; by left).
  pose proof (recurse_walk E t Hps depth t [] st1 Ht Hh) as Hwalk.
  unfold pid_text at 1 in Hwalk. rewrite Hwalk. cbn [app].
  rewrite <- (app_nil_r (map pid_text (descendants t))).
  rewrite kill_each_prefix by (intros h q _; apply Hquiet).
  eexists. split; [reflexivity|]. split; [|reflexivity].
  simpl. by rewrite <- !app_assoc.
Qed.

Lemma Signal_signals_descendants_witness :
  exists st',
    Signal 3 sfoo 15 (process_table foo_live foo_tree succeeds) initial = Returns None st'
    /\ skipn 9 (history st')
       = [EvRun "kill" ["200"; "-15"]; EvRun "kill" ["201"; "-15"];
          EvRun "kill" ["300"; "-15"]; EvRun "kill" ["301"; "-15"]; EvUnlock 0].
Proof.
  destruct (Signal_signals_descendants 3 sfoo 15 0 foo_tree
              (process_table foo_live foo_tree succeeds) initial _ _
              eq_refl eq_refl ltac:(vm_compute; reflexivity))
    as (st' & Hres & Hh & _).
  - split.
    + intros h p Hin. vm_compute in Hin.
      destruct Hin as [<-|[<-|[<-|[<-|[<-|[]]]]]]; vm_compute; reflexivity.
    + intros h. vm_compute. discriminate.
  - intros h args. left. reflexivity.
  - vm_compute. lia.
  - exists st'. split; [exact Hres|]. rewrite Hh. vm_compute. reflexivity.
Defined.

(** X12: the first [kill] that fails with a message ends [Signal]: the
    message is the error returned, and the descendants after that one get no
    signal.  The kills before it, which did not fail with a message (a
    failure that writes nothing is passed over), have all run. *)
Theorem Signal_failed_kill (depth : nat) (s : Screen) (signal : Z) (m : mutex)
        (t p : proc) (before rest : list proc) (E : env) (st st1 : state) (s' : Screen) :
  Mutex s = Some m ->
  Process s = Some (Z.of_nat (proc_pid t)) ->
  Get (Name s) E (emit (EvLock m) st) = Returns (s', None) st1 ->
  ps_from E t ->
  (height t <= depth)%nat ->
  descendants t = before ++ p :: rest ->
  let sig := GoStrings.Itoa signal in
  (forall h q, In q before ->
     failure (run_cmd E h "kill" [pid_text q; "-" +:+ sig]) = None
     \/ combined (run_cmd E h "kill" [pid_text q; "-" +:+ sig]) = "") ->
  let c := run_cmd E (history st1 ++ ps_walk t ++ map (kill_run sig) before)
                   "kill" [pid_text p; "-" +:+ sig] in
  failure c <> None -> combined c <> "" ->
  exists st',
    Signal depth s signal E st = Returns (Some (ErrorString (combined c))) st'
    /\ history st'
       = history st1 ++ ps_walk t ++ map (kill_run sig) (before ++ [p]) ++ [EvUnlock m].
Proof.
  intros Hm Hp HGet Hps Hh Hdesc sig Hquiet c Hfail Hout.
  rewrite (Signal_online depth s signal m E st st1 s' _ Hm Hp HGet).
  unfold bind at 1.
  assert (In t (procs t)) as Ht by (destruct t; by left).
  pose proof (recurse_walk E t Hps depth t [] st1 Ht Hh) as Hwalk.
  unfold pid_text at 1 in Hwalk. rewrite Hwalk. cbn [app].
  rewrite Hdesc, map_app. fold sig. rewrite kill_each_prefix by done.
  cbn [map kill_each]. unfold bind at 1. unfold CombinedOutput.
  rewrite TrimSpace_pid, emits_app. cbn [emits history].
  fold c.
  rewrite bool_decide_true by done.
  assert ((0 <? String.length (combined c))%nat = true) as ->.
  { destruct (combined c); [done|reflexivity]. }
  eexists. split; [reflexivity|].
  simpl. rewrite map_app. simpl. by rewrite <- !app_assoc.
Qed.

Lemma Signal_failed_kill_witness :
  exists st',
    Signal 3 sfoo 9 (process_table foo_live foo_tree no_such_process) initial
    = Returns (Some (ErrorString "kill: (200): No such process")) st'
    /\ skipn 9 (history st') = [EvRun "kill" ["200"; "-9"]; EvUnlock 0].
Proof.
  destruct (Signal_failed_kill 3 sfoo 9 0 foo_tree (Proc 200 [Proc 300 []; Proc 301 []])
              [] [Proc 201 []; Proc 300 []; Proc 301 []]
              (process_table foo_live foo_tree no_such_process) initial _ _
              eq_refl eq_refl ltac:(vm_compute; reflexivity))
    as (st' & Hres & Hh).
  - split.
    + intros h p Hin. vm_compute in Hin.
      destruct Hin as [<-|[<-|[<-|[<-|[<-|[]]]]]]; vm_compute; reflexivity.
    + intros h. vm_compute. discriminate.
  - vm_compute. lia.
  - reflexivity.
  - intros h q [].
  - vm_compute. discriminate.
  - vm_compute. discriminate.
  - exists st'. split; [exact Hres|]. rewrite Hh. vm_compute. reflexivity.
Defined.

(** X13: [Signal] reads the pid through the pointer [s.Process] without a
    look at it: on a live session whose [Process] is nil it panics once the
    liveness check is done, the deferred unlock releasing the mutex; no [ps]
    and no [kill] has run. *)
Theorem Signal_without_process (depth : nat) (s : Screen) (signal : Z) (m : mutex)
        (E : env) (st st1 : state) (s' : Screen) :
  Mutex s = Some m ->
  Process s = None ->
  Get (Name s) E (emit (EvLock m) st) = Returns (s', None) st1 ->
  Signal depth s signal E st = Panics (emit (EvUnlock m) st1)
  /\ history (emit (EvUnlock m) st1)
     = history st ++ [EvLock m; EvRun "screen" ["-ls"; Name s]; EvUnlock m].
Proof.
  intros Hm Hp HGet. split.
  - unfold Signal, locked. rewrite Hm.
    unfold bind at 1. unfold isOnline, bind at 1. rewrite HGet. cbn [ret negb].
    rewrite bool_decide_true by done. cbn [negb]. by rewrite Hp.
  - apply Get_returns in HGet as (Hh & _ & Hok & _).
    destruct (Hok eq_refl) as (_ & Hne & _). apply String.eqb_neq in Hne.
    rewrite Hne in Hh. simpl. rewrite Hh. simpl. by rewrite <- !app_assoc.
Qed.

Lemma Signal_without_process_witness :
  exists st',
    Signal 3 {| Name := "foo"; Mutex := Some 0; Process := None |} 15
           (process_table foo_live foo_tree succeeds) initial
    = Panics st'
    /\ history st' = [EvLock 0; EvRun "screen" ["-ls"; "foo"]; EvUnlock 0].
Proof.
  destruct (Signal_without_process 3 {| Name := "foo"; Mutex := Some 0; Process := None |} 15
              0 (process_table foo_live foo_tree succeeds) initial _ _
              eq_refl eq_refl ltac:(vm_compute; reflexivity))
    as (Hres & Hh).
  eexists. split; [exact Hres|exact Hh].
Defined.

(** ** The temporary file of [HardcopyString] *)

Lemma Hardcopy_ends (s : Screen) (path : string) (append : bool) (m : mutex)
      (E : env) (st : state) :
  Mutex s = Some m ->
  exists mid st',
    ((exists r, Hardcopy s path append E st = Returns r st')
     \/ Hardcopy s path append E st = Panics st')
    /\ history st' = history st ++ EvLock m :: mid ++ [EvUnlock m]
    /\ lock_free mid = true
    /\ mutexes st ⊆ mutexes st'.
Proof.
  intros Hm. unfold Hardcopy. apply locked_ends; [done|].
  pose proof (isOnline_unlocked s). unlocked; done.
Qed.


